(** * oeN: a command-line agent loop with file-system tools

  A shallow embedding of the Go sources of the repository

    - [main.go]               the agent loop ([Agent.Run], [executeTool]) and the
                              first, single-file generation of the six tools;
    - [pkg/tools/file.go]     [ReadFile], [ListFiles], [EditFile], [createNewFile];
    - [pkg/tools/directory.go] [MakeDirectory], [RemoveDirectory], [RenameDirectory];

  together with the parts of the Go standard library the tools call
  ([strings.Replace], [path.Dir], [filepath.Walk], [filepath.Rel], [os.*],
  [encoding/json]) and the properties of the tools and of the loop that the
  specification of the repository states.

  Go strings are byte sequences: they are embedded as [string], whose
  characters ([ascii]) are the 256 byte values. *)

From Stdlib Require Import String Ascii List Bool Arith Lia.
Import ListNotations.

Set Warnings "-register-all".

Open Scope string_scope.
Open Scope list_scope.
Open Scope nat_scope.

(** Go's [+] and [==] on strings. *)
Notation "a +++ b" := (String.append a b) (right associativity, at level 60).
Notation "a == b" := (String.eqb a b) (at level 70, no associativity).

(* ================================================================== *)
(** * Part I. The model *)
(* ================================================================== *)

(** ** Byte strings: slicing *)

Module Bytes.

(** [s[n:]] *)
Fixpoint drop (n : nat) (s : string) : string :=
  match n, s with
  | 0, _ => s
  | S _, EmptyString => EmptyString
  | S n', String _ s' => drop n' s'
  end.

(** [s[:n]] *)
Fixpoint take (n : nat) (s : string) : string :=
  match n, s with
  | 0, _ => EmptyString
  | S _, EmptyString => EmptyString
  | S n', String a s' => String a (take n' s')
  end.

(** [s[i]] as a number; 0 past the end (never consulted there). *)
Definition at_ (s : string) (i : nat) : nat :=
  match String.get i s with
  | Some c => nat_of_ascii c
  | None => 0
  end.

(** [strings.Join(l, sep)] *)
Fixpoint Join (l : list string) (sep : string) : string :=
  match l with
  | [] => ""
  | [x] => x
  | x :: rest => x +++ sep +++ Join rest sep
  end.

Fixpoint concat_all (l : list string) : string :=
  match l with
  | [] => ""
  | x :: rest => x +++ concat_all rest
  end.

End Bytes.

Import Bytes.

(** ** Package [unicode/utf8] *)

Module utf8.

(** The table [first]: for a leading byte, the size of the sequence in
    the low three bits and the index of the accept range of the second byte
    in the high four; [0xF0] marks ASCII, [0xF1] an invalid leading byte. *)
Definition first (b : nat) : nat :=
  if b <? 0x80 then 0xF0
  else if b <? 0xC2 then 0xF1
  else if b <? 0xE0 then 0x02
  else if b =? 0xE0 then 0x13
  else if b <? 0xED then 0x03
  else if b =? 0xED then 0x23
  else if b <? 0xF0 then 0x03
  else if b =? 0xF0 then 0x34
  else if b <? 0xF4 then 0x04
  else if b =? 0xF4 then 0x44
  else 0xF1.

Definition locb : nat := 0x80.
Definition hicb : nat := 0xBF.

(** [acceptRanges[i]] as [(lo, hi)]. *)
Definition acceptRanges (i : nat) : nat * nat :=
  match i with
  | 0 => (locb, hicb)
  | 1 => (0xA0, hicb)
  | 2 => (locb, 0x9F)
  | 3 => (0x90, hicb)
  | 4 => (locb, 0x8F)
  | _ => (0, 0)
  end.

(** [DecodeRuneInString(s)], its second result: the width in bytes of the
    first rune of [s]. An invalid or truncated sequence is one byte wide.
    The code point itself is used by no caller in this development. *)
Definition DecodeRuneInString (s : string) : nat :=
  let n := String.length s in
  if n <? 1 then 0 else
  let x := first (at_ s 0) in
  if 0xF0 <=? x then 1 else
  let sz := x mod 8 in
  let accept := acceptRanges (x / 16) in
  if n <? sz then 1 else
  let s1 := at_ s 1 in
  if (s1 <? fst accept) || (snd accept <? s1) then 1 else
  if sz <=? 2 then 2 else
  let s2 := at_ s 2 in
  if (s2 <? locb) || (hicb <? s2) then 1 else
  if sz <=? 3 then 3 else
  let s3 := at_ s 3 in
  if (s3 <? locb) || (hicb <? s3) then 1 else
  4.

(** The runes of [s] as byte strings, in order: what a [for range] loop
    over [s] walks through. [fuel] bounds the number of runes. *)
Fixpoint runes_fuel (fuel : nat) (s : string) : list string :=
  match fuel with
  | 0 => []
  | S f =>
      match s with
      | EmptyString => []
      | String _ _ =>
          let w := DecodeRuneInString s in
          take w s :: runes_fuel f (drop w s)
      end
  end.

Definition runes (s : string) : list string := runes_fuel (String.length s) s.

(** [RuneCountInString(s)] *)
Definition RuneCountInString (s : string) : nat := List.length (runes s).

(** The bytes of a string below [0x80] are runes of their own. *)
Fixpoint ascii_only (s : string) : bool :=
  match s with
  | EmptyString => true
  | String c s' => (nat_of_ascii c <? 0x80) && ascii_only s'
  end.

Fixpoint bytes_of (s : string) : list string :=
  match s with
  | EmptyString => []
  | String c s' => String c "" :: bytes_of s'
  end.

End utf8.

(** ** Package [strings] *)

Module strings.

(** [HasPrefix(s, prefix)] *)
Fixpoint HasPrefix (s prefix : string) {struct prefix} : bool :=
  match prefix, s with
  | EmptyString, _ => true
  | String _ _, EmptyString => false
  | String b p', String a s' => Ascii.eqb a b && HasPrefix s' p'
  end.

(** [Index(s, substr)]: the index of the first instance of [substr] in [s];
    [None] stands for Go's -1. *)
Fixpoint Index (s substr : string) : option nat :=
  if HasPrefix s substr then Some 0
  else match s with
       | EmptyString => None
       | String _ s' => option_map S (Index s' substr)
       end.

(** The loop of [Count] for a non-empty [substr]: find the next instance,
    count it, go on behind it. *)
Fixpoint count_loop (fuel : nat) (s substr : string) : nat :=
  match fuel with
  | 0 => 0
  | S f =>
      match Index s substr with
      | None => 0
      | Some i => S (count_loop f (drop (i + String.length substr) s) substr)
      end
  end.

(** [Count(s, substr)]: the number of non-overlapping instances of [substr]
    in [s]; for the empty [substr], one more than the number of runes. *)
Definition Count (s substr : string) : nat :=
  if substr == "" then utf8.RuneCountInString s + 1
  else count_loop (S (String.length s)) s substr.

(** The replacement loop of [Replace]: [n] replacements remain, [rest] is
    [s[start:]], [first] tells the iteration [i = 0]. Where [Index] finds
    nothing Go would slice out of range; [Replace] runs the loop at most
    [Count s old] times, where that does not happen. *)
Fixpoint replace_loop (n : nat) (first : bool) (rest old new : string) : string :=
  match n with
  | 0 => rest
  | S n' =>
      let j :=
        if String.length old =? 0 then
          if first then 0 else utf8.DecodeRuneInString rest
        else match Index rest old with
             | Some i => i
             | None => 0
             end in
      take j rest +++ new +++
      replace_loop n' false (drop (j + String.length old) rest) old new
  end.

(** [Replace(s, old, new, n)]; [n] is [None] for a negative count (no
    limit) and [Some k] for the count [k >= 0]. *)
Definition Replace (s old new : string) (n : option nat) : string :=
  if (old == new) || (match n with Some 0 => true | _ => false end) then s
  else
    let m := Count s old in
    if m =? 0 then s
    else
      let n := match n with
               | None => m
               | Some k => if m <? k then m else k
               end in
      replace_loop n true s old new.

(** The pieces of [s] between the instances of a non-empty [sep], as
    [Split(s, sep)] returns them. *)
Fixpoint pieces (fuel : nat) (s sep : string) : list string :=
  match fuel with
  | 0 => [s]
  | S f =>
      match Index s sep with
      | None => [s]
      | Some i => take i s :: pieces f (drop (i + String.length sep) s) sep
      end
  end.

Definition Split (s sep : string) : list string :=
  pieces (S (String.length s)) s sep.

End strings.

(** ** Errors *)

(** Error numbers of the system calls the tools can run into. *)
Inductive Errno : Type :=
| ENOENT | ENOTDIR | EISDIR | ENOTEMPTY | EEXIST | EINVAL.

(** Go's [error] values as they arise in this program. *)
Inductive error : Type :=
| errorString (s : string)                       (* [errors.New], [fmt.Errorf] without verb *)
| wrapError (prefix : string) (err : error)      (* [fmt.Errorf(prefix + "%w", err)] *)
| PathError (op path : string) (e : Errno)       (* [*fs.PathError] *)
| LinkError (op old new : string) (e : Errno)    (* [*os.LinkError] *)
| SyntaxError (msg : string)                     (* [*json.SyntaxError] *)
| UnmarshalTypeError (value struct_ field type_ : string).
                                                 (* [*json.UnmarshalTypeError] *)

Definition Errno_Error (e : Errno) : string :=
  match e with
  | ENOENT => "no such file or directory"
  | ENOTDIR => "not a directory"
  | EISDIR => "is a directory"
  | ENOTEMPTY => "directory not empty"
  | EEXIST => "file exists"
  | EINVAL => "invalid argument"
  end.

(** The method [Error()]. *)
Fixpoint Error (err : error) : string :=
  match err with
  | errorString s => s
  | wrapError prefix e => prefix +++ Error e
  | PathError op path e => op +++ " " +++ path +++ ": " +++ Errno_Error e
  | LinkError op old new e =>
      op +++ " " +++ old +++ " " +++ new +++ ": " +++ Errno_Error e
  | SyntaxError msg => msg
  | UnmarshalTypeError value struct_ field type_ =>
      if negb (struct_ == "") || negb (field == "") then
        "json: cannot unmarshal " +++ value +++ " into Go struct field " +++
        struct_ +++ "." +++ field +++ " of type " +++ type_
      else
        "json: cannot unmarshal " +++ value +++ " into Go value of type " +++ type_
  end.

(** The error number under the wrappers, as [os.IsNotExist] digs it out.
    [os.IsNotExist] does not unwrap [fmt.Errorf] wrappers. *)
Definition underlyingErrno (err : error) : option Errno :=
  match err with
  | PathError _ _ e => Some e
  | LinkError _ _ _ e => Some e
  | _ => None
  end.

(** A result [(T, error)] of which exactly one side is meaningful. *)
Inductive result (T : Type) : Type :=
| Ok (v : T)
| Err (e : error).
Arguments Ok {T} v.
Arguments Err {T} e.

(** ** Packages [path] and [path/filepath] (Unix) *)

Module filepath.

Definition Separator : ascii := "/"%char.

(** Whether the separator occurs in [s]. *)
Fixpoint has_slash (s : string) : bool :=
  match s with
  | EmptyString => false
  | String c s' => Ascii.eqb c Separator || has_slash s'
  end.

(** [strings.Split(p, "/")]: the elements of a path, empty ones included. *)
Fixpoint elements (p : string) : list string :=
  match p with
  | EmptyString => [""]
  | String c p' =>
      if Ascii.eqb c Separator then "" :: elements p'
      else match elements p' with
           | e :: rest => String c e :: rest
           | [] => [String c ""]
           end
  end.

(** One round of the loop of [Clean]: [out] holds the elements written so
    far, last one first; [dotdot] counts the leading [..] elements, which
    cannot be backed over. *)
Definition clean_step (rooted : bool) (st : list string * nat) (e : string)
  : list string * nat :=
  let (out, dotdot) := st in
  if (e == "") || (e == ".") then st
  else if e == ".." then
    if dotdot <? List.length out then (tl out, dotdot)
    else if negb rooted then (".." :: out, S (List.length out))
    else st
  else (e :: out, dotdot).

(** [Clean(path)] *)
Definition Clean (path : string) : string :=
  if path == "" then "."
  else
    let rooted := strings.HasPrefix path "/" in
    let out := rev (fst (fold_left (clean_step rooted) (elements path) ([], 0))) in
    if rooted then "/" +++ Join out "/"
    else if Join out "/" == "" then "." else Join out "/".

(** [Join(a, b)] for two elements. *)
Definition Join2 (a b : string) : string :=
  if negb (a == "") then Clean (a +++ "/" +++ b)
  else if negb (b == "") then Clean b
  else "".

(** [strings.LastIndexByte(s, c)]; [None] for -1. *)
Fixpoint LastIndexByte (s : string) (c : ascii) : option nat :=
  match s with
  | EmptyString => None
  | String a s' =>
      match LastIndexByte s' c with
      | Some i => Some (S i)
      | None => if Ascii.eqb a c then Some 0 else None
      end
  end.

(** [path.Split(p)]: directory part (with its final slash) and file part. *)
Definition Split (p : string) : string * string :=
  match LastIndexByte p Separator with
  | Some i => (take (S i) p, drop (S i) p)
  | None => ("", p)
  end.

(** [path.Dir(p)] *)
Definition Dir (p : string) : string := Clean (fst (Split p)).

(** The element at the front of [s] and what follows it: [s[:i]] and
    [s[i:]] for [i] the index of the first separator, or the length. *)
Fixpoint front (s : string) : string * string :=
  match s with
  | EmptyString => ("", "")
  | String c s' =>
      if Ascii.eqb c Separator then ("", s)
      else let (e, r) := front s' in (String c e, r)
  end.

(** [if i < len { i++ }] on the remainder. *)
Definition skip_separator (r : string) : string :=
  match r with
  | EmptyString => ""
  | String _ r' => r'
  end.

(** The loop of [Rel] that walks over the common leading elements. It
    returns [base[b0:]], [base[b0:bi]] and [targ[t0:]]. *)
Fixpoint rel_loop (fuel : nat) (b t : string) : string * string * string :=
  match fuel with
  | 0 => (b, "", t)
  | S f =>
      if (b == "") || (t == "") then (b, "", t)
      else
        let (be, br) := front b in
        let (te, tr) := front t in
        if negb (te == be) then (b, be, t)
        else rel_loop f (skip_separator br) (skip_separator tr)
  end.

Fixpoint repeat_string (s : string) (n : nat) : string :=
  match n with
  | 0 => ""
  | S n' => s +++ repeat_string s n'
  end.

(** [Rel(basepath, targpath)] *)
Definition Rel (basepath targpath : string) : result string :=
  let base := Clean basepath in
  let targ := Clean targpath in
  if targ == base then Ok "."
  else
    let base := if base == "." then "" else base in
    let cannot :=
      Err (errorString ("Rel: can't make " +++ targpath +++ " relative to " +++ basepath)) in
    if negb (Bool.eqb (strings.HasPrefix base "/") (strings.HasPrefix targ "/"))
    then cannot
    else
      let '(brest, belem, trest) := rel_loop (S (String.length base)) base targ in
      if belem == ".." then cannot
      else if negb (brest == "") then
        let seps := strings.Count brest "/" in
        Ok (".." +++ repeat_string "/.." seps +++
            (if negb (trest == "") then "/" +++ trest else ""))
      else Ok trest.

End filepath.

(** ** Package [encoding/json] *)

Module json.

(** A JSON text, parsed. *)
Inductive Value : Type :=
| JNull
| JBool (b : bool)
| JNumber (literal : string)
| JString (s : string)
| JArray (items : list Value)
| JObject (members : list (string * Value)).

(** A [json.RawMessage] as the scanner of [encoding/json] sees it: bytes
    that are no JSON text, with the syntax error the scanner reports, or
    the encoding of a value. The scanner itself is not modelled. *)
Inductive RawMessage : Type :=
| Malformed (msg : string)
| Encoded (v : Value).

(** The word [UnmarshalTypeError] uses for a JSON value. *)
Definition describe (v : Value) : string :=
  match v with
  | JNull => "null"
  | JBool _ => "bool"
  | JNumber _ => "number"
  | JString _ => "string"
  | JArray _ => "array"
  | JObject _ => "object"
  end.

Definition fold_byte (c : ascii) : ascii :=
  let n := nat_of_ascii c in
  if (65 <=? n) && (n <=? 90) then ascii_of_nat (n + 32) else c.

Fixpoint fold_case (s : string) : string :=
  match s with
  | EmptyString => EmptyString
  | String c s' => String (fold_byte c) (fold_case s')
  end.

(** A member key selects the field of that name: exactly, or else up to
    the case of its letters. *)
Definition key_matches (key name : string) : bool :=
  (key == name) || (fold_case key == fold_case name).

(** A JSON value stored into a Go [string] field: a string is stored,
    [null] leaves the field alone, anything else is a type error and the
    field is skipped. *)
Definition into_string (struct_ field : string) (v : Value) (old : string)
  : string * option error :=
  match v with
  | JString s => (s, None)
  | JNull => (old, None)
  | _ => (old, Some (UnmarshalTypeError (describe v) struct_ field "string"))
  end.

Definition into_bool (struct_ field : string) (v : Value) (old : bool)
  : bool * option error :=
  match v with
  | JBool b => (b, None)
  | JNull => (old, None)
  | _ => (old, Some (UnmarshalTypeError (describe v) struct_ field "bool"))
  end.

(** What reflection tells [Unmarshal] about a struct type: its zero value
    and how the member [key: v] of an object is stored into it (members
    that name no field are ignored). *)
Class Struct (T : Type) : Type := {
  zero : T;
  typeName : string;
  store : string -> Value -> T -> T * option error
}.

Definition earliest (e1 e2 : option error) : option error :=
  match e1 with
  | Some _ => e1
  | None => e2
  end.

(** [Unmarshal(input, &v)] for [v] a zero struct: the filled struct and
    the error. A syntax error leaves [v] untouched; [null] is a no-op; a
    value of the wrong kind for a field is skipped and the earliest such
    error is returned at the end. *)
Definition Unmarshal {T : Type} `{Struct T} (input : RawMessage) : T * option error :=
  match input with
  | Malformed msg => (zero, Some (SyntaxError msg))
  | Encoded JNull => (zero, None)
  | Encoded (JObject members) =>
      fold_left
        (fun (acc : T * option error) (m : string * Value) =>
           let (v, e) := acc in
           let (v', e') := store (fst m) (snd m) v in
           (v', earliest e e'))
        members (zero, None)
  | Encoded other => (zero, Some (UnmarshalTypeError (describe other) "" "" typeName))
  end.

Definition quote : ascii := ascii_of_nat 34.
Definition backslash : ascii := ascii_of_nat 92.

Definition hex (n : nat) : ascii :=
  nth n (list_ascii_of_string "0123456789abcdef") "0"%char.

(** [htmlSafeSet[b]] for [b < 0x80]. *)
Definition htmlSafe (b : nat) : bool :=
  (0x20 <=? b) && negb ((b =? 34) || (b =? 92) || (b =? 60) || (b =? 62) || (b =? 38)).

(** The escape of an ASCII byte that is not in [htmlSafeSet]. *)
Definition escape (b : nat) : string :=
  String backslash
    (if (b =? 92) || (b =? 34) then String (ascii_of_nat b) ""
     else if b =? 8 then "b"
     else if b =? 12 then "f"
     else if b =? 10 then "n"
     else if b =? 13 then "r"
     else if b =? 9 then "t"
     else "u00" +++ String (hex (b / 16)) (String (hex (b mod 16)) "")).

Definition lineSeparator : string :=
  String (ascii_of_nat 0xE2) (String (ascii_of_nat 0x80) (String (ascii_of_nat 0xA8) "")).
Definition paragraphSeparator : string :=
  String (ascii_of_nat 0xE2) (String (ascii_of_nat 0x80) (String (ascii_of_nat 0xA9) "")).

(** The body of [appendString] with [escapeHTML] set, between the quotes. *)
Fixpoint appendString_loop (fuel : nat) (src : string) : string :=
  match fuel with
  | 0 => ""
  | S f =>
      match src with
      | EmptyString => ""
      | String c rest =>
          let b := nat_of_ascii c in
          if b <? 0x80 then
            (if htmlSafe b then String c "" else escape b) +++ appendString_loop f rest
          else
            let size := utf8.DecodeRuneInString src in
            if size =? 1 then
              String backslash "ufffd" +++ appendString_loop f rest
            else if take size src == lineSeparator then
              String backslash "u2028" +++ appendString_loop f (drop size src)
            else if take size src == paragraphSeparator then
              String backslash "u2029" +++ appendString_loop f (drop size src)
            else take size src +++ appendString_loop f (drop size src)
      end
  end.

Definition appendString (src : string) : string :=
  String quote (appendString_loop (String.length src) src) +++ String quote "".

(** A Go [[]string]: [None] is the nil slice. *)
Definition strings_slice : Type := option (list string).

(** [append(s, x)] *)
Definition append (s : strings_slice) (x : string) : strings_slice :=
  match s with
  | None => Some [x]
  | Some l => Some (l ++ [x])
  end.

(** The elements of a slice; the nil slice has none. *)
Definition items (s : strings_slice) : list string :=
  match s with
  | None => []
  | Some l => l
  end.

(** [Marshal(v)] for [v] a [[]string]: a nil slice is encoded as [null],
    any other as an array of strings. Encoding strings cannot fail. *)
Definition Marshal (v : strings_slice) : result string :=
  match v with
  | None => Ok "null"
  | Some l => Ok ("[" +++ Join (map appendString l) "," +++ "]")
  end.

End json.

(** ** The file system *)

(** The file system is the tree below the working directory of the
    process. It has regular files and directories only: no links, no
    permissions, no devices, and no failing disk. Paths are relative and
    never leave the tree: an absolute path and the element [..] are outside
    the model, and every statement about a path asks for [valid_path]. *)

Module fs.

Inductive node : Type :=
| File (data : string)
| Dir (entries : list (string * node)).

(** The entries of a directory are kept in the order of their names, the
    order in which [os.ReadDir] and [filepath.Walk] deliver them. *)
Fixpoint find (name : string) (entries : list (string * node)) : option node :=
  match entries with
  | [] => None
  | (k, n) :: rest => if k == name then Some n else find name rest
  end.

Fixpoint replace_entry (name : string) (n : node) (entries : list (string * node))
  : list (string * node) :=
  match entries with
  | [] => []
  | (k, m) :: rest =>
      if k == name then (name, n) :: rest else (k, m) :: replace_entry name n rest
  end.

Fixpoint insert_entry (name : string) (n : node) (entries : list (string * node))
  : list (string * node) :=
  match entries with
  | [] => [(name, n)]
  | (k, m) :: rest =>
      if String.ltb name k then (name, n) :: (k, m) :: rest
      else (k, m) :: insert_entry name n rest
  end.

(** The entry [name] is set to [n]: in its place if the name is there,
    else at the place its name gives it. *)
Definition put (name : string) (n : node) (entries : list (string * node))
  : list (string * node) :=
  match find name entries with
  | Some _ => replace_entry name n entries
  | None => insert_entry name n entries
  end.

Fixpoint del (name : string) (entries : list (string * node))
  : list (string * node) :=
  match entries with
  | [] => []
  | (k, m) :: rest => if k == name then rest else (k, m) :: del name rest
  end.

Definition is_dir (n : node) : bool :=
  match n with
  | Dir _ => true
  | File _ => false
  end.

(** The result of a system call. *)
Inductive sys (T : Type) : Type :=
| Done (v : T)
| Fail (e : Errno).
Arguments Done {T} v.
Arguments Fail {T} e.

(** A name that a directory entry can bear. *)
Definition valid_name (e : string) : bool :=
  negb (e == "") && negb (e == ".") && negb (e == "..").

(** The paths of the model: one or more names separated by single slashes. *)
Definition valid_path (p : string) : bool :=
  forallb valid_name (filepath.elements p).

(** The names a path walks through; [.] and empty elements stay in place. *)
Definition resolve (p : string) : list string :=
  filter (fun e => negb ((e == "") || (e == "."))) (filepath.elements p).

(** Path lookup from the node [n]. *)
Fixpoint lookup (names : list string) (n : node) : sys node :=
  match names with
  | [] => Done n
  | name :: rest =>
      match n with
      | File _ => Fail ENOTDIR
      | Dir entries =>
          match find name entries with
          | None => Fail ENOENT
          | Some child => lookup rest child
          end
      end
  end.

(** [lstat(2)]; the empty path names nothing. *)
Definition stat (p : string) (root : list (string * node)) : sys node :=
  if p == "" then Fail ENOENT else lookup (resolve p) (Dir root).

(** [open(2)] with [O_WRONLY|O_CREATE|O_TRUNC] followed by [write(2)]. *)
Fixpoint write (names : list string) (data : string) (n : node) : sys node :=
  match n with
  | File _ =>
      match names with
      | [] => Done (File data)
      | _ :: _ => Fail ENOTDIR
      end
  | Dir entries =>
      match names with
      | [] => Fail EISDIR
      | name :: rest =>
          match find name entries with
          | Some child =>
              match write rest data child with
              | Done child' => Done (Dir (put name child' entries))
              | Fail e => Fail e
              end
          | None =>
              match rest with
              | [] => Done (Dir (put name (File data) entries))
              | _ :: _ => Fail ENOENT
              end
          end
      end
  end.

(** [os.MkdirAll]: every missing directory on the way is made; a regular
    file on the way is [ENOTDIR]. *)
Fixpoint mkdirAll (names : list string) (n : node) : sys node :=
  match n with
  | File _ => Fail ENOTDIR
  | Dir entries =>
      match names with
      | [] => Done n
      | name :: rest =>
          let child :=
            match find name entries with
            | Some c => c
            | None => Dir []
            end in
          match mkdirAll rest child with
          | Done child' => Done (Dir (put name child' entries))
          | Fail e => Fail e
          end
      end
  end.

(** [os.Remove]: [unlink(2)], then [rmdir(2)]. *)
Fixpoint remove (names : list string) (n : node) : sys node :=
  match n with
  | File _ => Fail ENOTDIR
  | Dir entries =>
      match names with
      | [] => Fail EINVAL
      | name :: rest =>
          match find name entries with
          | None => Fail ENOENT
          | Some child =>
              match rest with
              | [] =>
                  match child with
                  | Dir (_ :: _) => Fail ENOTEMPTY
                  | _ => Done (Dir (del name entries))
                  end
              | _ :: _ =>
                  match remove rest child with
                  | Done child' => Done (Dir (put name child' entries))
                  | Fail e => Fail e
                  end
              end
          end
      end
  end.

(** The system-call part of [os.RemoveAll]: a path that is not there is
    no error, anything found is removed with all it contains. *)
Fixpoint removeAll (names : list string) (n : node) : sys node :=
  match n with
  | File _ => Fail ENOTDIR
  | Dir entries =>
      match names with
      | [] => Fail EINVAL
      | name :: rest =>
          match find name entries with
          | None => Done n
          | Some child =>
              match rest with
              | [] => Done (Dir (del name entries))
              | _ :: _ =>
                  match removeAll rest child with
                  | Done child' => Done (Dir (put name child' entries))
                  | Fail e => Fail e
                  end
              end
          end
      end
  end.

(** Hang [src] into the tree under the path [names]. *)
Fixpoint attach (names : list string) (src : node) (n : node) : sys node :=
  match n with
  | File _ => Fail ENOTDIR
  | Dir entries =>
      match names with
      | [] => Fail EINVAL
      | name :: rest =>
          match rest with
          | [] => Done (Dir (put name src entries))
          | _ :: _ =>
              match find name entries with
              | None => Fail ENOENT
              | Some child =>
                  match attach rest src child with
                  | Done child' => Done (Dir (put name child' entries))
                  | Fail e => Fail e
                  end
              end
          end
      end
  end.

Fixpoint is_prefix (a b : list string) : bool :=
  match a, b with
  | [], _ => true
  | _ :: _, [] => false
  | x :: a', y :: b' => (x == y) && is_prefix a' b'
  end.

Definition same_path (a b : list string) : bool := is_prefix a b && is_prefix b a.

(** [rename(2)]: a path renamed to itself stays; a directory is not put
    in the place of a file, nor moved below itself; the new path needs a
    directory to hang in. *)
Definition rename_call (old new : list string) (n : node) : sys node :=
  match lookup old n with
  | Fail e => Fail e
  | Done src =>
      if same_path old new then Done n
      else
        match lookup new n, src with
        | Done (File _), Dir _ => Fail ENOTDIR
        | Done (Dir _), File _ => Fail EISDIR
        | Done (Dir (_ :: _)), Dir _ => Fail ENOTEMPTY
        | Fail ENOTDIR, _ => Fail ENOTDIR
        | _, _ =>
            if is_prefix old new then Fail EINVAL
            else
              match removeAll old n with
              | Fail e => Fail e
              | Done n' => attach new src n'
              end
        end
  end.

(** [os.Rename]: when the new name is an existing directory, Go answers
    itself — with the error of the old name if that is not there, with
    [EEXIST] if the two names are the same string or name different files —
    and asks the system in all other cases. *)
Definition rename (same_name : bool) (old new : list string) (n : node) : sys node :=
  match lookup new n with
  | Done (Dir _) =>
      match lookup old n with
      | Fail e => Fail e
      | Done _ =>
          if same_name || negb (same_path old new) then Fail EEXIST
          else rename_call old new n
      end
  | _ => rename_call old new n
  end.

(** [path == "." || strings.HasSuffix(path, "/.")] of [os.RemoveAll]. *)
Definition endsWithDot (p : string) : bool :=
  (p == ".") ||
  ((2 <=? String.length p) && (drop (String.length p - 2) p == "/.")).

End fs.

(** ** The process and its effects *)

(** The calls of package [os] and [filepath] that reach the file system. *)
Inductive Call : Type :=
| CallReadFile (name : string)
| CallWriteFile (name : string)
| CallMkdirAll (path : string)
| CallRemove (name : string)
| CallRemoveAll (path : string)
| CallRename (oldpath newpath : string)
| CallWalk (root : string).

(** The world a tool runs in: the tree below the working directory and
    the record of the file-system calls made so far, oldest first. *)
Record World : Type := {
  disk : list (string * fs.node);
  calls : list Call
}.

(** A Go computation either returns, in a new world, or panics, which
    ends the process: nothing in this program recovers. *)
Inductive Outcome (A : Type) : Type :=
| Returns (v : A) (w : World)
| Panics (v : error).
Arguments Returns {A} v w.
Arguments Panics {A} v.

Definition Go (A : Type) : Type := World -> Outcome A.

Definition ret {A : Type} (v : A) : Go A := fun w => Returns v w.

Definition bind {A B : Type} (m : Go A) (k : A -> Go B) : Go B :=
  fun w =>
    match m w with
    | Returns v w' => k v w'
    | Panics e => Panics e
    end.

Definition panic {A : Type} (v : error) : Go A := fun _ => Panics v.

Notation "x <- m ;; k" := (bind m (fun x => k))
  (at level 61, m at next level, right associativity).
Notation "' p <- m ;; k" := (bind m (fun x => match x with p => k end))
  (at level 61, p pattern, m at next level, right associativity).

Module os.

Import fs.

Definition logged (c : Call) (w : World) : World :=
  {| disk := disk w; calls := calls w ++ [c] |}.

(** A call that changes the tree, or fails and leaves it as it is. *)
Definition update (c : Call) (f : node -> sys node) (failure : Errno -> error)
  : Go (option error) :=
  fun w =>
    match f (Dir (disk w)) with
    | Done (Dir root) => Returns None {| disk := root; calls := calls w ++ [c] |}
    | Done (File _) => Returns (Some (failure EINVAL)) (logged c w)
    | Fail e => Returns (Some (failure e)) (logged c w)
    end.

(** [os.ReadFile(name)] *)
Definition ReadFile (name : string) : Go (result string) :=
  fun w =>
    Returns
      match stat name (disk w) with
      | Done (File data) => Ok data
      | Done (Dir _) => Err (PathError "read" name EISDIR)
      | Fail e => Err (PathError "open" name e)
      end
      (logged (CallReadFile name) w).

(** [os.WriteFile(name, data, 0644)] *)
Definition WriteFile (name data : string) : Go (option error) :=
  if name == "" then
    fun w => Returns (Some (PathError "open" name ENOENT)) (logged (CallWriteFile name) w)
  else
    update (CallWriteFile name) (write (resolve name) data) (PathError "open" name).

(** [os.MkdirAll(path, 0755)] *)
Definition MkdirAll (path : string) : Go (option error) :=
  if path == "" then
    fun w => Returns (Some (PathError "mkdir" path ENOENT)) (logged (CallMkdirAll path) w)
  else
    update (CallMkdirAll path) (mkdirAll (resolve path)) (PathError "mkdir" path).

(** [os.Remove(name)] *)
Definition Remove (name : string) : Go (option error) :=
  if name == "" then
    fun w => Returns (Some (PathError "remove" name ENOENT)) (logged (CallRemove name) w)
  else
    update (CallRemove name) (remove (resolve name)) (PathError "remove" name).

(** [os.RemoveAll(path)]: the empty path is no error, a path that ends
    in a dot is refused, the rest is up to the system. *)
Definition RemoveAll (path : string) : Go (option error) :=
  if path == "" then
    fun w => Returns None (logged (CallRemoveAll path) w)
  else if endsWithDot path then
    fun w => Returns (Some (PathError "RemoveAll" path EINVAL)) (logged (CallRemoveAll path) w)
  else
    update (CallRemoveAll path) (removeAll (resolve path)) (PathError "unlinkat" path).

(** [os.Rename(oldpath, newpath)] *)
Definition Rename (oldpath newpath : string) : Go (option error) :=
  if (oldpath == "") || (newpath == "") then
    fun w =>
      Returns (Some (LinkError "rename" oldpath newpath ENOENT))
              (logged (CallRename oldpath newpath) w)
  else
    update (CallRename oldpath newpath)
           (rename (oldpath == newpath) (resolve oldpath) (resolve newpath))
           (LinkError "rename" oldpath newpath).

(** [os.IsNotExist(err)] *)
Definition IsNotExist (err : error) : bool :=
  match underlyingErrno err with
  | Some ENOENT => true
  | _ => false
  end.

(** [fs.FileInfo], as far as the tools look at it. *)
Record FileInfo : Type := { IsDir : bool }.

Definition info_of (n : node) : FileInfo :=
  {| IsDir := match n with Dir _ => true | File _ => false end |}.

End os.

Module Walk.

Import fs os.

(** A [filepath.WalkFunc] whose closure holds state of type [S]: it is
    given the path, the file information (nil together with an error) and
    the error of reaching the path, and returns its state and its error.
    The walk functions of this program return neither [SkipDir] nor
    [SkipAll]. *)
Definition WalkFunc (S : Type) : Type :=
  string -> option FileInfo -> option error -> S -> S * option error.

(** The loop of [walk] over the names of a directory: each entry is
    visited in turn, the first error ends the loop. *)
Fixpoint range_names {S : Type} (visit : string -> node -> S -> S * option error)
  (entries : list (string * node)) (st : S) : S * option error :=
  match entries with
  | [] => (st, None)
  | (name, child) :: rest =>
      match visit name child st with
      | (st', Some e) => (st', Some e)
      | (st', None) => range_names visit rest st'
      end
  end.

(** [walk(path, info, walkFn)]: the function is called on the node, then
    on what the node contains, entry by entry in the order of the names;
    the first error ends the walk. *)
Fixpoint walk {S : Type} (walkFn : WalkFunc S) (path : string) (n : node) (st : S)
  : S * option error :=
  match n with
  | File _ => walkFn path (Some (info_of n)) None st
  | Dir entries =>
      match walkFn path (Some (info_of n)) None st with
      | (st1, Some e) => (st1, Some e)
      | (st1, None) =>
          range_names
            (fun name child => walk walkFn (filepath.Join2 path name) child)
            entries st1
      end
  end.

(** [filepath.Walk(root, fn)], with the state of the closure [fn] threaded
    through. *)
Definition Walk {S : Type} (root : string) (fn : WalkFunc S) (st : S)
  : Go (S * option error) :=
  fun w =>
    Returns
      match stat root (disk w) with
      | Fail e => fn root None (Some (PathError "lstat" root e)) st
      | Done n => walk fn root n st
      end
      (logged (CallWalk root) w).

End Walk.

(** ** [ToolDefinition] ([main.go], package [agent]) *)

(** The handler of a tool takes the raw arguments and returns
    [(string, error)]. The field [InputSchema], generated by reflection for
    the model API, plays no part in running a tool and is left out. *)
Record ToolDefinition : Type := {
  Name : string;
  Description : string;
  Function : json.RawMessage -> Go (string * option error)
}.

(** ** Package [tools]: [pkg/tools/file.go] and [pkg/tools/directory.go] *)

Module tools.

Import json.

Record ReadFileInput : Type := { ReadFileInput_Path : string }.

#[global] Instance ReadFileInput_Struct : Struct ReadFileInput := {
  zero := {| ReadFileInput_Path := "" |};
  typeName := "tools.ReadFileInput";
  store key v r :=
    if key_matches key "path" then
      let (s, e) := into_string "ReadFileInput" "path" v (ReadFileInput_Path r) in
      ({| ReadFileInput_Path := s |}, e)
    else (r, None)
}.

(** [ReadFile] reads the contents of a file. *)
Definition ReadFile (input : RawMessage) : Go (string * option error) :=
  let (in_, err) := Unmarshal (T := ReadFileInput) input in
  match err with
  | Some e => ret ("", Some e)
  | None =>
      r <- os.ReadFile (ReadFileInput_Path in_) ;;
      match r with
      | Err e => ret ("", Some e)
      | Ok content => ret (content, None)
      end
  end.

Definition ReadFileDefinition : ToolDefinition := {|
  Name := "read_file";
  Description := "Read the contents of a given relative file path. Use this when you want to see what's inside a file. Do not use this with directory names.";
  Function := ReadFile
|}.

Record ListFilesInput : Type := { ListFilesInput_Path : string }.

#[global] Instance ListFilesInput_Struct : Struct ListFilesInput := {
  zero := {| ListFilesInput_Path := "" |};
  typeName := "tools.ListFilesInput";
  store key v r :=
    if key_matches key "path" then
      let (s, e) := into_string "ListFilesInput" "path" v (ListFilesInput_Path r) in
      ({| ListFilesInput_Path := s |}, e)
    else (r, None)
}.

(** The function literal that [ListFiles] hands to [filepath.Walk]; its
    closure holds [dir] and the slice [files]. *)
Definition ListFiles_func (dir : string) : Walk.WalkFunc strings_slice :=
  fun pathStr info err files =>
    match err with
    | Some e => (files, Some e)
    | None =>
        match filepath.Rel dir pathStr with
        | Err e => (files, Some e)
        | Ok relPath =>
            if negb (relPath == ".") then
              if match info with Some i => os.IsDir i | None => false end
              then (append files (relPath +++ "/"), None)
              else (append files relPath, None)
            else (files, None)
        end
    end.

(** [ListFiles] lists files and directories. *)
Definition ListFiles (input : RawMessage) : Go (string * option error) :=
  let (in_, err) := Unmarshal (T := ListFilesInput) input in
  match err with
  | Some e => ret ("", Some e)
  | None =>
      let dir := if negb (ListFilesInput_Path in_ == "") then ListFilesInput_Path in_ else "." in
      '(files, err) <- Walk.Walk dir (ListFiles_func dir) None ;;
      match err with
      | Some e => ret ("", Some e)
      | None =>
          match Marshal files with
          | Err e => ret ("", Some e)
          | Ok result => ret (result, None)
          end
      end
  end.

Definition ListFilesDefinition : ToolDefinition := {|
  Name := "list_files";
  Description := "List files and directories at a given path. If no path is provided, lists files in the current directory.";
  Function := ListFiles
|}.

Record EditFileInput : Type := {
  Path : string;
  OldStr : string;
  NewStr : string
}.

#[global] Instance EditFileInput_Struct : Struct EditFileInput := {
  zero := {| Path := ""; OldStr := ""; NewStr := "" |};
  typeName := "tools.EditFileInput";
  store key v r :=
    if key_matches key "path" then
      let (s, e) := into_string "EditFileInput" "path" v (Path r) in
      ({| Path := s; OldStr := OldStr r; NewStr := NewStr r |}, e)
    else if key_matches key "old_str" then
      let (s, e) := into_string "EditFileInput" "old_str" v (OldStr r) in
      ({| Path := Path r; OldStr := s; NewStr := NewStr r |}, e)
    else if key_matches key "new_str" then
      let (s, e) := into_string "EditFileInput" "new_str" v (NewStr r) in
      ({| Path := Path r; OldStr := OldStr r; NewStr := s |}, e)
    else (r, None)
}.

(** [createNewFile] creates a new file with content. ([path.Dir] is
    [filepath.Dir] here: the separator is the slash.) *)
Definition createNewFile (filePath content : string) : Go (string * option error) :=
  let dir := filepath.Dir filePath in
  made <-
    (if negb (dir == ".") then os.MkdirAll dir else ret None) ;;
  match made with
  | Some err => ret ("", Some (wrapError "failed to create directory: " err))
  | None =>
      written <- os.WriteFile filePath content ;;
      match written with
      | Some err => ret ("", Some (wrapError "failed to create file: " err))
      | None => ret ("Successfully created file " +++ filePath, None)
      end
  end.

(** [EditFile] edits or creates a file. *)
Definition EditFile (input : RawMessage) : Go (string * option error) :=
  let (in_, err) := Unmarshal (T := EditFileInput) input in
  match err with
  | Some e => ret ("", Some e)
  | None =>
      if (Path in_ == "") || (OldStr in_ == NewStr in_) then
        ret ("", Some (errorString "invalid input parameters"))
      else
        r <- os.ReadFile (Path in_) ;;
        match r with
        | Err err =>
            if os.IsNotExist err && (OldStr in_ == "") then
              createNewFile (Path in_) (NewStr in_)
            else ret ("", Some err)
        | Ok content =>
            let oldContent := content in
            let newContent := strings.Replace oldContent (OldStr in_) (NewStr in_) None in
            if (oldContent == newContent) && negb (OldStr in_ == "") then
              ret ("", Some (errorString "old_str not found in file"))
            else
              written <- os.WriteFile (Path in_) newContent ;;
              match written with
              | Some err => ret ("", Some err)
              | None => ret ("OK", None)
              end
        end
  end.

Definition EditFileDefinition : ToolDefinition := {|
  Name := "edit_file";
  Description := "Make edits to a text file.

Replaces 'old_str' with 'new_str' in the given file. 'old_str' and 'new_str' MUST be different from each other.

If the file specified with path doesn't exist, it will be created.
";
  Function := EditFile
|}.

Record MakeDirectoryInput : Type := { MakeDirectoryInput_Path : string }.

#[global] Instance MakeDirectoryInput_Struct : Struct MakeDirectoryInput := {
  zero := {| MakeDirectoryInput_Path := "" |};
  typeName := "tools.MakeDirectoryInput";
  store key v r :=
    if key_matches key "path" then
      let (s, e) := into_string "MakeDirectoryInput" "path" v (MakeDirectoryInput_Path r) in
      ({| MakeDirectoryInput_Path := s |}, e)
    else (r, None)
}.

(** [MakeDirectory] creates a directory and any necessary parents. *)
Definition MakeDirectory (input : RawMessage) : Go (string * option error) :=
  let (in_, err) := Unmarshal (T := MakeDirectoryInput) input in
  match err with
  | Some e => ret ("", Some e)
  | None =>
      if MakeDirectoryInput_Path in_ == "" then
        ret ("", Some (errorString "path must not be empty"))
      else
        made <- os.MkdirAll (MakeDirectoryInput_Path in_) ;;
        match made with
        | Some err => ret ("", Some (wrapError "failed to create directory: " err))
        | None =>
            ret ("Successfully created directory " +++ MakeDirectoryInput_Path in_, None)
        end
  end.

Definition MakeDirectoryDefinition : ToolDefinition := {|
  Name := "make_directory";
  Description := "Create a new directory at the given relative path, creating parent directories as needed.";
  Function := MakeDirectory
|}.

Record RemoveDirectoryInput : Type := {
  RemoveDirectoryInput_Path : string;
  Recursive : bool
}.

#[global] Instance RemoveDirectoryInput_Struct : Struct RemoveDirectoryInput := {
  zero := {| RemoveDirectoryInput_Path := ""; Recursive := false |};
  typeName := "tools.RemoveDirectoryInput";
  store key v r :=
    if key_matches key "path" then
      let (s, e) := into_string "RemoveDirectoryInput" "path" v (RemoveDirectoryInput_Path r) in
      ({| RemoveDirectoryInput_Path := s; Recursive := Recursive r |}, e)
    else if key_matches key "recursive" then
      let (b, e) := into_bool "RemoveDirectoryInput" "recursive" v (Recursive r) in
      ({| RemoveDirectoryInput_Path := RemoveDirectoryInput_Path r; Recursive := b |}, e)
    else (r, None)
}.

(** [RemoveDirectory] removes a directory based on input. *)
Definition RemoveDirectory (input : RawMessage) : Go (string * option error) :=
  let (in_, err) := Unmarshal (T := RemoveDirectoryInput) input in
  match err with
  | Some e => ret ("", Some e)
  | None =>
      if RemoveDirectoryInput_Path in_ == "" then
        ret ("", Some (errorString "path must not be empty"))
      else
        removed <-
          (if Recursive in_ then
             e <- os.RemoveAll (RemoveDirectoryInput_Path in_) ;;
             ret (option_map (wrapError "failed to remove directory recursively: ") e)
           else
             e <- os.Remove (RemoveDirectoryInput_Path in_) ;;
             ret (option_map (wrapError "failed to remove directory: ") e)) ;;
        match removed with
        | Some err => ret ("", Some err)
        | None =>
            ret ("Successfully removed directory " +++ RemoveDirectoryInput_Path in_, None)
        end
  end.

Definition RemoveDirectoryDefinition : ToolDefinition := {|
  Name := "remove_directory";
  Description := "Remove a directory at the given relative path. If recursive is true, remove all contents recursively; otherwise, only if empty.";
  Function := RemoveDirectory
|}.

Record RenameDirectoryInput : Type := {
  OldPath : string;
  NewPath : string
}.

#[global] Instance RenameDirectoryInput_Struct : Struct RenameDirectoryInput := {
  zero := {| OldPath := ""; NewPath := "" |};
  typeName := "tools.RenameDirectoryInput";
  store key v r :=
    if key_matches key "old_path" then
      let (s, e) := into_string "RenameDirectoryInput" "old_path" v (OldPath r) in
      ({| OldPath := s; NewPath := NewPath r |}, e)
    else if key_matches key "new_path" then
      let (s, e) := into_string "RenameDirectoryInput" "new_path" v (NewPath r) in
      ({| OldPath := OldPath r; NewPath := s |}, e)
    else (r, None)
}.

(** [RenameDirectory] renames or moves a directory. *)
Definition RenameDirectory (input : RawMessage) : Go (string * option error) :=
  let (in_, err) := Unmarshal (T := RenameDirectoryInput) input in
  match err with
  | Some e => ret ("", Some e)
  | None =>
      if (OldPath in_ == "") || (NewPath in_ == "") then
        ret ("", Some (errorString "old_path and new_path must not be empty"))
      else
        renamed <- os.Rename (OldPath in_) (NewPath in_) ;;
        match renamed with
        | Some err => ret ("", Some (wrapError "failed to rename directory: " err))
        | None =>
            ret ("Successfully renamed directory from " +++ OldPath in_ +++
                 " to " +++ NewPath in_, None)
        end
  end.

Definition RenameDirectoryDefinition : ToolDefinition := {|
  Name := "rename_directory";
  Description := "Rename or move a directory from the old path to the new path.";
  Function := RenameDirectory
|}.

(** The registry that the command of the package layout builds
    ([toolsList] in its [main]). *)
Definition toolsList : list ToolDefinition :=
  [ ReadFileDefinition; ListFilesDefinition; EditFileDefinition;
    MakeDirectoryDefinition; RemoveDirectoryDefinition; RenameDirectoryDefinition ].

End tools.

(** ** The conversation ([anthropic.MessageParam] and its content blocks) *)

Inductive Role : Type := RoleUser | RoleAssistant.

(** The content blocks of a message. The model API knows further types
    of blocks (thinking and the like), which the loop passes over. *)
Inductive ContentBlock : Type :=
| TextBlock (text : string)
| ToolUseBlock (id name : string) (input : json.RawMessage)
| ToolResultBlock (toolUseID content : string) (isError : bool)
| OtherBlock (type_ : string).

Record MessageParam : Type := {
  role : Role;
  content : list ContentBlock
}.

(** A response of the model API: [anthropic.Message]. *)
Record Message : Type := { Content : list ContentBlock }.

Definition NewTextBlock (text : string) : ContentBlock := TextBlock text.

Definition NewToolResultBlock (toolUseID content : string) (isError : bool)
  : ContentBlock := ToolResultBlock toolUseID content isError.

Definition NewUserMessage (blocks : list ContentBlock) : MessageParam :=
  {| role := RoleUser; content := blocks |}.

(** [message.ToParam()] *)
Definition ToParam (m : Message) : MessageParam :=
  {| role := RoleAssistant; content := Content m |}.

(** ** The agent ([main.go]) *)

Module agent.

(** The model API is an oracle: given the conversation and the declared
    tools (name and description) it answers with a message or an error.
    [getUserMessage] reads a line from what is left of standard input. *)
Record Agent : Type := {
  client : list MessageParam -> list (string * string) -> result Message;
  getUserMessage : list string -> (string * bool) * list string;
  tools : list ToolDefinition
}.

Definition NewAgent
  (client : list MessageParam -> list (string * string) -> result Message)
  (getUserMessage : list string -> (string * bool) * list string)
  (tools : list ToolDefinition) : Agent :=
  {| client := client; getUserMessage := getUserMessage; tools := tools |}.

(** The search loop of [executeTool]: the first tool of that name. *)
Fixpoint find_tool (tools : list ToolDefinition) (name : string)
  : option ToolDefinition :=
  match tools with
  | [] => None
  | tool :: rest => if Name tool == name then Some tool else find_tool rest name
  end.

(** [executeTool]. The trace line it prints is not modelled. *)
Definition executeTool (a : Agent) (id name : string) (input : json.RawMessage)
  : Go ContentBlock :=
  match find_tool (tools a) name with
  | None => ret (NewToolResultBlock id "tool not found" true)
  | Some toolDef =>
      '(response, err) <- Function toolDef input ;;
      match err with
      | Some e => ret (NewToolResultBlock id (Error e) true)
      | None => ret (NewToolResultBlock id response false)
      end
  end.

(** [runInference] *)
Definition runInference (a : Agent) (conversation : list MessageParam)
  : result Message :=
  client a conversation (map (fun tool => (Name tool, Description tool)) (tools a)).

(** The loop over [message.Content] in [Run]: text is printed (not
    modelled), a tool use is executed and its result appended to
    [toolResults], any other block is passed over. *)
Fixpoint range_Content (a : Agent) (blocks : list ContentBlock)
  (toolResults : list ContentBlock) : Go (list ContentBlock) :=
  match blocks with
  | [] => ret toolResults
  | TextBlock _ :: rest => range_Content a rest toolResults
  | ToolUseBlock id name input :: rest =>
      result <- executeTool a id name input ;;
      range_Content a rest (toolResults ++ [result])
  | _ :: rest => range_Content a rest toolResults
  end.

(** The variables of [Run] that live across iterations, and the standard
    input not yet read. *)
Record Loop : Type := {
  conversation : list MessageParam;
  readUserInput : bool;
  stdin : list string
}.

(** How an iteration of the loop of [Run] ends. *)
Inductive Step : Type :=
| Continue (l : Loop) (w : World)
| Break (l : Loop) (w : World)
| Return (err : error) (l : Loop) (w : World)
| Crash (v : error).

(** The first statement of the loop body: when [readUserInput] is set, a
    line is read and appended to the conversation as a user message; at the
    end of input there is [None], and the loop is left. *)
Definition read_input (a : Agent) (l : Loop) : option Loop :=
  if readUserInput l then
    match getUserMessage a (stdin l) with
    | ((_, false), _) => None
    | ((userInput, true), rest) =>
        Some {| conversation :=
                  conversation l ++ [NewUserMessage [NewTextBlock userInput]];
                readUserInput := readUserInput l;
                stdin := rest |}
    end
  else Some l.

(** One iteration of the [for] loop of [Run]. *)
Definition Run_iteration (a : Agent) (l : Loop) (w : World) : Step :=
  match read_input a l with
  | None => Break l w
  | Some l1 =>
      match runInference a (conversation l1) with
      | Err err => Return err l1 w
      | Ok message =>
          let conversation1 := conversation l1 ++ [ToParam message] in
          match range_Content a (Content message) [] w with
          | Panics v => Crash v
          | Returns toolResults w' =>
              if List.length toolResults =? 0 then
                Continue {| conversation := conversation1;
                            readUserInput := true;
                            stdin := stdin l1 |} w'
              else
                Continue {| conversation :=
                              conversation1 ++ [NewUserMessage toolResults];
                            readUserInput := false;
                            stdin := stdin l1 |} w'
          end
      end
  end.

(** [Run], for at most [n] iterations: how the loop ended, or
    [Continue] with the state in which iteration [n] would start. *)
Fixpoint Run_from (n : nat) (a : Agent) (l : Loop) (w : World) : Step :=
  match n with
  | 0 => Continue l w
  | S n' =>
      match Run_iteration a l w with
      | Continue l' w' => Run_from n' a l' w'
      | ended => ended
      end
  end.

Definition Run (n : nat) (a : Agent) (input : list string) (w : World) : Step :=
  Run_from n a {| conversation := []; readUserInput := true; stdin := input |} w.

End agent.

(** ** Package [main]: [main.go] *)

Module main.

Import json.

(** [getUserMessage] of [main]: the next line of standard input, if any. *)
Definition getUserMessage (input : list string) : (string * bool) * list string :=
  match input with
  | [] => (("", false), [])
  | line :: rest => ((line, true), rest)
  end.

Record ReadFileInput : Type := { ReadFileInput_Path : string }.

#[global] Instance ReadFileInput_Struct : Struct ReadFileInput := {
  zero := {| ReadFileInput_Path := "" |};
  typeName := "main.ReadFileInput";
  store key v r :=
    if key_matches key "path" then
      let (s, e) := into_string "ReadFileInput" "path" v (ReadFileInput_Path r) in
      ({| ReadFileInput_Path := s |}, e)
    else (r, None)
}.

(** [ReadFile] of [main.go]. *)
Definition ReadFile (input : RawMessage) : Go (string * option error) :=
  let (readFileInput, err) := Unmarshal (T := ReadFileInput) input in
  match err with
  | Some e => panic e
  | None =>
      r <- os.ReadFile (ReadFileInput_Path readFileInput) ;;
      match r with
      | Err e => ret ("", Some e)
      | Ok content => ret (content, None)
      end
  end.

Definition ReadFileDefinition : ToolDefinition := {|
  Name := "read_file";
  Description := Description tools.ReadFileDefinition;
  Function := ReadFile
|}.

Record ListFilesInput : Type := { ListFilesInput_Path : string }.

#[global] Instance ListFilesInput_Struct : Struct ListFilesInput := {
  zero := {| ListFilesInput_Path := "" |};
  typeName := "main.ListFilesInput";
  store key v r :=
    if key_matches key "path" then
      let (s, e) := into_string "ListFilesInput" "path" v (ListFilesInput_Path r) in
      ({| ListFilesInput_Path := s |}, e)
    else (r, None)
}.

(** [ListFiles] of [main.go]; the function it hands to [filepath.Walk]
    is, line by line, the one of package [tools]. *)
Definition ListFiles (input : RawMessage) : Go (string * option error) :=
  let (listFilesInput, err) := Unmarshal (T := ListFilesInput) input in
  match err with
  | Some e => panic e
  | None =>
      let dir :=
        if negb (ListFilesInput_Path listFilesInput == "")
        then ListFilesInput_Path listFilesInput else "." in
      '(files, err) <- Walk.Walk dir (tools.ListFiles_func dir) None ;;
      match err with
      | Some e => ret ("", Some e)
      | None =>
          match Marshal files with
          | Err e => ret ("", Some e)
          | Ok result => ret (result, None)
          end
      end
  end.

Definition ListFilesDefinition : ToolDefinition := {|
  Name := "list_files";
  Description := Description tools.ListFilesDefinition;
  Function := ListFiles
|}.

Record EditFileInput : Type := {
  Path : string;
  OldStr : string;
  NewStr : string
}.

#[global] Instance EditFileInput_Struct : Struct EditFileInput := {
  zero := {| Path := ""; OldStr := ""; NewStr := "" |};
  typeName := "main.EditFileInput";
  store key v r :=
    if key_matches key "path" then
      let (s, e) := into_string "EditFileInput" "path" v (Path r) in
      ({| Path := s; OldStr := OldStr r; NewStr := NewStr r |}, e)
    else if key_matches key "old_str" then
      let (s, e) := into_string "EditFileInput" "old_str" v (OldStr r) in
      ({| Path := Path r; OldStr := s; NewStr := NewStr r |}, e)
    else if key_matches key "new_str" then
      let (s, e) := into_string "EditFileInput" "new_str" v (NewStr r) in
      ({| Path := Path r; OldStr := OldStr r; NewStr := s |}, e)
    else (r, None)
}.

(** [createNewFile] of [main.go] ([path.Dir] is [filepath.Dir] here: the
    separator is the slash). *)
Definition createNewFile (filePath content : string) : Go (string * option error) :=
  let dir := filepath.Dir filePath in
  made <-
    (if negb (dir == ".") then os.MkdirAll dir else ret None) ;;
  match made with
  | Some err => ret ("", Some (wrapError "failed to create directory: " err))
  | None =>
      written <- os.WriteFile filePath content ;;
      match written with
      | Some err => ret ("", Some (wrapError "failed to create file: " err))
      | None => ret ("Successfully created file " +++ filePath, None)
      end
  end.

(** [EditFile] of [main.go]. *)
Definition EditFile (input : RawMessage) : Go (string * option error) :=
  let (editFileInput, err) := Unmarshal (T := EditFileInput) input in
  match err with
  | Some e => ret ("", Some e)
  | None =>
      if (Path editFileInput == "") || (OldStr editFileInput == NewStr editFileInput) then
        ret ("", Some (errorString "invalid input parameters"))
      else
        r <- os.ReadFile (Path editFileInput) ;;
        match r with
        | Err err =>
            if os.IsNotExist err && (OldStr editFileInput == "") then
              createNewFile (Path editFileInput) (NewStr editFileInput)
            else ret ("", Some err)
        | Ok content =>
            let oldContent := content in
            let newContent :=
              strings.Replace oldContent (OldStr editFileInput) (NewStr editFileInput)
                              None in
            if (oldContent == newContent) && negb (OldStr editFileInput == "") then
              ret ("", Some (errorString "old_str not found in file"))
            else
              written <- os.WriteFile (Path editFileInput) newContent ;;
              match written with
              | Some err => ret ("", Some err)
              | None => ret ("OK", None)
              end
        end
  end.

Definition EditFileDefinition : ToolDefinition := {|
  Name := "edit_file";
  Description := Description tools.EditFileDefinition;
  Function := EditFile
|}.

Record MakeDirectoryInput : Type := { MakeDirectoryInput_Path : string }.

#[global] Instance MakeDirectoryInput_Struct : Struct MakeDirectoryInput := {
  zero := {| MakeDirectoryInput_Path := "" |};
  typeName := "main.MakeDirectoryInput";
  store key v r :=
    if key_matches key "path" then
      let (s, e) := into_string "MakeDirectoryInput" "path" v (MakeDirectoryInput_Path r) in
      ({| MakeDirectoryInput_Path := s |}, e)
    else (r, None)
}.

(** [MakeDirectory] of [main.go]. *)
Definition MakeDirectory (input : RawMessage) : Go (string * option error) :=
  let (in_, err) := Unmarshal (T := MakeDirectoryInput) input in
  match err with
  | Some e => ret ("", Some e)
  | None =>
      if MakeDirectoryInput_Path in_ == "" then
        ret ("", Some (errorString "path must not be empty"))
      else
        made <- os.MkdirAll (MakeDirectoryInput_Path in_) ;;
        match made with
        | Some err => ret ("", Some (wrapError "failed to create directory: " err))
        | None =>
            ret ("Successfully created directory " +++ MakeDirectoryInput_Path in_, None)
        end
  end.

Definition MakeDirectoryDefinition : ToolDefinition := {|
  Name := "make_directory";
  Description := Description tools.MakeDirectoryDefinition;
  Function := MakeDirectory
|}.

Record RemoveDirectoryInput : Type := {
  RemoveDirectoryInput_Path : string;
  Recursive : bool
}.

#[global] Instance RemoveDirectoryInput_Struct : Struct RemoveDirectoryInput := {
  zero := {| RemoveDirectoryInput_Path := ""; Recursive := false |};
  typeName := "main.RemoveDirectoryInput";
  store key v r :=
    if key_matches key "path" then
      let (s, e) := into_string "RemoveDirectoryInput" "path" v (RemoveDirectoryInput_Path r) in
      ({| RemoveDirectoryInput_Path := s; Recursive := Recursive r |}, e)
    else if key_matches key "recursive" then
      let (b, e) := into_bool "RemoveDirectoryInput" "recursive" v (Recursive r) in
      ({| RemoveDirectoryInput_Path := RemoveDirectoryInput_Path r; Recursive := b |}, e)
    else (r, None)
}.

(** [RemoveDirectory] of [main.go]. *)
Definition RemoveDirectory (input : RawMessage) : Go (string * option error) :=
  let (in_, err) := Unmarshal (T := RemoveDirectoryInput) input in
  match err with
  | Some e => ret ("", Some e)
  | None =>
      if RemoveDirectoryInput_Path in_ == "" then
        ret ("", Some (errorString "path must not be empty"))
      else
        removed <-
          (if Recursive in_ then
             e <- os.RemoveAll (RemoveDirectoryInput_Path in_) ;;
             ret (option_map (wrapError "failed to remove directory recursively: ") e)
           else
             e <- os.Remove (RemoveDirectoryInput_Path in_) ;;
             ret (option_map (wrapError "failed to remove directory: ") e)) ;;
        match removed with
        | Some err => ret ("", Some err)
        | None =>
            ret ("Successfully removed directory " +++ RemoveDirectoryInput_Path in_, None)
        end
  end.

Definition RemoveDirectoryDefinition : ToolDefinition := {|
  Name := "remove_directory";
  Description := Description tools.RemoveDirectoryDefinition;
  Function := RemoveDirectory
|}.

Record RenameDirectoryInput : Type := {
  OldPath : string;
  NewPath : string
}.

#[global] Instance RenameDirectoryInput_Struct : Struct RenameDirectoryInput := {
  zero := {| OldPath := ""; NewPath := "" |};
  typeName := "main.RenameDirectoryInput";
  store key v r :=
    if key_matches key "old_path" then
      let (s, e) := into_string "RenameDirectoryInput" "old_path" v (OldPath r) in
      ({| OldPath := s; NewPath := NewPath r |}, e)
    else if key_matches key "new_path" then
      let (s, e) := into_string "RenameDirectoryInput" "new_path" v (NewPath r) in
      ({| OldPath := OldPath r; NewPath := s |}, e)
    else (r, None)
}.

(** [RenameDirectory] of [main.go]. *)
Definition RenameDirectory (input : RawMessage) : Go (string * option error) :=
  let (in_, err) := Unmarshal (T := RenameDirectoryInput) input in
  match err with
  | Some e => ret ("", Some e)
  | None =>
      if (OldPath in_ == "") || (NewPath in_ == "") then
        ret ("", Some (errorString "old_path and new_path must not be empty"))
      else
        renamed <- os.Rename (OldPath in_) (NewPath in_) ;;
        match renamed with
        | Some err => ret ("", Some (wrapError "failed to rename directory: " err))
        | None =>
            ret ("Successfully renamed directory from " +++ OldPath in_ +++
                 " to " +++ NewPath in_, None)
        end
  end.

Definition RenameDirectoryDefinition : ToolDefinition := {|
  Name := "rename_directory";
  Description := Description tools.RenameDirectoryDefinition;
  Function := RenameDirectory
|}.

(** The registry of [main.go]: its own six handlers, each decoding into
    the input struct of package [main]. *)
Definition tools : list ToolDefinition :=
  [ ReadFileDefinition; ListFilesDefinition; EditFileDefinition;
    MakeDirectoryDefinition; RemoveDirectoryDefinition;
    RenameDirectoryDefinition ].

End main.

(** ** A small world to run the tools in *)

Module demo.

Import json fs.

(** The working directory holds a file, a directory with a directory and
    a file in it, and an empty directory. *)
Definition root : list (string * node) :=
  [ ("a.txt", File "hello world hello");
    ("d", Dir [("e", Dir []); ("f.txt", File "x")]);
    ("z", Dir []) ].

Definition world : World := {| disk := root; calls := [] |}.

(** The arguments of a tool call as the model sends them: an object of
    string members. *)
Definition object (members : list (string * string)) : RawMessage :=
  Encoded (JObject (map (fun m => (fst m, JString (snd m))) members)).

Definition edit_args (path old_str new_str : string) : RawMessage :=
  object [("path", path); ("old_str", old_str); ("new_str", new_str)].

Definition remove_args (path : string) (recursive : bool) : RawMessage :=
  Encoded (JObject [("path", JString path); ("recursive", JBool recursive)]).

(** A model that answers the first user message with two tool uses, and
    the results of those with a closing text. *)
Definition scripted (conversation : list MessageParam) (declared : list (string * string))
  : result Message :=
  match List.length conversation with
  | 1 =>
      Ok {| Content :=
              [ TextBlock "I will set it up.";
                ToolUseBlock "toolu_1" "make_directory" (object [("path", "x")]);
                ToolUseBlock "toolu_2" "edit_file" (edit_args "x/a.txt" "" "hi") ] |}
  | 3 => Ok {| Content := [TextBlock "Done."] |}
  | _ => Err (errorString "overloaded")
  end.

Definition assistant : agent.Agent :=
  agent.NewAgent scripted main.getUserMessage tools.toolsList.

(** A model that asks for a file under a path that is a number. *)
Definition careless (conversation : list MessageParam) (declared : list (string * string))
  : result Message :=
  Ok {| Content :=
          [ ToolUseBlock "toolu_1" "read_file" (Encoded (JObject [("path", JNumber "5")])) ] |}.

(** The program of [main.go], talking to that model. *)
Definition first_generation : agent.Agent :=
  agent.NewAgent careless main.getUserMessage main.tools.

End demo.

(** ** The words of the specification *)

(** A regular file with content [data] exists at [p]. *)
Definition file_at (w : World) (p data : string) : Prop :=
  fs.stat p (disk w) = fs.Done (fs.File data).

(** A directory exists at [p]. *)
Definition directory_at (w : World) (p : string) : Prop :=
  exists entries, fs.stat p (disk w) = fs.Done (fs.Dir entries).

(** Nothing exists at [p], and the way to it is not barred by a file. *)
Definition missing (w : World) (p : string) : Prop :=
  fs.stat p (disk w) = fs.Fail ENOENT.

(** The errors of the specification's taxonomy, as the tools raise them. *)
Definition InvalidArguments : error := errorString "invalid input parameters".
Definition NoMatch : error := errorString "old_str not found in file".

(** [NotFound]: an error that [os.IsNotExist] recognises. *)
Definition NotFound (err : error) : Prop := os.IsNotExist err = true.


(** A tool use as the model emits it: id, name and raw arguments. *)
Record ToolUse : Type := {
  use_id : string;
  use_name : string;
  use_input : json.RawMessage
}.

(** The tool uses of a response, in the order in which the model emitted
    them. *)
Fixpoint tool_uses (blocks : list ContentBlock) : list ToolUse :=
  match blocks with
  | [] => []
  | ToolUseBlock id name input :: rest =>
      {| use_id := id; use_name := name; use_input := input |} :: tool_uses rest
  | _ :: rest => tool_uses rest
  end.

(** Dispatching tool uses one after the other: each tool runs to its end
    in the world the one before has left. *)
Fixpoint dispatch_in_order (a : agent.Agent) (uses : list ToolUse)
  : Go (list ContentBlock) :=
  match uses with
  | [] => ret []
  | u :: rest =>
      result <- agent.executeTool a (use_id u) (use_name u) (use_input u) ;;
      results <- dispatch_in_order a rest ;;
      ret (result :: results)
  end.

(** The ids that the blocks of a tool-result turn answer, when all its
    blocks are tool results. *)
Fixpoint tool_result_ids (blocks : list ContentBlock) : option (list string) :=
  match blocks with
  | [] => Some []
  | ToolResultBlock id _ _ :: rest => option_map (cons id) (tool_result_ids rest)
  | _ :: _ => None
  end.

(** The turn [m] is a user turn made of tool results that answer exactly
    the tool uses [ids], one each and in their order. *)
Definition answers (ids : list string) (m : MessageParam) : Prop :=
  role m = RoleUser /\ tool_result_ids (content m) = Some ids.

(** No tool call is left dangling: every assistant turn with tool uses
    is followed at once by the turn that answers them. *)
Fixpoint paired (conversation : list MessageParam) : Prop :=
  match conversation with
  | [] => True
  | m :: rest =>
      (role m = RoleAssistant ->
       tool_uses (content m) <> [] ->
       match rest with
       | next :: _ => answers (map use_id (tool_uses (content m))) next
       | [] => False
       end) /\
      paired rest
  end.

(** The computation [m] returns, in whatever world it starts. *)
Definition returns {A : Type} (m : Go A) : Prop :=
  forall w, exists v w', m w = Returns v w'.

(** No handler of the registry panics. *)
Definition never_panics (registry : list ToolDefinition) : Prop :=
  forall tool input w,
    In tool registry -> exists r w', Function tool input w = Returns r w'.

(** The struct that the handler of a tool of package [tools] decodes its
    arguments into, as far as the error of decoding goes. *)
Definition decode_error (name : string) (input : json.RawMessage) : option error :=
  if name == "read_file" then snd (json.Unmarshal (T := tools.ReadFileInput) input)
  else if name == "list_files" then snd (json.Unmarshal (T := tools.ListFilesInput) input)
  else if name == "edit_file" then snd (json.Unmarshal (T := tools.EditFileInput) input)
  else if name == "make_directory" then snd (json.Unmarshal (T := tools.MakeDirectoryInput) input)
  else if name == "remove_directory" then snd (json.Unmarshal (T := tools.RemoveDirectoryInput) input)
  else if name == "rename_directory" then snd (json.Unmarshal (T := tools.RenameDirectoryInput) input)
  else None.

(** A file-system tree as a real one is: every directory entry bears a
    name without a slash that is neither empty nor a dot name, and no
    directory holds a name twice. *)
Fixpoint distinct (names : list string) : bool :=
  match names with
  | [] => true
  | x :: rest => negb (existsb (String.eqb x) rest) && distinct rest
  end.

Definition entry_name (e : string) : bool :=
  fs.valid_name e && negb (filepath.has_slash e).

Fixpoint well_formed (n : fs.node) : bool :=
  match n with
  | fs.File _ => true
  | fs.Dir entries =>
      distinct (map fst entries) &&
      forallb (fun e => entry_name (fst e) && well_formed (snd e)) entries
  end.

(** How [list_files] writes the node [n] found under the names [r]
    below the directory listed: the names joined by slashes, with a slash
    behind a directory. *)
Definition listed (r : list string) (n : fs.node) : string :=
  Join r "/" +++ (if fs.is_dir n then "/" else "").

(** What lies below the node [n], itself reached by the names [r]: every
    entry, each directory followed by what it contains. *)
Fixpoint below (r : list string) (n : fs.node) : list string :=
  match n with
  | fs.File _ => []
  | fs.Dir entries =>
      flat_map (fun e => listed (r ++ [fst e]) (snd e) :: below (r ++ [fst e]) (snd e))
               entries
  end.

(** Whether the last byte of [s] is a slash. *)
Fixpoint ends_with_slash (s : string) : bool :=
  match s with
  | EmptyString => false
  | String c EmptyString => Ascii.eqb c filepath.Separator
  | String _ s' => ends_with_slash s'
  end.

(** The path under which [filepath.Walk], started at [d], visits the
    node reached from [d] by the names [r]. *)
Definition walk_path (d : string) (r : list string) : string :=
  match (fs.resolve d ++ r)%list with
  | [] => "."
  | names => Join names "/"
  end.

(** [append] for each of the strings, in order. *)
Definition extend (files : json.strings_slice) (more : list string)
  : json.strings_slice :=
  fold_left json.append more files.

(** Arguments that the decoder reads as a struct or rejects before it
    looks at the struct: a JSON object, [null], or bytes that are no JSON.
    Any other JSON value is a type error whose message names the struct
    type. *)
Definition struct_shaped (input : json.RawMessage) : bool :=
  match input with
  | json.Malformed _ => true
  | json.Encoded json.JNull => true
  | json.Encoded (json.JObject _) => true
  | json.Encoded _ => false
  end.

(** The model sends the arguments of every tool use as a JSON object (or
    [null], or bytes the decoder rejects as no JSON). *)
Definition sends_objects
  (client : list MessageParam -> list (string * string) -> result Message) : Prop :=
  forall conversation declared message,
    client conversation declared = Ok message ->
    forallb (fun u => struct_shaped (use_input u)) (tool_uses (Content message)) = true.

(** The computation [m] keeps the file [q]: where [q] was a regular file
    with content [c] before, it is one after. *)
Definition keeps (q c : string) {A : Type} (m : Go A) : Prop :=
  forall w v w', m w = Returns v w' -> file_at w q c -> file_at w' q c.

(** The computation [m] only looks: it returns, and the tree is then as
    it was. *)
Definition read_only {A : Type} (m : Go A) : Prop :=
  forall w, exists v w', m w = Returns v w' /\ disk w' = disk w.

(** Whether the loop was ended by a panic. *)
Definition crashed (s : agent.Step) : bool :=
  match s with
  | agent.Crash _ => true
  | _ => false
  end.

(** The state of the loop and the world in which a run stands, if it
    did not crash. *)
Definition state_of (s : agent.Step) : option (agent.Loop * World) :=
  match s with
  | agent.Continue l w | agent.Break l w | agent.Return _ l w => Some (l, w)
  | agent.Crash _ => None
  end.

(** The lines that the user has typed into a conversation: the texts of
    the user turns that consist of one text block, oldest first. *)
Fixpoint user_lines (conversation : list MessageParam) : list string :=
  match conversation with
  | [] => []
  | {| role := RoleUser; content := [TextBlock line] |} :: rest =>
      line :: user_lines rest
  | _ :: rest => user_lines rest
  end.

(* ================================================================== *)
(** * Part II. Facts about the model *)
(* ================================================================== *)

(** ** Byte strings *)

Section BytesFacts.

Lemma append_empty_r (s : string) : s +++ "" = s.
Proof. induction s; simpl; congruence. Qed.

Lemma append_assoc (a b c : string) : (a +++ b) +++ c = a +++ b +++ c.
Proof. induction a; simpl; congruence. Qed.

Lemma length_append (a b : string) :
  String.length (a +++ b) = String.length a + String.length b.
Proof. induction a; simpl; congruence. Qed.

Lemma append_inv_l (a b c : string) : a +++ b = a +++ c -> b = c.
Proof. induction a; simpl; intros H; [assumption | injection H; auto]. Qed.

Lemma append_same_length (a b c d : string) :
  String.length a = String.length c -> a +++ b = c +++ d -> a = c /\ b = d.
Proof.
  revert c; induction a as [|x a IH]; intros [|y c] Hl H; simpl in *;
    try discriminate; auto.
  injection H as -> H. injection Hl as Hl.
  destruct (IH c Hl H) as [-> ->]. auto.
Qed.

Lemma append_eq_empty (a b : string) : a +++ b = "" -> a = "" /\ b = "".
Proof. destruct a; simpl; [auto | discriminate]. Qed.

Lemma take_drop (n : nat) (s : string) : take n s +++ drop n s = s.
Proof.
  revert s; induction n as [|n IH]; intros [|a s]; simpl; auto.
  now rewrite IH.
Qed.

Lemma drop_drop (n m : nat) (s : string) : drop n (drop m s) = drop (m + n) s.
Proof.
  revert s; induction m as [|m IH]; intros s; simpl; auto.
  destruct s; simpl; auto. now destruct n.
Qed.

Lemma length_drop (n : nat) (s : string) :
  String.length (drop n s) = String.length s - n.
Proof.
  revert s; induction n as [|n IH]; intros [|a s]; simpl; auto.
Qed.

Lemma length_take (n : nat) (s : string) :
  n <= String.length s -> String.length (take n s) = n.
Proof.
  revert s; induction n as [|n IH]; intros [|a s]; simpl; intros; auto; try lia.
  rewrite IH; lia.
Qed.


Lemma drop_append (a b : string) : drop (String.length a) (a +++ b) = b.
Proof. induction a; simpl; auto. Qed.

Lemma drop_all (s : string) : drop (String.length s) s = "".
Proof. induction s; simpl; auto. Qed.

Lemma eqb_false_iff (a b : string) : (a == b) = false <-> a <> b.
Proof.
  destruct (String.eqb_spec a b); split; intros; congruence.
Qed.

Lemma eqb_refl' (a : string) : (a == a) = true.
Proof. apply String.eqb_refl. Qed.

Lemma Join_cons (x : string) (l : list string) (sep : string) :
  l <> [] -> Join (x :: l) sep = x +++ sep +++ Join l sep.
Proof. destruct l; [congruence | reflexivity]. Qed.

Lemma concat_all_app (l1 l2 : list string) :
  concat_all (l1 ++ l2) = concat_all l1 +++ concat_all l2.
Proof.
  induction l1 as [|x l1 IH]; simpl; [reflexivity|].
  now rewrite IH, append_assoc.
Qed.

End BytesFacts.

(** ** [strings.Index], [strings.Count], [strings.Replace] *)

Section StringsFacts.

Import strings.

Lemma HasPrefix_append (p r : string) : HasPrefix (p +++ r) p = true.
Proof.
  induction p as [|c p IH]; simpl; [reflexivity|].
  now rewrite Ascii.eqb_refl, IH.
Qed.

Lemma HasPrefix_inv (s p : string) :
  HasPrefix s p = true -> s = p +++ drop (String.length p) s.
Proof.
  revert s; induction p as [|c p IH]; intros s H; simpl in *; [reflexivity|].
  destruct s as [|a s]; [discriminate|].
  apply andb_prop in H as [Hc Hp].
  apply Ascii.eqb_eq in Hc. subst a.
  now rewrite <- (IH s Hp).
Qed.

Lemma Index_unfold (s substr : string) :
  Index s substr =
  if HasPrefix s substr then Some 0
  else match s with
       | EmptyString => None
       | String _ s' => option_map S (Index s' substr)
       end.
Proof. destruct s; reflexivity. Qed.

(** Where [Index] finds [substr], it is there: [s] is what comes before,
    [substr], and what comes behind. *)
Lemma Index_Some (s substr : string) (i : nat) :
  Index s substr = Some i ->
  s = take i s +++ substr +++ drop (i + String.length substr) s /\
  i + String.length substr <= String.length s.
Proof.
  revert i; induction s as [|a s IH]; intros i H; rewrite Index_unfold in H.
  - destruct (HasPrefix "" substr) eqn:Hp; [|discriminate].
    injection H as <-. destruct substr; [simpl; auto | discriminate].
  - destruct (HasPrefix (String a s) substr) eqn:Hp.
    + injection H as <-. cbn [take plus String.append].
      split; [now apply HasPrefix_inv|].
      apply HasPrefix_inv in Hp.
      apply (f_equal String.length) in Hp.
      rewrite length_append in Hp. lia.
    + destruct (Index s substr) as [j|] eqn:Hj; [|discriminate].
      injection H as <-.
      destruct (IH j eq_refl) as [Heq Hle].
      split; [|simpl; lia].
      cbn [take plus drop String.append]. now rewrite <- Heq.
Qed.

(** Before the place [Index] returns, [substr] does not begin. *)
Lemma Index_first (s substr : string) (i j : nat) :
  Index s substr = Some i -> j < i -> HasPrefix (drop j s) substr = false.
Proof.
  revert i j; induction s as [|a s IH]; intros i j H Hj; rewrite Index_unfold in H.
  - destruct (HasPrefix "" substr); [injection H as <-; lia | discriminate].
  - destruct (HasPrefix (String a s) substr) eqn:Hp; [injection H as <-; lia|].
    destruct (Index s substr) as [k|] eqn:Hk; [|discriminate].
    injection H as <-.
    destruct j as [|j]; [exact Hp|].
    simpl. apply (IH k); [reflexivity | lia].
Qed.

Lemma Index_None_empty (substr : string) :
  substr <> "" -> Index "" substr = None.
Proof. destruct substr; [congruence | reflexivity]. Qed.

Section NonEmptyOld.

Variables old new : string.
Hypothesis old_not_empty : old <> "".

Lemma old_length_pos : 1 <= String.length old.
Proof. destruct old; [congruence | simpl; lia]. Qed.

Lemma old_length_eqb : (String.length old =? 0) = false.
Proof. apply Nat.eqb_neq. pose proof old_length_pos. lia. Qed.

Lemma pieces_not_nil (fuel : nat) (s : string) : pieces fuel s old <> [].
Proof.
  destruct fuel; simpl; [discriminate|].
  destruct (Index s old); discriminate.
Qed.

(** The pieces joined by [old] are the string. *)
Lemma Join_pieces_old (fuel : nat) (s : string) :
  Join (pieces fuel s old) old = s.
Proof.
  revert s; induction fuel as [|f IH]; intros s; simpl; [reflexivity|].
  destruct (Index s old) as [i|] eqn:Hi; [|reflexivity].
  rewrite Join_cons by apply pieces_not_nil.
  rewrite IH. symmetry. now apply Index_Some.
Qed.

(** With fuel for the whole string, there is one piece more than
    [count_loop] counts instances. *)
Lemma length_pieces (fuel : nat) (s : string) :
  String.length s < fuel ->
  List.length (pieces fuel s old) = S (count_loop fuel s old).
Proof.
  revert s; induction fuel as [|f IH]; intros s Hf; [lia|]. simpl.
  destruct (Index s old) as [i|] eqn:Hi; [|reflexivity].
  simpl. f_equal. apply IH.
  rewrite length_drop. apply Index_Some in Hi as [_ Hle].
  pose proof old_length_pos. lia.
Qed.

(** The replacement loop, run as often as [count_loop] counts, writes
    the pieces with [new] between them. *)
Lemma replace_loop_pieces (fuel : nat) (s : string) (first : bool) :
  String.length s < fuel ->
  replace_loop (count_loop fuel s old) first s old new =
  Join (pieces fuel s old) new.
Proof.
  revert s first; induction fuel as [|f IH]; intros s first Hf; [lia|].
  simpl. destruct (Index s old) as [i|] eqn:Hi; [|reflexivity].
  cbn [replace_loop]. rewrite old_length_eqb, Hi.
  rewrite Join_cons by apply pieces_not_nil.
  rewrite IH; [reflexivity|].
  rewrite length_drop. apply Index_Some in Hi as [_ Hle].
  pose proof old_length_pos. lia.
Qed.

(** The lengths of the result and of the string differ by the lengths of
    the instances replaced. *)
Lemma length_Join_pieces (fuel : nat) (s : string) :
  String.length s < fuel ->
  String.length (Join (pieces fuel s old) new) + count_loop fuel s old * String.length old =
  String.length s + count_loop fuel s old * String.length new.
Proof.
  revert s; induction fuel as [|f IH]; intros s Hf; [lia|]. simpl.
  destruct (Index s old) as [i|] eqn:Hi; [|simpl; lia].
  rewrite Join_cons by apply pieces_not_nil.
  pose proof (Index_Some _ _ _ Hi) as [Heq Hle].
  assert (Hd : String.length (drop (i + String.length old) s) < f).
  { rewrite length_drop. pose proof old_length_pos. lia. }
  specialize (IH _ Hd).
  rewrite !length_append.
  apply (f_equal String.length) in Heq.
  rewrite !length_append, length_take in Heq by lia.
  rewrite length_take by lia. simpl. lia.
Qed.

Lemma count_loop_zero (fuel : nat) (s : string) :
  count_loop (S fuel) s old = 0 <-> Index s old = None.
Proof.
  simpl. destruct (Index s old); split; intros; congruence.
Qed.

End NonEmptyOld.

(** [Replace] with no limit, for a non-empty [old]: the pieces that
    [Split] cuts, with [new] in the place of [old]. *)
Theorem Replace_Split (s old new : string) :
  old <> "" -> Replace s old new None = Join (Split s old) new.
Proof.
  intros Hold. unfold Replace, Split, Count.
  destruct (String.eqb_spec old "") as [|_]; [contradiction|].
  destruct (String.eqb_spec old new) as [<-|Hne]; cbn [orb].
  - symmetry. now apply Join_pieces_old.
  - destruct (Nat.eqb_spec (count_loop (S (String.length s)) s old) 0) as [Hz|Hnz].
    + apply count_loop_zero in Hz. simpl. now rewrite Hz.
    + apply replace_loop_pieces; [assumption | lia].
Qed.

Theorem Split_Join (s old : string) : old <> "" -> Join (Split s old) old = s.
Proof. intros; now apply Join_pieces_old. Qed.

Theorem Split_length (s old : string) :
  old <> "" -> List.length (Split s old) = S (Count s old).
Proof.
  intros Hold. unfold Split, Count.
  destruct (String.eqb_spec old "") as [|_]; [contradiction|].
  apply length_pieces; [assumption | lia].
Qed.

(** Replacing a non-empty [old] by a different [new] changes the string
    exactly when [old] occurs in it. *)
Theorem Replace_fixed_iff (s old new : string) :
  old <> "" -> old <> new ->
  (Replace s old new None = s <-> Count s old = 0).
Proof.
  intros Hold Hne. rewrite Replace_Split by assumption.
  unfold Split, Count. destruct (String.eqb_spec old "") as [|_]; [contradiction|].
  split; intros H.
  - destruct (count_loop (S (String.length s)) s old) as [|c] eqn:Hc; [reflexivity|].
    exfalso.
    pose proof (length_Join_pieces old new Hold (S (String.length s)) s (Nat.lt_succ_diag_r _)) as Hlen.
    rewrite Hc, H in Hlen.
    assert (Hl : String.length old = String.length new) by nia.
    simpl in Hc, H. destruct (Index s old) as [i|] eqn:Hi; [|discriminate].
    rewrite Join_cons in H by now apply pieces_not_nil.
    pose proof (Index_Some _ _ _ Hi) as [Heq _].
    rewrite Heq in H at 4.
    apply append_inv_l in H.
    apply append_same_length in H as [H _]; congruence.
  - apply count_loop_zero in H. simpl. now rewrite H.
Qed.

(** Where [old] occurs, [Index] finds an instance. *)
Lemma Index_occurs (a old b : string) : Index (a +++ old +++ b) old <> None.
Proof.
  induction a as [|c a IH]; rewrite Index_unfold.
  - cbn [String.append]. now rewrite HasPrefix_append.
  - cbn [String.append].
    destruct (HasPrefix (String c (a +++ old +++ b)) old); [discriminate|].
    destruct (Index (a +++ old +++ b) old); [discriminate | congruence].
Qed.

(** [Count] is zero exactly when [old] is nowhere in the string. *)
Theorem Count_zero_iff_absent (s old : string) :
  old <> "" ->
  (Count s old = 0 <-> forall a b, s <> a +++ old +++ b).
Proof.
  intros Hold. unfold Count.
  destruct (String.eqb_spec old "") as [|_]; [contradiction|].
  rewrite count_loop_zero. split.
  - intros Hnone a b ->. now apply (Index_occurs a old b).
  - intros Habs. destruct (Index s old) as [i|] eqn:Hi; [|reflexivity].
    apply Index_Some in Hi as [Heq _]. now apply Habs in Heq.
Qed.

End StringsFacts.

(** ** Runes, and [strings.Replace] with an empty [old] *)

Section RunesFacts.

Import strings utf8.

Lemma first_size (b : nat) :
  0xF0 <= first b \/ first b mod 8 = 2 \/ first b mod 8 = 3 \/ first b mod 8 = 4.
Proof.
  unfold first.
  repeat match goal with
         | |- context [if ?c then _ else _] => destruct c
         end;
    first [ left; apply Nat.leb_le; vm_compute; reflexivity
          | right; left; vm_compute; reflexivity
          | right; right; left; vm_compute; reflexivity
          | right; right; right; vm_compute; reflexivity ].
Qed.

(** A rune of a non-empty string is at least one byte wide and no wider
    than the string. *)
Lemma DecodeRuneInString_bounds (s : string) :
  s <> "" -> 1 <= DecodeRuneInString s <= String.length s.
Proof.
  intros Hs.
  assert (Hn : 1 <= String.length s) by (destruct s; [congruence | simpl; lia]).
  unfold DecodeRuneInString.
  destruct (Nat.ltb_spec (String.length s) 1); [lia|].
  destruct (Nat.leb_spec 0xF0 (first (at_ s 0))) as [Hx|Hx]; [lia|].
  destruct (first_size (at_ s 0)) as [Hbig|Hsz]; [lia|].
  generalize dependent (first (at_ s 0) mod 8). intros sz Hsz.
  destruct (Nat.ltb_spec (String.length s) sz); [lia|].
  destruct (_ || _); [lia|].
  destruct (Nat.leb_spec sz 2); [lia|].
  destruct (_ || _); [lia|].
  destruct (Nat.leb_spec sz 3); [lia|].
  destruct (_ || _); lia.
Qed.

Lemma rune_width (a : ascii) (s : string) :
  1 <= DecodeRuneInString (String a s) <= S (String.length s).
Proof. apply (DecodeRuneInString_bounds (String a s)). discriminate. Qed.

(** The runes of a string, one after the other, are the string. *)
Lemma concat_runes_fuel (fuel : nat) (s : string) :
  String.length s <= fuel -> concat_all (runes_fuel fuel s) = s.
Proof.
  revert s; induction fuel as [|f IH]; intros s Hf.
  - destruct s; [reflexivity | simpl in Hf; lia].
  - destruct s as [|a s]; [reflexivity|].
    cbn [runes_fuel concat_all].
    pose proof (rune_width a s) as Hb.
    rewrite IH; [apply take_drop|].
    rewrite length_drop. cbn [String.length] in Hf |- *. lia.
Qed.

Theorem concat_runes (s : string) : concat_all (runes s) = s.
Proof. apply concat_runes_fuel. lia. Qed.

Lemma runes_fuel_not_empty (fuel : nat) (s : string) :
  Forall (fun r => r <> "") (runes_fuel fuel s).
Proof.
  revert s; induction fuel as [|f IH]; intros s; [constructor|].
  destruct s as [|a s]; [constructor|].
  cbn [runes_fuel]. constructor; [|apply IH].
  pose proof (rune_width a s) as Hb.
  intros Heq. apply (f_equal String.length) in Heq.
  rewrite length_take in Heq by (simpl; lia).
  change (String.length "") with 0 in Heq. lia.
Qed.

Theorem runes_not_empty (s : string) : Forall (fun r => r <> "") (runes s).
Proof. apply runes_fuel_not_empty. Qed.

Lemma runes_fuel_ascii (fuel : nat) (s : string) :
  String.length s <= fuel -> ascii_only s = true -> runes_fuel fuel s = bytes_of s.
Proof.
  revert s; induction fuel as [|f IH]; intros s Hf Ha.
  - destruct s; [reflexivity | simpl in Hf; lia].
  - destruct s as [|a s]; [reflexivity|].
    simpl in Ha. apply andb_prop in Ha as [Hlt Ha].
    cbn [runes_fuel bytes_of].
    assert (Hw : DecodeRuneInString (String a s) = 1).
    { unfold DecodeRuneInString, at_. cbn [String.length String.get].
      unfold first. rewrite Hlt. reflexivity. }
    rewrite Hw. cbn [take drop]. f_equal.
    apply IH; [simpl in Hf; lia | assumption].
Qed.

Theorem runes_ascii (s : string) : ascii_only s = true -> runes s = bytes_of s.
Proof. apply runes_fuel_ascii. lia. Qed.

(** The replacement loop for the empty [old], past its first round:
    every rune is written with [new] behind it. *)
Lemma replace_loop_empty (fuel : nat) (s new : string) :
  String.length s <= fuel ->
  replace_loop (List.length (runes_fuel fuel s)) false s "" new =
  concat_all (map (fun r => r +++ new) (runes_fuel fuel s)).
Proof.
  revert s; induction fuel as [|f IH]; intros s Hf.
  - destruct s; [reflexivity | simpl in Hf; lia].
  - destruct s as [|a s]; [reflexivity|].
    cbn [runes_fuel List.length map concat_all replace_loop String.length Nat.eqb].
    rewrite Nat.add_0_r, append_assoc. do 2 f_equal.
    apply IH.
    pose proof (rune_width a s) as Hb.
    rewrite length_drop. cbn [String.length] in Hf |- *. lia.
Qed.

(** [Replace] with the empty [old] and no limit writes [new] before
    every rune of the string and once behind the last. *)
Theorem Replace_empty_old (s new : string) :
  new <> "" ->
  Replace s "" new None = new +++ concat_all (map (fun r => r +++ new) (runes s)).
Proof.
  intros Hnew. unfold Replace, Count, RuneCountInString.
  destruct (String.eqb_spec "" new) as [|_]; [congruence|].
  cbn [orb String.eqb]. rewrite Nat.add_1_r. cbn [Nat.eqb].
  cbn [replace_loop String.length Nat.eqb take drop plus String.append].
  f_equal. apply replace_loop_empty. lia.
Qed.

End RunesFacts.

(** ** The file-system tree *)

Section TreeFacts.

Import fs.

Lemma find_replace_entry (name : string) (n m : node) (entries : list (string * node)) :
  find name entries = Some m -> find name (replace_entry name n entries) = Some n.
Proof.
  induction entries as [|[k x] rest IH]; simpl; [discriminate|].
  destruct (String.eqb_spec k name) as [->|Hk]; simpl.
  - now rewrite String.eqb_refl.
  - destruct (String.eqb_spec k name); [contradiction | exact IH].
Qed.

Lemma find_insert_entry (name : string) (n : node) (entries : list (string * node)) :
  find name entries = None -> find name (insert_entry name n entries) = Some n.
Proof.
  induction entries as [|[k x] rest IH]; simpl.
  - now rewrite String.eqb_refl.
  - destruct (String.eqb_spec k name) as [->|Hk]; [discriminate|].
    intros H. destruct (String.ltb name k); simpl.
    + now rewrite String.eqb_refl.
    + destruct (String.eqb_spec k name); [contradiction | auto].
Qed.

(** After [put], the name is bound to the node put. *)
Lemma find_put (name : string) (n : node) (entries : list (string * node)) :
  find name (put name n entries) = Some n.
Proof.
  unfold put. destruct (find name entries) eqn:H.
  - now apply find_replace_entry with (m := n0).
  - now apply find_insert_entry.
Qed.


(** Writing to a path that names a regular file succeeds and replaces
    the content of that file. *)
Lemma write_existing (data c : string) (names : list string) (n : node) :
  lookup names n = Done (File c) ->
  exists n', write names data n = Done n' /\
             lookup names n' = Done (File data) /\
             is_dir n' = is_dir n.
Proof.
  revert n; induction names as [|a rest IH]; intros n H.
  - simpl in H. injection H as ->. exists (File data). auto.
  - destruct n as [d|es]; [discriminate|]. simpl in H.
    destruct (find a es) as [child|] eqn:Hf; [|discriminate].
    destruct (IH child H) as (child' & Hw & Hl & _).
    exists (Dir (put a child' es)). simpl.
    rewrite Hf, Hw, find_put. auto.
Qed.





End TreeFacts.

(** ** Paths *)

Section PathFacts.

Import filepath fs.

Lemma elements_not_nil (p : string) : elements p <> [].
Proof.
  destruct p as [|c p]; simpl; [discriminate|].
  destruct (Ascii.eqb c Separator); [discriminate|].
  destruct (elements p); discriminate.
Qed.

Lemma elements_cons (c : ascii) (p : string) :
  Ascii.eqb c Separator = false ->
  exists e rest, elements p = e :: rest /\ elements (String c p) = String c e :: rest.
Proof.
  intros Hc. simpl. rewrite Hc.
  destruct (elements p) as [|e rest] eqn:He; [now apply elements_not_nil in He|].
  eauto.
Qed.

(** The elements of two paths joined by a slash. *)
Lemma elements_slash (a b : string) :
  elements (a +++ "/" +++ b) = elements a ++ elements b.
Proof.
  induction a as [|c a IH]; [reflexivity|].
  cbn [String.append elements] in *. rewrite IH.
  destruct (Ascii.eqb c Separator); [reflexivity|].
  destruct (elements a) as [|e rest] eqn:He; [now apply elements_not_nil in He|].
  reflexivity.
Qed.

Lemma elements_single (e : string) : has_slash e = false -> elements e = [e].
Proof.
  induction e as [|c e IH]; [reflexivity|]. simpl.
  destruct (Ascii.eqb c Separator); [discriminate|].
  intros H. now rewrite (IH H).
Qed.

Lemma elements_no_slash (p : string) :
  Forall (fun e => has_slash e = false) (elements p).
Proof.
  induction p as [|c p IH]; simpl; [repeat constructor|].
  destruct (Ascii.eqb c Separator) eqn:Hc; [constructor; auto|].
  destruct (elements p) as [|e rest]; [repeat constructor; simpl; now rewrite Hc|].
  inversion IH; subst. constructor; [simpl; now rewrite Hc | assumption].
Qed.

(** The elements of a path, joined by slashes, are the path. *)
Lemma Join_elements (p : string) : Join (elements p) "/" = p.
Proof.
  induction p as [|c p IH]; [reflexivity|]. simpl.
  destruct (Ascii.eqb_spec c Separator) as [->|Hc].
  - rewrite Join_cons by apply elements_not_nil. now rewrite IH.
  - destruct (elements p) as [|e rest] eqn:He; [now apply elements_not_nil in He|].
    destruct rest as [|e' rest]; simpl in *; congruence.
Qed.

(** Names without slashes, joined by slashes, are the elements of the
    path so built. *)
Lemma elements_Join (names : list string) :
  names <> [] -> Forall (fun e => has_slash e = false) names ->
  elements (Join names "/") = names.
Proof.
  induction names as [|x rest IH]; [congruence|]. intros _ H.
  inversion H as [|? ? Hx Hrest]; subst.
  destruct rest as [|y rest]; [now apply elements_single|].
  rewrite Join_cons by discriminate.
  rewrite elements_slash, elements_single by assumption.
  rewrite IH by (assumption || discriminate). reflexivity.
Qed.

Lemma Join_snoc (init : list string) (x : string) :
  init <> [] -> Join (init ++ [x]) "/" = Join init "/" +++ "/" +++ x.
Proof.
  induction init as [|a init IH]; [congruence|]. intros _.
  destruct init as [|b init]; [reflexivity|].
  change ((a :: b :: init) ++ [x]) with (a :: ((b :: init) ++ [x])).
  rewrite !Join_cons by (discriminate || now destruct init).
  rewrite IH by discriminate. now rewrite !append_assoc.
Qed.

Lemma valid_name_inv (e : string) :
  valid_name e = true -> e <> "" /\ e <> "." /\ e <> "..".
Proof.
  unfold valid_name. intros H.
  apply andb_prop in H as [H H3]. apply andb_prop in H as [H1 H2].
  rewrite negb_true_iff in H1, H2, H3.
  now rewrite !eqb_false_iff in *.
Qed.

(** A valid path walks through its elements, all of them. *)
Lemma resolve_valid (p : string) : valid_path p = true -> resolve p = elements p.
Proof.
  unfold valid_path, resolve. induction (elements p) as [|e l IH]; [reflexivity|].
  simpl. intros H. apply andb_prop in H as [He Hl].
  apply valid_name_inv in He as (H1 & H2 & _).
  apply eqb_false_iff in H1, H2. rewrite H1, H2. simpl. now rewrite IH.
Qed.

Lemma valid_path_not_empty (p : string) : valid_path p = true -> p <> "".
Proof. intros H ->. discriminate. Qed.

Lemma valid_path_not_rooted (p : string) :
  valid_path p = true -> strings.HasPrefix p "/" = false.
Proof.
  destruct p as [|c p]; [reflexivity|]. unfold valid_path. simpl.
  destruct (Ascii.eqb c Separator) eqn:Hc; [discriminate|].
  fold Separator. rewrite Hc. reflexivity.
Qed.

(** The loop of [Clean] over elements none of which is [..]: the names
    are kept, [.] and empty elements dropped. *)
Lemma clean_fold (rooted : bool) (l out : list string) (dotdot : nat) :
  Forall (fun e => e <> "..") l ->
  fold_left (clean_step rooted) l (out, dotdot) =
  (rev (filter (fun e => negb ((e == "") || (e == "."))) l) ++ out, dotdot).
Proof.
  revert out; induction l as [|e l IH]; intros out H; [reflexivity|].
  inversion H as [|? ? He Hl]; subst.
  cbn [fold_left filter]. unfold clean_step at 2.
  destruct ((e == "") || (e == ".")); cbn [negb].
  - now apply IH.
  - apply eqb_false_iff in He. rewrite He, IH by assumption.
    cbn [rev]. now rewrite <- app_assoc.
Qed.

(** [Clean] of an unrooted path without [..]. *)
Lemma Clean_plain (p : string) :
  p <> "" -> strings.HasPrefix p "/" = false ->
  Forall (fun e => e <> "..") (elements p) ->
  Clean p = if Join (resolve p) "/" == "" then "." else Join (resolve p) "/".
Proof.
  intros Hp Hr Hd. unfold Clean.
  apply eqb_false_iff in Hp. rewrite Hp, Hr, clean_fold by assumption.
  cbn [fst]. now rewrite app_nil_r, rev_involutive.
Qed.

Lemma valid_no_dotdot (l : list string) :
  forallb valid_name l = true -> Forall (fun e => e <> "..") l.
Proof.
  induction l as [|e l IH]; simpl; [constructor|].
  intros H. apply andb_prop in H as [He Hl].
  constructor; [now apply valid_name_inv in He | auto].
Qed.

(** [Clean] leaves a valid path as it is. *)
Lemma Clean_valid (p : string) : valid_path p = true -> Clean p = p.
Proof.
  intros Hv.
  rewrite Clean_plain;
    [| now apply valid_path_not_empty | now apply valid_path_not_rooted
     | now apply valid_no_dotdot].
  rewrite resolve_valid, Join_elements by assumption.
  destruct (String.eqb_spec p ""); [now apply valid_path_not_empty in Hv | reflexivity].
Qed.





End PathFacts.

(** ** The calls of package [os] *)

Section OsFacts.

Import fs.

Lemma stat_not_empty (p : string) (root : list (string * node)) (n : node) :
  stat p root = Done n -> p <> "".
Proof. intros H ->. discriminate. Qed.

Lemma stat_lookup (p : string) (root : list (string * node)) :
  p <> "" -> stat p root = lookup (resolve p) (Dir root).
Proof.
  intros Hp. unfold stat. apply eqb_false_iff in Hp. now rewrite Hp.
Qed.

(** [os.WriteFile] on a regular file: no error, and the file holds the
    data written. *)
Lemma WriteFile_existing (w : World) (p c data : string) :
  file_at w p c ->
  exists w', os.WriteFile p data w = Returns None w' /\
             file_at w' p data /\
             calls w' = calls w ++ [CallWriteFile p].
Proof.
  unfold file_at. intros H.
  pose proof (stat_not_empty _ _ _ H) as Hp.
  rewrite stat_lookup in H by assumption.
  destruct (write_existing data _ _ _ H) as (n' & Hw & Hl & Hd).
  destruct n' as [|root']; [discriminate|].
  exists {| disk := root'; calls := calls w ++ [CallWriteFile p] |}.
  unfold os.WriteFile, os.update.
  pose proof Hp as Hp'. apply eqb_false_iff in Hp'. rewrite Hp', Hw.
  repeat split. cbn [disk]. now rewrite stat_lookup.
Qed.


Lemma valid_path_Join (names : list string) :
  names <> [] -> forallb valid_name names = true ->
  Forall (fun e => filepath.has_slash e = false) names ->
  valid_path (Join names "/") = true /\ resolve (Join names "/") = names.
Proof.
  intros Hn Hv Hs.
  assert (H : valid_path (Join names "/") = true)
    by (unfold valid_path; now rewrite elements_Join).
  split; [assumption|]. now rewrite resolve_valid, elements_Join.
Qed.

Lemma update_done (c : Call) (f : node -> sys node) (failure : Errno -> error)
  (w : World) (root : list (string * node)) :
  f (Dir (disk w)) = Done (Dir root) ->
  os.update c f failure w = Returns None {| disk := root; calls := calls w ++ [c] |}.
Proof. intros H. unfold os.update. now rewrite H. Qed.

Lemma update_fail (c : Call) (f : node -> sys node) (failure : Errno -> error)
  (w : World) (e : Errno) :
  f (Dir (disk w)) = Fail e ->
  os.update c f failure w = Returns (Some (failure e)) (os.logged c w).
Proof. intros H. unfold os.update. now rewrite H. Qed.




Lemma endsWithDot_valid (p : string) : valid_path p = true -> endsWithDot p = false.
Proof.
  intros Hv. unfold endsWithDot.
  destruct (String.eqb_spec p ".") as [->|_]; [discriminate|]. cbn [orb].
  destruct (2 <=? String.length p); [|reflexivity]. cbn [andb].
  apply eqb_false_iff. intros E.
  pose proof (take_drop (String.length p - 2) p) as Hp. rewrite E in Hp.
  change "/." with ("/" +++ ".") in Hp.
  unfold valid_path in Hv. rewrite <- Hp, elements_slash, forallb_app in Hv.
  apply andb_prop in Hv as [_ Hv]. discriminate.
Qed.

End OsFacts.

(* ================================================================== *)
(** * Part III. The tools *)
(* ================================================================== *)

Section EditFileFacts.

Import json tools.

Variables (w : World) (input : RawMessage) (p old new : string).
Hypothesis decoded :
  Unmarshal input = ({| Path := p; OldStr := old; NewStr := new |}, None).

(** [EditFile] on a path where a regular file is: the content is read,
    the replacement made, and either nothing was replaced and [old] is not
    empty, or the new content is written. *)
Lemma EditFile_existing (C : string) :
  p <> "" -> old <> new -> file_at w p C ->
  EditFile input w =
  let newContent := strings.Replace C old new None in
  if (C == newContent) && negb (old == "") then
    Returns ("", Some NoMatch) (os.logged (CallReadFile p) w)
  else
    match os.WriteFile p newContent (os.logged (CallReadFile p) w) with
    | Returns (Some err) w' => Returns ("", Some err) w'
    | Returns None w' => Returns ("OK", None) w'
    | Panics v => Panics v
    end.
Proof.
  intros Hp Hne Hfile. unfold EditFile. rewrite decoded. cbn [Path OldStr NewStr].
  apply eqb_false_iff in Hp, Hne. rewrite Hp, Hne. cbn [orb].
  unfold bind, os.ReadFile. unfold file_at in Hfile. rewrite Hfile.
  cbv zeta.
  destruct ((C == strings.Replace C old new None) && negb (old == "")); [reflexivity|].
  destruct (os.WriteFile p _ _) as [[err|] w'|v]; reflexivity.
Qed.


End EditFileFacts.

Lemma file_at_logged (c : Call) (w : World) (p data : string) :
  file_at w p data -> file_at (os.logged c w) p data.
Proof. exact (fun H => H). Qed.


(** C1. On an existing file whose content [C] holds [k >= 1]
    non-overlapping instances of a non-empty [old_str] (with [old_str]
    different from [new_str] and a non-empty path), [edit_file] replaces all
    [k] of them — [C] is [k + 1] pieces with [old_str] between them, the
    file afterwards the same pieces with [new_str] between them —, writes
    the result back and succeeds with [OK]. With [k = 0] it fails with
    [NoMatch], having done nothing but read the file: the failure is decided
    by comparing the content after the substitution with the content before
    it, which are equal exactly when [k = 0], that is, when [old_str] is
    nowhere in [C]. *)
Theorem edit_file_replaces_every_occurrence
  (w : World) (input : json.RawMessage) (p old new C : string) :
  json.Unmarshal input =
    ({| tools.Path := p; tools.OldStr := old; tools.NewStr := new |}, None) ->
  p <> "" -> old <> "" -> old <> new ->
  file_at w p C ->
  let k := strings.Count C old in
  Join (strings.Split C old) old = C /\
  List.length (strings.Split C old) = k + 1 /\
  (1 <= k ->
   exists w',
     tools.EditFile input w = Returns ("OK", None) w' /\
     file_at w' p (Join (strings.Split C old) new) /\
     calls w' = calls w ++ [CallReadFile p; CallWriteFile p]) /\
  (k = 0 ->
   tools.EditFile input w =
     Returns ("", Some NoMatch) (os.logged (CallReadFile p) w)) /\
  (strings.Replace C old new None = C <-> k = 0) /\
  (k = 0 <-> forall a b, C <> a +++ old +++ b).
Proof.
  intros Hdec Hp Hold Hne Hfile k.
  pose proof (Replace_fixed_iff C old new Hold Hne) as Hfix. fold k in Hfix.
  split; [now apply Split_Join|].
  split; [rewrite Split_length by assumption; fold k; lia|].
  rewrite (EditFile_existing w input p old new Hdec C Hp Hne Hfile). cbv zeta.
  apply eqb_false_iff in Hold. rewrite Hold. cbn [negb]. rewrite andb_true_r.
  apply eqb_false_iff in Hold.
  repeat split.
  - intros Hk.
    destruct (String.eqb_spec C (strings.Replace C old new None)) as [E|_].
    { symmetry in E. apply Hfix in E. lia. }
    destruct (WriteFile_existing (os.logged (CallReadFile p) w) p C
                (strings.Replace C old new None))
      as (w' & Hw & Hf & Hc); [now apply file_at_logged|].
    exists w'. rewrite Hw. rewrite <- Replace_Split by assumption.
    repeat split; [assumption|].
    rewrite Hc. cbn [os.logged calls]. now rewrite <- app_assoc.
  - intros Hk. apply Hfix in Hk. rewrite Hk, String.eqb_refl. reflexivity.
  - apply Hfix.
  - apply Hfix.
  - now apply Count_zero_iff_absent.
  - now apply Count_zero_iff_absent.
Qed.

(** C9. On an existing file with content [C], [edit_file] with an empty
    [old_str] and a non-empty [new_str] does not fail: it succeeds with
    [OK] and overwrites the file with [new_str] written before every
    character (rune) of [C] and once behind the last. *)
Theorem edit_file_empty_old_str_rewrites_existing_file
  (w : World) (input : json.RawMessage) (p new C : string) :
  json.Unmarshal input =
    ({| tools.Path := p; tools.OldStr := ""; tools.NewStr := new |}, None) ->
  new <> "" ->
  file_at w p C ->
  exists w',
    tools.EditFile input w = Returns ("OK", None) w' /\
    file_at w' p (new +++ concat_all (map (fun r => r +++ new) (utf8.runes C))) /\
    concat_all (utf8.runes C) = C /\
    Forall (fun r => r <> "") (utf8.runes C) /\
    (utf8.ascii_only C = true -> utf8.runes C = utf8.bytes_of C).
Proof.
  intros Hdec Hnew Hfile.
  assert (Hne : "" <> new) by congruence.
  pose proof (stat_not_empty _ _ _ Hfile) as Hp.
  rewrite (EditFile_existing w input p "" new Hdec C Hp Hne Hfile). cbv zeta.
  cbn [String.eqb negb]. rewrite andb_false_r.
  destruct (WriteFile_existing (os.logged (CallReadFile p) w) p C
              (strings.Replace C "" new None))
    as (w' & Hw & Hf & Hc); [now apply file_at_logged|].
  exists w'. rewrite Hw. rewrite Replace_empty_old in Hf by assumption.
  repeat split; try assumption.
  - apply concat_runes.
  - apply runes_not_empty.
  - apply runes_ascii.
Qed.

(** C3. Whenever the path is empty or [old_str] equals [new_str] (both
    empty included), [edit_file] fails with [InvalidArguments], whatever
    the file system holds, and without a call to it: the world is returned
    as it was, the record of its calls included. *)
Theorem edit_file_rejects_invalid_arguments
  (input : json.RawMessage) (in_ : tools.EditFileInput) :
  json.Unmarshal input = (in_, None) ->
  tools.Path in_ = "" \/ tools.OldStr in_ = tools.NewStr in_ ->
  forall w : World,
    tools.EditFile input w = Returns ("", Some InvalidArguments) w.
Proof.
  intros Hdec Hbad w. unfold tools.EditFile. rewrite Hdec.
  assert (H : (tools.Path in_ == "") || (tools.OldStr in_ == tools.NewStr in_) = true).
  { destruct Hbad as [-> | ->]; [reflexivity|].
    rewrite String.eqb_refl. apply orb_true_r. }
  now rewrite H.
Qed.


Lemma edit_file_replaces_every_occurrence_witness :
  strings.Count "hello world hello" "hello" = 2 /\
  exists w',
    tools.EditFile (demo.edit_args "a.txt" "hello" "bye") demo.world =
      Returns ("OK", None) w' /\
    file_at w' "a.txt" "bye world bye".
Proof.
  split; [reflexivity|].
  destruct (edit_file_replaces_every_occurrence demo.world
              (demo.edit_args "a.txt" "hello" "bye")
              "a.txt" "hello" "bye" "hello world hello")
    as (_ & _ & H & _); try reflexivity; try discriminate.
  destruct H as (w' & Hrun & Hfile & _); [apply Nat.leb_le; reflexivity|].
  exists w'. split; [exact Hrun | exact Hfile].
Defined.

Lemma edit_file_empty_old_str_rewrites_existing_file_witness :
  exists w',
    tools.EditFile (demo.edit_args "d/f.txt" "" "ab") demo.world =
      Returns ("OK", None) w' /\
    file_at w' "d/f.txt" "abxab".
Proof.
  destruct (edit_file_empty_old_str_rewrites_existing_file demo.world
              (demo.edit_args "d/f.txt" "" "ab") "d/f.txt" "ab" "x")
    as (w' & Hrun & Hfile & _); try reflexivity; try discriminate.
  exists w'. split; [exact Hrun | exact Hfile].
Defined.

Lemma edit_file_rejects_invalid_arguments_witness :
  tools.EditFile (demo.edit_args "a.txt" "same" "same") demo.world =
    Returns ("", Some InvalidArguments) demo.world /\
  tools.EditFile (demo.edit_args "" "hello" "bye") demo.world =
    Returns ("", Some InvalidArguments) demo.world.
Proof.
  split.
  - apply (edit_file_rejects_invalid_arguments
             (demo.edit_args "a.txt" "same" "same")
             {| tools.Path := "a.txt"; tools.OldStr := "same"; tools.NewStr := "same" |});
      [reflexivity | right; reflexivity].
  - apply (edit_file_rejects_invalid_arguments
             (demo.edit_args "" "hello" "bye")
             {| tools.Path := ""; tools.OldStr := "hello"; tools.NewStr := "bye" |});
      [reflexivity | left; reflexivity].
Defined.



Section RemoveDirectoryFacts.

Import json tools.



End RemoveDirectoryFacts.




(* ================================================================== *)
(** * Part IV. The dispatcher and the conversation loop *)
(* ================================================================== *)

Section DispatchFacts.

Import agent.

Variable a : Agent.

Lemma find_tool_None (registry : list ToolDefinition) (name : string) :
  (forall tool, In tool registry -> Name tool <> name) ->
  find_tool registry name = None.
Proof.
  induction registry as [|t rest IH]; intros H; [reflexivity|]. simpl.
  destruct (String.eqb_spec (Name t) name) as [E|_].
  - exfalso. apply (H t); [now left | assumption].
  - apply IH. intros tool Hin. apply H. now right.
Qed.

Lemma find_tool_In (registry : list ToolDefinition) (name : string) (t : ToolDefinition) :
  find_tool registry name = Some t -> In t registry.
Proof.
  induction registry as [|t' rest IH]; simpl; [discriminate|].
  destruct (Name t' == name); [intros [= ->]; now left | auto].
Qed.

(** What [executeTool] returns is a tool result that bears the id of the
    tool use. *)
Lemma executeTool_result (id name : string) (input : json.RawMessage)
  (w w' : World) (b : ContentBlock) :
  executeTool a id name input w = Returns b w' ->
  exists out isError, b = ToolResultBlock id out isError.
Proof.
  unfold executeTool, bind, ret.
  destruct (find_tool (tools a) name) as [t|]; [|intros [= <- _]; eauto].
  destruct (Function t input w) as [[response [e|]] w1|v];
    [intros [= <- _] | intros [= <- _] | discriminate]; eauto.
Qed.

(** A handler that returns makes [executeTool] return. *)
Lemma executeTool_returns (id name : string) (input : json.RawMessage) (w : World) :
  never_panics (tools a) ->
  exists b w', executeTool a id name input w = Returns b w'.
Proof.
  intros Hnp. unfold executeTool, bind, ret.
  destruct (find_tool (tools a) name) as [t|] eqn:Hf; [|eauto].
  destruct (Hnp t input w (find_tool_In _ _ _ Hf)) as ([response [e|]] & w' & ->); eauto.
Qed.

(** The loop over the content of a response dispatches the tool uses of
    the response in their order, and nothing else. *)
Lemma range_Content_dispatch (blocks toolResults : list ContentBlock) (w : World) :
  range_Content a blocks toolResults w =
  match dispatch_in_order a (tool_uses blocks) w with
  | Returns results w' => Returns (toolResults ++ results) w'
  | Panics v => Panics v
  end.
Proof.
  revert toolResults w; induction blocks as [|b rest IH]; intros acc w.
  - simpl. unfold ret. now rewrite app_nil_r.
  - destruct b as [text|id name input|id out isError|ty];
      cbn [range_Content tool_uses]; try apply IH.
    cbn [dispatch_in_order use_id use_name use_input]. unfold bind at 1 2.
    destruct (executeTool a id name input w) as [r w1|v]; [|reflexivity].
    rewrite IH. unfold bind, ret.
    destruct (dispatch_in_order a (tool_uses rest) w1) as [rs w2|v]; [|reflexivity].
    now rewrite <- app_assoc.
Qed.

(** The results of a dispatch answer the tool uses, one each, in order. *)
Lemma dispatch_in_order_ids (uses : list ToolUse) (w w' : World)
  (results : list ContentBlock) :
  dispatch_in_order a uses w = Returns results w' ->
  tool_result_ids results = Some (map use_id uses).
Proof.
  revert w w' results; induction uses as [|u rest IH]; intros w w' results.
  - intros [= <- _]. reflexivity.
  - cbn [dispatch_in_order]. unfold bind, ret.
    destruct (executeTool a (use_id u) (use_name u) (use_input u) w)
      as [r w1|v] eqn:He; [|discriminate].
    destruct (dispatch_in_order a rest w1) as [rs w2|v] eqn:Hd; [|discriminate].
    intros [= <- _].
    destruct (executeTool_result _ _ _ _ _ _ He) as (out & isError & ->).
    cbn [tool_result_ids map]. now rewrite (IH _ _ _ Hd).
Qed.

Lemma tool_result_ids_length (results : list ContentBlock) (ids : list string) :
  tool_result_ids results = Some ids -> List.length results = List.length ids.
Proof.
  revert ids; induction results as [|b rest IH]; intros ids.
  - intros [= <-]. reflexivity.
  - destruct b; try discriminate. cbn [tool_result_ids].
    destruct (tool_result_ids rest) as [l|]; [|discriminate].
    intros [= <-]. simpl. now rewrite (IH l).
Qed.

Lemma dispatch_in_order_returns (uses : list ToolUse) (w : World) :
  never_panics (tools a) ->
  exists results w', dispatch_in_order a uses w = Returns results w'.
Proof.
  intros Hnp. revert w; induction uses as [|u rest IH]; intros w.
  - simpl. unfold ret. eauto.
  - cbn [dispatch_in_order]. unfold bind, ret.
    destruct (executeTool_returns (use_id u) (use_name u) (use_input u) w Hnp)
      as (b & w1 & ->).
    destruct (IH w1) as (rs & w2 & ->). eauto.
Qed.

(** [executeTool] panics only when the handler it runs does. *)
Lemma executeTool_panics (id name : string) (input : json.RawMessage) (w : World)
  (v : error) :
  executeTool a id name input w = Panics v ->
  exists tool, find_tool (tools a) name = Some tool /\
               Function tool input w = Panics v.
Proof.
  unfold executeTool, bind, ret.
  destruct (find_tool (tools a) name) as [t|]; [|discriminate].
  destruct (Function t input w) as [[response [e|]] w1|v'] eqn:Hf;
    [discriminate | discriminate |].
  intros [= <-]. now exists t.
Qed.

Lemma dispatch_in_order_panics (uses : list ToolUse) (w : World) (v : error) :
  dispatch_in_order a uses w = Panics v ->
  exists u tool w0,
    In u uses /\ find_tool (tools a) (use_name u) = Some tool /\
    Function tool (use_input u) w0 = Panics v.
Proof.
  revert w; induction uses as [|u rest IH]; intros w; [discriminate|].
  cbn [dispatch_in_order]. unfold bind, ret.
  destruct (executeTool a (use_id u) (use_name u) (use_input u) w)
    as [r w1|v'] eqn:He.
  - destruct (dispatch_in_order a rest w1) as [rs w2|v'] eqn:Hd; [discriminate|].
    intros [= <-]. destruct (IH _ Hd) as (u' & tool & w0 & Hin & Hfind & Hp).
    exists u', tool, w0. split; [now right | now split].
  - intros [= <-]. destruct (executeTool_panics _ _ _ _ _ He) as (tool & Hfind & Hp).
    exists u, tool, w. split; [now left | now split].
Qed.

End DispatchFacts.

(** C8. A tool name that the registry does not hold is answered by a
    tool result with [is_error = true] and the message [tool not found]:
    [executeTool] returns it in the world as it was, it does not panic, and
    the loop over the blocks of the response goes on with the next block;
    a response with nothing but that tool use ends the iteration with
    [Continue], the result appended to the conversation. *)
Theorem unknown_tool_yields_error_result
  (a : agent.Agent) (id name : string) (input : json.RawMessage) (w : World) :
  (forall tool, In tool (agent.tools a) -> Name tool <> name) ->
  agent.executeTool a id name input w =
    Returns (ToolResultBlock id "tool not found" true) w /\
  (forall rest toolResults,
      agent.range_Content a (ToolUseBlock id name input :: rest) toolResults w =
      agent.range_Content a rest
        (toolResults ++ [ToolResultBlock id "tool not found" true]) w) /\
  (forall l l1,
      agent.read_input a l = Some l1 ->
      agent.runInference a (agent.conversation l1) =
        Ok {| Content := [ToolUseBlock id name input] |} ->
      agent.Run_iteration a l w =
        agent.Continue
          {| agent.conversation :=
               agent.conversation l1 ++
               [ {| role := RoleAssistant; content := [ToolUseBlock id name input] |};
                 NewUserMessage [ToolResultBlock id "tool not found" true] ];
             agent.readUserInput := false;
             agent.stdin := agent.stdin l1 |} w).
Proof.
  intros Hnone.
  assert (Hexec : agent.executeTool a id name input w =
                  Returns (ToolResultBlock id "tool not found" true) w).
  { unfold agent.executeTool. now rewrite find_tool_None. }
  split; [exact Hexec|]. split.
  - intros rest acc. cbn [agent.range_Content]. unfold bind. now rewrite Hexec.
  - intros l l1 Hread Hinf. unfold agent.Run_iteration.
    rewrite Hread, Hinf. cbn [Content agent.range_Content]. unfold bind.
    rewrite Hexec. cbn. now rewrite <- app_assoc.
Qed.

Lemma unknown_tool_yields_error_result_witness :
  agent.executeTool demo.assistant "toolu_9" "delete_everything"
    (demo.object []) demo.world =
  Returns (ToolResultBlock "toolu_9" "tool not found" true) demo.world.
Proof.
  apply (unknown_tool_yields_error_result demo.assistant "toolu_9"
           "delete_everything" (demo.object []) demo.world).
  intros tool Hin. cbn in Hin.
  repeat (destruct Hin as [<- | Hin]; [discriminate|]). contradiction.
Defined.

Section Handlers.

Import json tools.

Lemma returns_ret {A : Type} (v : A) : returns (ret v).
Proof. intros w. unfold ret. eauto. Qed.

Lemma returns_bind {A B : Type} (m : Go A) (k : A -> Go B) :
  returns m -> (forall v, returns (k v)) -> returns (bind m k).
Proof.
  intros Hm Hk w. unfold bind.
  destruct (Hm w) as (v & w1 & ->). apply Hk.
Qed.

Lemma returns_update (c : Call) (f : fs.node -> fs.sys fs.node)
  (failure : Errno -> error) : returns (os.update c f failure).
Proof.
  intros w. unfold os.update.
  destruct (f (fs.Dir (disk w))) as [[d|root]|e]; eauto.
Qed.

Lemma returns_const {A : Type} (v : A) (f : World -> World) :
  returns (fun w => Returns v (f w)).
Proof. intros w. eauto. Qed.

(** Follows a handler through its binds and case distinctions down to
    the calls of package [os], none of which panics. *)
Ltac follow :=
  repeat first
    [ apply returns_ret
    | apply returns_update
    | apply returns_const
    | apply returns_bind; [|intros ?]
    | match goal with
      | |- returns (match ?x with _ => _ end) => destruct x
      end ].

Lemma returns_ReadFile (name : string) : returns (os.ReadFile name).
Proof. intros w. unfold os.ReadFile. eauto. Qed.

Lemma returns_WriteFile (name data : string) : returns (os.WriteFile name data).
Proof. unfold os.WriteFile. follow. Qed.

Lemma returns_MkdirAll (path : string) : returns (os.MkdirAll path).
Proof. unfold os.MkdirAll. follow. Qed.

Lemma returns_Remove (name : string) : returns (os.Remove name).
Proof. unfold os.Remove. follow. Qed.

Lemma returns_RemoveAll (path : string) : returns (os.RemoveAll path).
Proof. unfold os.RemoveAll. follow. Qed.

Lemma returns_Rename (oldpath newpath : string) : returns (os.Rename oldpath newpath).
Proof. unfold os.Rename. follow. Qed.

Lemma returns_Walk {S : Type} (root : string) (fn : Walk.WalkFunc S) (st : S) :
  returns (Walk.Walk root fn st).
Proof. intros w. unfold Walk.Walk. eauto. Qed.

Ltac handler :=
  repeat first
    [ apply returns_ReadFile | apply returns_WriteFile | apply returns_MkdirAll
    | apply returns_Remove | apply returns_RemoveAll | apply returns_Rename
    | apply returns_Walk | progress follow ].

Lemma ReadFile_returns (input : RawMessage) : returns (ReadFile input).
Proof. unfold ReadFile. handler. Qed.

Lemma ListFiles_returns (input : RawMessage) : returns (ListFiles input).
Proof. unfold ListFiles. handler. Qed.

Lemma createNewFile_returns (filePath content : string) :
  returns (createNewFile filePath content).
Proof. unfold createNewFile. handler. Qed.

Lemma EditFile_returns (input : RawMessage) : returns (EditFile input).
Proof. unfold EditFile. handler. Qed.

Lemma MakeDirectory_returns (input : RawMessage) : returns (MakeDirectory input).
Proof. unfold MakeDirectory. handler. Qed.

Lemma RemoveDirectory_returns (input : RawMessage) : returns (RemoveDirectory input).
Proof. unfold RemoveDirectory. handler. Qed.

Lemma RenameDirectory_returns (input : RawMessage) : returns (RenameDirectory input).
Proof. unfold RenameDirectory. handler. Qed.

(** No handler of package [tools] panics. *)
Lemma toolsList_never_panics : never_panics toolsList.
Proof.
  intros tool input w Hin. revert w. change (returns (Function tool input)).
  cbn in Hin.
  repeat (destruct Hin as [<- | Hin];
          [first [ apply ReadFile_returns | apply ListFiles_returns
                 | apply EditFile_returns | apply MakeDirectory_returns
                 | apply RemoveDirectory_returns | apply RenameDirectory_returns ]|]).
  contradiction.
Qed.

End Handlers.

(** C4, on the registry of [main.go]. Arguments that do not decode make
    [read_file] and [list_files] panic: no tool result is produced and the
    iteration of the loop ends in a crash of the process — for bytes that are
    no JSON as well as for a value of the wrong type. [edit_file], in the
    same file, returns the error of the decoder, which the dispatcher
    reports as a tool result with [is_error = true]. *)
Theorem main_read_file_panics_on_undecodable_arguments
  (client : list MessageParam -> list (string * string) -> result Message)
  (getUserMessage : list string -> (string * bool) * list string)
  (id msg : string) (w : World) :
  let a := agent.NewAgent client getUserMessage main.tools in
  agent.executeTool a id "read_file" (json.Malformed msg) w =
    Panics (SyntaxError msg) /\
  agent.executeTool a id "list_files" (json.Malformed msg) w =
    Panics (SyntaxError msg) /\
  agent.executeTool a id "read_file"
    (json.Encoded (json.JObject [("path", json.JNumber "5")])) w =
    Panics (UnmarshalTypeError "number" "ReadFileInput" "path" "string") /\
  agent.executeTool a id "edit_file" (json.Malformed msg) w =
    Returns (ToolResultBlock id msg true) w /\
  (forall l l1,
      agent.read_input a l = Some l1 ->
      agent.runInference a (agent.conversation l1) =
        Ok {| Content := [ToolUseBlock id "read_file" (json.Malformed msg)] |} ->
      agent.Run_iteration a l w = agent.Crash (SyntaxError msg)).
Proof.
  cbv zeta. repeat split; try reflexivity.
  intros l l1 Hread Hinf. unfold agent.Run_iteration.
  rewrite Hread, Hinf. reflexivity.
Qed.

(** C4, on the registry of package [tools]: arguments that do not decode
    against the input struct of the tool yield a tool result with
    [is_error = true] that carries the message of the decoder's error; the
    file system is not touched. *)
Theorem tools_report_undecodable_arguments
  (client : list MessageParam -> list (string * string) -> result Message)
  (getUserMessage : list string -> (string * bool) * list string)
  (tool : ToolDefinition) (id : string) (input : json.RawMessage)
  (e : error) (w : World) :
  In tool tools.toolsList ->
  decode_error (Name tool) input = Some e ->
  agent.executeTool (agent.NewAgent client getUserMessage tools.toolsList)
    id (Name tool) input w =
  Returns (ToolResultBlock id (Error e) true) w.
Proof.
  intros Hin Hdec. cbn in Hin.
  repeat (destruct Hin as [<- | Hin];
          [ unfold agent.executeTool; cbn [agent.tools agent.NewAgent];
            cbn in Hdec |- *;
            try unfold tools.ReadFile; try unfold tools.ListFiles;
            try unfold tools.EditFile; try unfold tools.MakeDirectory;
            try unfold tools.RemoveDirectory; try unfold tools.RenameDirectory;
            unfold bind, ret;
            match type of Hdec with
            | snd ?u = _ => destruct u as [in_ err]
            end;
            cbn in Hdec; subst err; reflexivity |]).
  contradiction.
Qed.

Lemma tools_report_undecodable_arguments_witness :
  agent.executeTool demo.assistant "toolu_3" "read_file"
    (json.Malformed "unexpected end of JSON input") demo.world =
  Returns (ToolResultBlock "toolu_3" "unexpected end of JSON input" true) demo.world.
Proof.
  apply (tools_report_undecodable_arguments demo.scripted main.getUserMessage
           tools.ReadFileDefinition "toolu_3"
           (json.Malformed "unexpected end of JSON input")
           (SyntaxError "unexpected end of JSON input") demo.world);
    [left; reflexivity | reflexivity].
Defined.

Section LoopFacts.

Import agent.

Variable a : Agent.

Lemma paired_app (c c' : list MessageParam) :
  paired c -> paired c' -> paired (c ++ c').
Proof.
  induction c as [|m rest IH]; intros Hc Hc'; [exact Hc'|].
  destruct Hc as [Hm Hrest]. cbn [app paired]. split; [|now apply IH].
  intros Hrole Huses. specialize (Hm Hrole Huses).
  destruct rest as [|next rest]; [contradiction | exact Hm].
Qed.

Lemma paired_user (blocks : list ContentBlock) : paired [NewUserMessage blocks].
Proof. cbn. split; [discriminate | exact I]. Qed.

Lemma read_input_paired (l l1 : Loop) :
  read_input a l = Some l1 -> paired (conversation l) -> paired (conversation l1).
Proof.
  unfold read_input. destruct (readUserInput l); [|now intros [= <-]].
  destruct (getUserMessage a (stdin l)) as [[userInput [|]] rest]; [|discriminate].
  intros [= <-] H. cbn [conversation]. apply paired_app; [exact H | apply paired_user].
Qed.

(** An iteration keeps the conversation paired, however it ends. *)
Lemma Run_iteration_paired (l : Loop) (w : World) :
  paired (conversation l) ->
  match Run_iteration a l w with
  | Continue l' _ | Break l' _ | Return _ l' _ => paired (conversation l')
  | Crash _ => True
  end.
Proof.
  intros Hl. unfold Run_iteration.
  destruct (read_input a l) as [l1|] eqn:Hread; [|exact Hl].
  pose proof (read_input_paired _ _ Hread Hl) as Hl1.
  destruct (runInference a (conversation l1)) as [message|err]; [|exact Hl1].
  rewrite range_Content_dispatch.
  destruct (dispatch_in_order a (tool_uses (Content message)) w)
    as [results w'|v] eqn:Hd; [|exact I].
  pose proof (dispatch_in_order_ids _ _ _ _ _ Hd) as Hids.
  pose proof (tool_result_ids_length _ _ Hids) as Hlen.
  rewrite length_map in Hlen. cbn [app].
  destruct (Nat.eqb_spec (List.length results) 0) as [Hz|Hnz]; cbn [conversation].
  - apply paired_app; [exact Hl1|]. cbn. split; [|exact I].
    intros _ Huses. destruct (tool_uses (Content message)); [congruence | simpl in Hlen; lia].
  - rewrite <- app_assoc. apply paired_app; [exact Hl1|].
    cbn [app paired]. split; [|apply paired_user].
    intros _ _. split; [reflexivity | exact Hids].
Qed.

Lemma Run_from_paired (n : nat) (l : Loop) (w : World) :
  paired (conversation l) ->
  match Run_from n a l w with
  | Continue l' _ | Break l' _ | Return _ l' _ => paired (conversation l')
  | Crash _ => True
  end.
Proof.
  revert l w; induction n as [|n IH]; intros l w Hl; [exact Hl|].
  cbn [Run_from].
  pose proof (Run_iteration_paired l w Hl) as Hstep.
  destruct (Run_iteration a l w) as [l' w'|l' w'|err l' w'|v];
    [now apply IH | exact Hstep | exact Hstep | exact I].
Qed.

End LoopFacts.

(** C5. When the response of the model holds tool uses, the iteration
    dispatches them one after the other in the order of emission, each in
    the world the one before has left. When every handler returns, it
    appends the response and then one user turn with all the results — one
    per tool use, under its id — and goes on with [readUserInput] unset: the
    next iteration reads no line of input before it asks the model again;
    when the response holds no tool use, the response is appended and the
    loop goes back to reading input. When a handler panics — as [ReadFile]
    and [ListFiles] of [main.go] do on arguments that do not decode —, the
    iteration is a crash: the tool uses behind it are not dispatched, no
    result is collected and nothing is sent back to the model. *)
Theorem tool_uses_dispatched_in_order_then_resubmitted
  (a : agent.Agent) (l l1 : agent.Loop) (w : World) (message : Message) :
  agent.read_input a l = Some l1 ->
  agent.runInference a (agent.conversation l1) = Ok message ->
  match dispatch_in_order a (tool_uses (Content message)) w with
  | Returns results w' =>
      tool_result_ids results = Some (map use_id (tool_uses (Content message))) /\
      (tool_uses (Content message) <> [] ->
       let l' :=
         {| agent.conversation :=
              agent.conversation l1 ++ [ToParam message; NewUserMessage results];
            agent.readUserInput := false;
            agent.stdin := agent.stdin l1 |} in
       agent.Run_iteration a l w = agent.Continue l' w' /\
       agent.read_input a l' = Some l') /\
      (tool_uses (Content message) = [] ->
       agent.Run_iteration a l w =
         agent.Continue
           {| agent.conversation := agent.conversation l1 ++ [ToParam message];
              agent.readUserInput := true;
              agent.stdin := agent.stdin l1 |} w)
  | Panics v =>
      agent.Run_iteration a l w = agent.Crash v /\
      exists u tool w0,
        In u (tool_uses (Content message)) /\
        agent.find_tool (agent.tools a) (use_name u) = Some tool /\
        Function tool (use_input u) w0 = Panics v
  end.
Proof.
  intros Hread Hinf.
  destruct (dispatch_in_order a (tool_uses (Content message)) w)
    as [results w'|v] eqn:Hd.
  - pose proof (dispatch_in_order_ids _ _ _ _ _ Hd) as Hids.
    pose proof (tool_result_ids_length _ _ Hids) as Hlen.
    rewrite length_map in Hlen.
    split; [exact Hids|].
    unfold agent.Run_iteration.
    rewrite Hread, Hinf, range_Content_dispatch, Hd. cbn [app].
    split.
    + intros Huses. cbv zeta. split; [|reflexivity].
      destruct (Nat.eqb_spec (List.length results) 0) as [Hz|_].
      * destruct (tool_uses (Content message)); [congruence | simpl in Hlen; lia].
      * now rewrite <- app_assoc.
    + intros Huses. rewrite Huses in Hd, Hlen. injection Hd as <- <-. reflexivity.
  - split; [|now apply (dispatch_in_order_panics a _ w)].
    unfold agent.Run_iteration.
    now rewrite Hread, Hinf, range_Content_dispatch, Hd.
Qed.

Lemma tool_uses_dispatched_in_order_then_resubmitted_witness :
  (exists w',
     agent.Run_iteration demo.assistant
       {| agent.conversation := []; agent.readUserInput := true;
          agent.stdin := ["please create x/a.txt"] |} demo.world =
     agent.Continue
       {| agent.conversation :=
            [ NewUserMessage [TextBlock "please create x/a.txt"];
              {| role := RoleAssistant;
                 content :=
                   [ TextBlock "I will set it up.";
                     ToolUseBlock "toolu_1" "make_directory" (demo.object [("path", "x")]);
                     ToolUseBlock "toolu_2" "edit_file" (demo.edit_args "x/a.txt" "" "hi") ] |};
              NewUserMessage
                [ ToolResultBlock "toolu_1" "Successfully created directory x" false;
                  ToolResultBlock "toolu_2" "Successfully created file x/a.txt" false ] ];
          agent.readUserInput := false;
          agent.stdin := [] |} w' /\
     file_at w' "x/a.txt" "hi") /\
  agent.Run_iteration demo.first_generation
    {| agent.conversation := []; agent.readUserInput := true;
       agent.stdin := ["what is in 5?"] |} demo.world =
  agent.Crash (UnmarshalTypeError "number" "ReadFileInput" "path" "string").
Proof.
  split.
  - pose proof (tool_uses_dispatched_in_order_then_resubmitted demo.assistant
                  {| agent.conversation := []; agent.readUserInput := true;
                     agent.stdin := ["please create x/a.txt"] |}
                  {| agent.conversation :=
                       [NewUserMessage [TextBlock "please create x/a.txt"]];
                     agent.readUserInput := true; agent.stdin := [] |}
                  demo.world
                  {| Content :=
                       [ TextBlock "I will set it up.";
                         ToolUseBlock "toolu_1" "make_directory"
                                      (demo.object [("path", "x")]);
                         ToolUseBlock "toolu_2" "edit_file"
                                      (demo.edit_args "x/a.txt" "" "hi") ] |}
                  eq_refl eq_refl) as H.
    destruct (dispatch_in_order demo.assistant _ demo.world) as [results w'|v] eqn:Hd;
      [|vm_compute in Hd; discriminate].
    vm_compute in Hd. injection Hd as <- <-.
    destruct H as (_ & Hsome & _).
    eexists. split; [apply Hsome; discriminate | reflexivity].
  - exact (proj1 (tool_uses_dispatched_in_order_then_resubmitted demo.first_generation
                    {| agent.conversation := []; agent.readUserInput := true;
                       agent.stdin := ["what is in 5?"] |}
                    {| agent.conversation := [NewUserMessage [TextBlock "what is in 5?"]];
                       agent.readUserInput := true; agent.stdin := [] |}
                    demo.world
                    {| Content :=
                         [ ToolUseBlock "toolu_1" "read_file"
                             (json.Encoded (json.JObject [("path", json.JNumber "5")])) ] |}
                    eq_refl eq_refl)).
Defined.

(** C6. In every conversation that a run of the loop reaches — at the
    head of an iteration, or when the loop is left at the end of input or
    with an error of the model API — every assistant turn that holds tool
    uses is followed at once by a user turn made of tool results only, one
    for each tool use, under the same ids in the same order. No user input
    is accepted in between, and no tool use is left unanswered. *)
Theorem no_tool_use_is_left_dangling
  (a : agent.Agent) (n : nat) (input : list string) (w : World) :
  match agent.Run n a input w with
  | agent.Continue l _ | agent.Break l _ | agent.Return _ l _ =>
      paired (agent.conversation l)
  | agent.Crash _ => True
  end.
Proof.
  unfold agent.Run. apply Run_from_paired. exact I.
Qed.

(** The run of the specification's example: two tool uses in one turn
    are both executed, in order, before the model is asked again, and the
    turn that follows holds exactly two tool results, under their ids. *)
Example two_tool_uses_two_results :
  exists l w',
    agent.Run 3 demo.assistant ["please create x/a.txt"] demo.world = agent.Break l w' /\
    map content (agent.conversation l) =
      [ [TextBlock "please create x/a.txt"];
        [ TextBlock "I will set it up.";
          ToolUseBlock "toolu_1" "make_directory" (demo.object [("path", "x")]);
          ToolUseBlock "toolu_2" "edit_file" (demo.edit_args "x/a.txt" "" "hi") ];
        [ ToolResultBlock "toolu_1" "Successfully created directory x" false;
          ToolResultBlock "toolu_2" "Successfully created file x/a.txt" false ];
        [ TextBlock "Done." ] ] /\
    calls w' = [CallMkdirAll "x"; CallReadFile "x/a.txt"; CallMkdirAll "x";
                CallWriteFile "x/a.txt"] /\
    file_at w' "x/a.txt" "hi".
Proof. do 2 eexists. repeat split. Qed.

(* ================================================================== *)
(** * Part V. Listing files *)
(* ================================================================== *)

Section ListFilesFacts.

Import json tools.

Lemma Rel_same (d : string) : filepath.Rel d d = Ok ".".
Proof. unfold filepath.Rel. now rewrite String.eqb_refl. Qed.

(** [ListFiles] on arguments that decode to the path [d]: the directory
    walked is [d], or the dot when [d] is empty. *)
Lemma ListFiles_run (w : World) (input : RawMessage) (d : string) :
  Unmarshal input = ({| ListFilesInput_Path := d |}, None) ->
  let dir := if negb (d == "") then d else "." in
  ListFiles input w =
  match
    match fs.stat dir (disk w) with
    | fs.Fail e => ListFiles_func dir dir None (Some (PathError "lstat" dir e)) None
    | fs.Done n => Walk.walk (ListFiles_func dir) dir n None
    end
  with
  | (_, Some e) => Returns ("", Some e) (os.logged (CallWalk dir) w)
  | (files, None) =>
      match Marshal files with
      | Err e => Returns ("", Some e) (os.logged (CallWalk dir) w)
      | Ok result => Returns (result, None) (os.logged (CallWalk dir) w)
      end
  end.
Proof.
  intros Hdec dir. unfold ListFiles. rewrite Hdec. cbn [ListFilesInput_Path].
  fold dir. unfold bind, Walk.Walk.
  destruct (match fs.stat dir (disk w) with fs.Done _ => _ | fs.Fail _ => _ end)
    as [files [e|]]; [reflexivity|].
  destruct (Marshal files); reflexivity.
Qed.

Lemma ListFiles_dir (d : string) :
  d <> "" -> (if negb (d == "") then d else ".") = d.
Proof. intros Hd. apply eqb_false_iff in Hd. now rewrite Hd. Qed.

End ListFilesFacts.

Section RelFacts.

Import filepath fs.

Lemma entry_name_inv (e : string) :
  entry_name e = true -> valid_name e = true /\ has_slash e = false.
Proof.
  unfold entry_name. intros H. apply andb_prop in H as [H1 H2].
  now rewrite negb_true_iff in H2.
Qed.

Lemma entry_names_inv (r : list string) :
  forallb entry_name r = true ->
  forallb valid_name r = true /\ Forall (fun e => has_slash e = false) r.
Proof.
  induction r as [|x r IH]; simpl; [auto|].
  intros H. apply andb_prop in H as [Hx Hr].
  apply entry_name_inv in Hx as [Hv Hs]. destruct (IH Hr) as [Hvr Hsr].
  rewrite Hv, Hvr. auto.
Qed.

Lemma front_no_slash (x : string) : has_slash x = false -> front x = (x, "").
Proof.
  induction x as [|c x IH]; [reflexivity|]. simpl.
  destruct (Ascii.eqb c Separator); [discriminate|].
  intros H. now rewrite (IH H).
Qed.

Lemma front_slash (x rest : string) :
  has_slash x = false -> front (x +++ "/" +++ rest) = (x, "/" +++ rest).
Proof.
  intros Hx. induction x as [|c x IH]; [reflexivity|].
  simpl in Hx |- *. destruct (Ascii.eqb c Separator); [discriminate|].
  simpl in IH. now rewrite (IH Hx).
Qed.

Lemma Join_not_empty (x : string) (l : list string) :
  x <> "" -> Join (x :: l) "/" <> "".
Proof.
  intros Hx. destruct l as [|y l]; [exact Hx|].
  rewrite Join_cons by discriminate. destruct x; [congruence | discriminate].
Qed.

(** The loop of [Rel] walks over the whole base when the target lies
    below it, and leaves what the target has more. *)
Lemma rel_loop_below (bn r : list string) (fuel : nat) :
  forallb entry_name bn = true -> r <> [] ->
  List.length bn <= fuel ->
  rel_loop fuel (Join bn "/") (Join (bn ++ r) "/") = ("", "", Join r "/").
Proof.
  revert fuel; induction bn as [|x bn IH]; intros fuel Hbn Hr Hfuel.
  - destruct fuel; reflexivity.
  - destruct fuel as [|f]; [simpl in Hfuel; lia|].
    simpl in Hbn. apply andb_prop in Hbn as [Hx Hbn].
    apply entry_name_inv in Hx as [Hv Hs].
    apply valid_name_inv in Hv as (Hne & _ & _).
    cbn [rel_loop].
    pose proof (Join_not_empty x bn Hne) as Hb.
    pose proof (Join_not_empty x (bn ++ r) Hne) as Ht.
    apply eqb_false_iff in Hb, Ht.
    change ((x :: bn) ++ r) with (x :: (bn ++ r)). rewrite Hb, Ht. cbn [orb].
    assert (Hbr : bn ++ r <> []) by (destruct bn; [exact Hr | discriminate]).
    rewrite (Join_cons x (bn ++ r)) by assumption.
    rewrite front_slash by assumption.
    destruct bn as [|y bn].
    + cbn [Join]. rewrite front_no_slash by assumption.
      rewrite String.eqb_refl. cbn [negb skip_separator String.append].
      destruct f; reflexivity.
    + rewrite (Join_cons x (y :: bn)) by discriminate.
      rewrite front_slash by assumption.
      rewrite String.eqb_refl. cbn [negb skip_separator String.append].
      apply IH; [assumption | assumption | simpl in Hfuel |- *; lia].
Qed.

Lemma length_elements (p : string) :
  List.length (elements p) <= S (String.length p).
Proof.
  induction p as [|c p IH]; [simpl; lia|]. simpl.
  destruct (Ascii.eqb c Separator); [simpl; lia|].
  destruct (elements p); simpl in *; lia.
Qed.

End RelFacts.

Section WalkFacts.

Import filepath fs.

Variable d : string.
Hypothesis d_ok : d = "." \/ valid_path d = true.

Lemma base_names : forallb entry_name (resolve d) = true.
Proof.
  destruct d_ok as [-> | Hv]; [reflexivity|].
  rewrite resolve_valid by assumption.
  unfold valid_path in Hv. pose proof (elements_no_slash d) as Hs.
  revert Hv Hs. generalize (elements d) as l.
  induction l as [|x l IH]; intros Hv Hs; [reflexivity|].
  simpl in Hv |- *. apply andb_prop in Hv as [Hx Hl].
  inversion Hs as [|? ? Hsx Hsl]; subst.
  unfold entry_name at 1. rewrite Hx, Hsx, (IH Hl Hsl). reflexivity.
Qed.

Lemma walk_path_nil : walk_path d [] = d.
Proof.
  unfold walk_path. rewrite app_nil_r.
  destruct d_ok as [-> | Hv]; [reflexivity|].
  rewrite resolve_valid by assumption.
  pose proof (Join_elements d) as Hj.
  destruct (elements d) eqn:He; [now apply elements_not_nil in He | exact Hj].
Qed.

Lemma forallb_entry_name_app (l1 l2 : list string) :
  forallb entry_name l1 = true -> forallb entry_name l2 = true ->
  forallb entry_name (l1 ++ l2) = true.
Proof. intros H1 H2. now rewrite forallb_app, H1, H2. Qed.

(** The paths of the walk are valid paths, or the dot. *)
Lemma walk_path_valid (r : list string) :
  forallb entry_name r = true -> resolve d ++ r <> [] ->
  valid_path (walk_path d r) = true /\ resolve (walk_path d r) = resolve d ++ r.
Proof.
  intros Hr Hne. unfold walk_path.
  pose proof (forallb_entry_name_app _ _ base_names Hr) as Hall.
  apply entry_names_inv in Hall as [Hv Hs].
  destruct (resolve d ++ r) as [|x l] eqn:E; [congruence|].
  now apply valid_path_Join.
Qed.

Lemma Clean_walk_path (r : list string) :
  forallb entry_name r = true -> Clean (walk_path d r) = walk_path d r.
Proof.
  intros Hr. destruct (resolve d ++ r) as [|x l] eqn:E.
  - unfold walk_path. rewrite E. reflexivity.
  - apply Clean_valid, walk_path_valid; [assumption|]. rewrite E. discriminate.
Qed.

Lemma Clean_dot_slash (name : string) :
  entry_name name = true -> Clean ("./" +++ name) = name.
Proof.
  intros Hn. apply entry_name_inv in Hn as [Hv Hs].
  pose proof (valid_name_inv _ Hv) as (H1 & H2 & H3).
  assert (He : elements ("./" +++ name) = ["."; name]).
  { change ("./" +++ name) with ("." +++ "/" +++ name).
    rewrite elements_slash, (elements_single name Hs). reflexivity. }
  rewrite Clean_plain; [| discriminate | reflexivity | ].
  - unfold resolve. rewrite He.
    apply eqb_false_iff in H1, H2.
    cbn [filter String.eqb Ascii.eqb Bool.eqb orb negb]. rewrite H1, H2.
    cbn [orb negb Join]. now rewrite H1.
  - rewrite He. repeat constructor; [discriminate | exact H3].
Qed.

Lemma Join2_walk_path (r : list string) (name : string) :
  forallb entry_name r = true -> entry_name name = true ->
  Join2 (walk_path d r) name = walk_path d (r ++ [name]).
Proof.
  intros Hr Hn.
  assert (Hrn : forallb entry_name (r ++ [name]) = true).
  { apply forallb_entry_name_app; [assumption|]. simpl. now rewrite Hn. }
  assert (Hne : resolve d ++ r ++ [name] <> []).
  { destruct (resolve d); [destruct r|]; discriminate. }
  destruct (walk_path_valid _ Hrn Hne) as [Hv Hres].
  unfold Join2.
  destruct (resolve d ++ r) as [|x l] eqn:E.
  - assert (Hw : walk_path d r = ".") by (unfold walk_path; now rewrite E).
    rewrite Hw. cbn [String.eqb Ascii.eqb Bool.eqb negb].
    change ("." +++ "/" +++ name) with ("./" +++ name).
    rewrite Clean_dot_slash by assumption.
    unfold walk_path. now rewrite app_assoc, E.
  - assert (Hw : walk_path d r = Join (x :: l) "/") by (unfold walk_path; now rewrite E).
    rewrite Hw.
    assert (Hx : (Join (x :: l) "/" == "") = false).
    { apply eqb_false_iff.
      pose proof (forallb_entry_name_app _ _ base_names Hr) as Hall.
      rewrite E in Hall. simpl in Hall. apply andb_prop in Hall as [Hxn _].
      apply entry_name_inv in Hxn as [Hxv _].
      apply valid_name_inv in Hxv as (Hxe & _ & _).
      now apply Join_not_empty. }
    rewrite Hx. cbn [negb].
    rewrite <- Join_snoc by discriminate.
    rewrite <- (Clean_valid _ Hv).
    unfold walk_path. rewrite app_assoc, E.
    destruct ((x :: l) ++ [name]) eqn:E2; [discriminate | reflexivity].
Qed.


Lemma Join_inj_below (bn r : list string) :
  bn <> [] -> forallb entry_name (bn ++ r) = true ->
  Join (bn ++ r) "/" = Join bn "/" -> r = [].
Proof.
  intros Hbn Hall E.
  apply entry_names_inv in Hall as [_ Hs].
  pose proof Hs as Hs'. apply Forall_app in Hs' as [Hsb _].
  apply (f_equal elements) in E.
  rewrite !elements_Join in E by (assumption || now destruct bn).
  rewrite <- (app_nil_r bn) in E at 2. now apply app_inv_head in E.
Qed.

(** Relative to [d], the path of the walk to the names [r] is those
    names — or the dot, for the root of the walk. *)
Lemma Rel_walk_path (r : list string) :
  forallb entry_name r = true ->
  Rel d (walk_path d r) = Ok (match r with [] => "." | _ => Join r "/" end).
Proof.
  intros Hr. destruct r as [|x r'].
  { rewrite walk_path_nil. apply Rel_same. }
  set (r := x :: r') in *.
  assert (Hrne : r <> []) by discriminate.
  assert (Hne : resolve d ++ r <> []) by (destruct (resolve d); discriminate).
  destruct (walk_path_valid r Hr Hne) as [Hv Hres].
  pose proof (forallb_entry_name_app _ _ base_names Hr) as Hall.
  unfold Rel. rewrite (Clean_walk_path r Hr).
  rewrite (valid_path_not_rooted _ Hv).
  destruct d_ok as [Hd | Hd].
  - (* the walk started at the dot *)
    assert (Hw : walk_path d r = Join r "/") by (rewrite Hd; reflexivity).
    rewrite Hw in *. rewrite Hd. change (Clean ".") with ".".
    destruct (String.eqb_spec (Join r "/") ".") as [E|_].
    { rewrite E in Hv. discriminate. }
    reflexivity.
  - (* the walk started at a valid path *)
    rewrite (Clean_valid _ Hd).
    pose proof (resolve_valid _ Hd) as Hrd.
    pose proof (Join_elements d) as Hjd.
    assert (Hw : walk_path d r = Join (elements d ++ r) "/").
    { unfold walk_path. rewrite Hrd.
      destruct (elements d ++ r) eqn:E; [|reflexivity].
      rewrite Hrd, E in Hne. congruence. }
    rewrite Hrd in Hall.
    destruct (String.eqb_spec (walk_path d r) d) as [E|_].
    { exfalso. rewrite Hw, <- Hjd in E at 1.
      rewrite Hjd in E.
      rewrite <- Hjd in E at 2.
      apply Join_inj_below in E; [congruence | apply elements_not_nil | assumption]. }
    destruct (String.eqb_spec d ".") as [E|_].
    { rewrite E in Hd. discriminate. }
    rewrite (valid_path_not_rooted _ Hd).
    cbn [Bool.eqb negb].
    rewrite Hw.
    assert (Hb : forallb entry_name (elements d) = true)
      by (rewrite forallb_app in Hall; now apply andb_prop in Hall as [Hb _]).
    pose proof (rel_loop_below (elements d) r (S (String.length d)) Hb Hrne
                  (length_elements d)) as Hloop.
    rewrite Hjd in Hloop. rewrite Hloop. reflexivity.
Qed.

End WalkFacts.

Section ListingFacts.

Import filepath fs.

(** Induction on a tree, with the hypothesis for every entry of a
    directory. *)
Lemma node_induction (P : node -> Prop) :
  (forall data, P (File data)) ->
  (forall entries, Forall (fun e => P (snd e)) entries -> P (Dir entries)) ->
  forall n, P n.
Proof.
  intros HF HD. fix IH 1. intros [data|entries]; [apply HF|].
  apply HD. revert entries. fix IHl 1. intros [|[k c] rest].
  - constructor.
  - constructor; [apply IH | apply IHl].
Qed.

Lemma extend_app (files : json.strings_slice) (l1 l2 : list string) :
  extend files (l1 ++ l2) = extend (extend files l1) l2.
Proof. unfold extend. apply fold_left_app. Qed.

Variable d : string.
Hypothesis d_ok : d = "." \/ valid_path d = true.

Lemma Join_not_dot (r : list string) :
  r <> [] -> forallb entry_name r = true -> (Join r "/" == ".") = false.
Proof.
  intros Hne Hr. apply entry_names_inv in Hr as [Hv Hs].
  destruct (valid_path_Join r Hne Hv Hs) as [Hp _].
  apply eqb_false_iff. intros E. rewrite E in Hp. discriminate.
Qed.

(** What the function of [ListFiles] does at the node reached by [r]:
    nothing at the root of the walk, else the entry is appended. *)
Lemma ListFiles_func_at (r : list string) (n : node) (files : json.strings_slice) :
  forallb entry_name r = true ->
  tools.ListFiles_func d (walk_path d r) (Some (os.info_of n)) None files =
  (extend files (match r with [] => [] | _ => [listed r n] end), None).
Proof.
  intros Hr. unfold tools.ListFiles_func.
  rewrite (Rel_walk_path d d_ok r Hr).
  destruct r as [|x r']; [reflexivity|].
  rewrite Join_not_dot by (assumption || discriminate). cbn [negb].
  unfold listed, os.info_of, os.IsDir, is_dir.
  destruct n; cbn [extend fold_left]; [now rewrite append_empty_r | reflexivity].
Qed.

(** The walk below the node reached by [r] appends the node, unless it
    is the root, and then all that lies below it. *)
Lemma walk_lists (n : node) :
  forall (r : list string) (files : json.strings_slice),
    well_formed n = true -> forallb entry_name r = true ->
    Walk.walk (tools.ListFiles_func d) (walk_path d r) n files =
    (extend files (match r with [] => [] | _ => [listed r n] end ++ below r n), None).
Proof.
  induction n as [data|entries IH] using node_induction; intros r files Hwf Hr.
  - cbn [Walk.walk below]. rewrite app_nil_r. now apply ListFiles_func_at.
  - cbn [Walk.walk]. rewrite ListFiles_func_at by assumption.
    rewrite extend_app.
    generalize (extend files match r with [] => [] | _ :: _ => [listed r (Dir entries)] end).
    cbn [well_formed] in Hwf. apply andb_prop in Hwf as [_ Hwf].
    cbn [below]. clear files.
    induction entries as [|[name child] rest IHrest]; intros st; [reflexivity|].
    inversion IH as [|? ? Hchild Hrest]; subst. cbn [snd] in Hchild.
    cbn [forallb fst snd] in Hwf.
    apply andb_prop in Hwf as [Hc Hwf]. apply andb_prop in Hc as [Hname Hcwf].
    cbn [Walk.range_names flat_map fst snd].
    rewrite (Join2_walk_path d d_ok r name Hr Hname).
    assert (Hrn : forallb entry_name (r ++ [name]) = true).
    { rewrite forallb_app, Hr. simpl. now rewrite Hname. }
    rewrite (Hchild (r ++ [name]) st Hcwf Hrn).
    destruct (r ++ [name]) as [|y l] eqn:E; [now destruct r|]. rewrite <- E.
    rewrite IHrest by assumption.
    rewrite <- extend_app. reflexivity.
Qed.

End ListingFacts.

Section BelowFacts.

Import filepath fs.

Lemma extend_Some (l0 more : list string) : extend (Some l0) more = Some (l0 ++ more).
Proof.
  revert l0; induction more as [|x more IH]; intros l0; cbn [extend fold_left].
  - now rewrite app_nil_r.
  - change (fold_left json.append more (json.append (Some l0) x))
      with (extend (Some (l0 ++ [x])) more).
    rewrite IH, <- app_assoc. reflexivity.
Qed.

(** The slice is nil as long as nothing was appended. *)
Lemma extend_None (more : list string) :
  extend None more = match more with [] => None | _ => Some more end.
Proof.
  destruct more as [|x more]; [reflexivity|].
  change (extend None (x :: more)) with (extend (Some [x]) more).
  now rewrite extend_Some.
Qed.

Lemma find_In (name : string) (child : node) (entries : list (string * node)) :
  find name entries = Some child -> In (name, child) entries.
Proof.
  induction entries as [|[k c] rest IH]; simpl; [discriminate|].
  destruct (String.eqb_spec k name) as [->|_]; [intros [= ->]; now left | auto].
Qed.

Lemma find_distinct (name : string) (child : node) (entries : list (string * node)) :
  distinct (map fst entries) = true -> In (name, child) entries ->
  find name entries = Some child.
Proof.
  induction entries as [|[k c] rest IH]; simpl; [contradiction|].
  intros Hd Hin. apply andb_prop in Hd as [Hk Hd].
  destruct Hin as [[= -> ->] | Hin]; [now rewrite String.eqb_refl|].
  destruct (String.eqb_spec k name) as [->|_]; [|auto].
  exfalso. apply negb_true_iff in Hk.
  assert (Hex : existsb (String.eqb name) (map fst rest) = true); [|congruence].
  apply existsb_exists. exists name. split; [|apply String.eqb_refl].
  apply in_map_iff. now exists (name, child).
Qed.

Lemma well_formed_entry (name : string) (child : node) (entries : list (string * node)) :
  well_formed (Dir entries) = true -> In (name, child) entries ->
  entry_name name = true /\ well_formed child = true.
Proof.
  cbn [well_formed]. intros H Hin. apply andb_prop in H as [_ H].
  rewrite forallb_forall in H. specialize (H _ Hin).
  now apply andb_prop in H.
Qed.

(** In a well-formed tree the names on the way to a node are entry
    names. *)
Lemma lookup_names (r : list string) (n child : node) :
  well_formed n = true -> lookup r n = Done child ->
  forallb entry_name r = true.
Proof.
  revert n; induction r as [|x r IH]; intros n Hwf H; [reflexivity|].
  destruct n as [data|entries]; [discriminate|]. simpl in H.
  destruct (find x entries) as [c|] eqn:Hf; [|discriminate].
  destruct (well_formed_entry x c entries Hwf (find_In _ _ _ Hf)) as [Hx Hc].
  simpl. rewrite Hx. now apply (IH c).
Qed.

(** What [below] lists is what the tree holds below the node: one entry
    for every node that a non-empty sequence of names leads to. *)
Lemma In_below (n : node) :
  forall (r0 : list string) (e : string),
    well_formed n = true ->
    (In e (below r0 n) <->
     exists r child, r <> [] /\ lookup r n = Done child /\ e = listed (r0 ++ r) child).
Proof.
  induction n as [data|entries IH] using node_induction; intros r0 e Hwf.
  - cbn [below]. split; [contradiction|].
    intros (r & child & Hr & Hl & _). destruct r; [congruence | discriminate].
  - cbn [below]. rewrite in_flat_map. split.
    + intros ([name c] & Hin & He). cbn [fst snd] in He.
      destruct (well_formed_entry name c entries Hwf Hin) as [_ Hc].
      pose proof Hwf as Hd. cbn [well_formed] in Hd. apply andb_prop in Hd as [Hd _].
      pose proof (find_distinct _ _ _ Hd Hin) as Hf.
      destruct He as [<- | He].
      * exists [name], c. repeat split; [discriminate|]. simpl. now rewrite Hf.
      * rewrite Forall_forall in IH. apply (IH _ Hin) in He; [|assumption].
        destruct He as (r & child & Hr & Hl & ->).
        exists (name :: r), child. repeat split; [discriminate | |].
        -- simpl. now rewrite Hf.
        -- now rewrite <- app_assoc.
    + intros (r & child & Hr & Hl & ->).
      destruct r as [|name r]; [congruence|]. simpl in Hl.
      destruct (find name entries) as [c|] eqn:Hf; [|discriminate].
      pose proof (find_In _ _ _ Hf) as Hin.
      exists (name, c). split; [assumption|]. cbn [fst snd].
      destruct r as [|y r].
      * left. simpl in Hl. now injection Hl as ->.
      * right. rewrite Forall_forall in IH.
        apply (IH _ Hin); [now apply (well_formed_entry name c entries)|].
        exists (y :: r), child. repeat split; [discriminate | assumption |].
        now rewrite <- app_assoc.
Qed.

Lemma ends_with_slash_append (a b : string) :
  b <> "" -> ends_with_slash (a +++ b) = ends_with_slash b.
Proof.
  intros Hb. induction a as [|c a IH]; [reflexivity|].
  cbn [String.append ends_with_slash]. rewrite IH.
  destruct (a +++ b) eqn:E; [|reflexivity].
  apply append_eq_empty in E as [_ E]. congruence.
Qed.

Lemma ends_with_slash_name (x : string) :
  has_slash x = false -> ends_with_slash x = false.
Proof.
  induction x as [|c x IH]; [reflexivity|]. simpl.
  destruct (Ascii.eqb c Separator); [discriminate|].
  intros H. destruct x; [reflexivity | now apply IH].
Qed.

Lemma ends_with_slash_Join (r : list string) :
  forallb entry_name r = true -> ends_with_slash (Join r "/") = false.
Proof.
  induction r as [|x r IH]; [reflexivity|]. intros H.
  simpl in H. apply andb_prop in H as [Hx Hr].
  apply entry_name_inv in Hx as [Hv Hs].
  destruct r as [|y r]; [now apply ends_with_slash_name|].
  rewrite Join_cons by discriminate.
  rewrite ends_with_slash_append.
  - rewrite ends_with_slash_append; [now apply IH|].
    simpl in Hr. apply andb_prop in Hr as [Hy _].
    apply entry_name_inv in Hy as [Hyv _].
    apply valid_name_inv in Hyv as (Hye & _ & _).
    now apply Join_not_empty.
  - discriminate.
Qed.

(** An entry of the listing is not the root, and it ends in a slash
    exactly when it is a directory. *)
Lemma listed_shape (r : list string) (child : node) :
  r <> [] -> forallb entry_name r = true ->
  listed r child <> "." /\ listed r child <> "" /\
  ends_with_slash (listed r child) = is_dir child.
Proof.
  intros Hne Hr. unfold listed.
  pose proof (Join_not_dot r Hne Hr) as Hdot. apply eqb_false_iff in Hdot.
  pose proof (ends_with_slash_Join r Hr) as Hend.
  assert (Hemp : Join r "/" <> "").
  { destruct r as [|x r]; [congruence|].
    simpl in Hr. apply andb_prop in Hr as [Hx _].
    apply entry_name_inv in Hx as [Hv _].
    apply valid_name_inv in Hv as (Hxe & _ & _). now apply Join_not_empty. }
  destruct child as [data|entries]; cbn [is_dir].
  - rewrite append_empty_r. auto.
  - repeat split.
    + intros E. destruct (Join r "/") as [|c [|c' s]]; try discriminate; congruence.
    + intros E. apply append_eq_empty in E as [_ E]. discriminate.
    + rewrite ends_with_slash_append by discriminate. reflexivity.
Qed.

End BelowFacts.

(** C7, where the code departs from it. On a directory that exists and
    holds nothing, [list_files] returns the JSON text [null], which is not
    an array: the slice of entries is still the nil slice when it is
    encoded. *)
Theorem list_files_of_empty_directory_is_null
  (w : World) (input : json.RawMessage) (d : string) :
  json.Unmarshal input = ({| tools.ListFilesInput_Path := d |}, None) ->
  d <> "" ->
  fs.stat d (disk w) = fs.Done (fs.Dir []) ->
  tools.ListFiles input w = Returns ("null", None) (os.logged (CallWalk d) w).
Proof.
  intros Hdec Hd Hstat. rewrite (ListFiles_run w input d Hdec).
  cbv zeta. rewrite (ListFiles_dir d Hd), Hstat.
  cbn [Walk.walk]. unfold tools.ListFiles_func at 1. rewrite Rel_same. reflexivity.
Qed.

Lemma list_files_of_empty_directory_is_null_witness :
  directory_at demo.world "z" /\
  tools.ListFiles (demo.object [("path", "z")]) demo.world =
    Returns ("null", None) (os.logged (CallWalk "z") demo.world).
Proof.
  split; [exists []; reflexivity|].
  apply (list_files_of_empty_directory_is_null demo.world
           (demo.object [("path", "z")]) "z");
    [reflexivity | discriminate | reflexivity].
Defined.

(** What [list_files] returns where the code and the claim C7 agree. On
    a directory of a well-formed tree — named by a valid path, by the dot,
    or by no path at all — the walk visits every node below the directory
    and the tool returns the encoding of their relative paths: the root of
    the walk is not among them, and an entry ends in a slash exactly when
    it is a directory. The encoding is an array as soon as there is an
    entry. *)
Theorem list_files_lists_what_lies_below
  (w : World) (input : json.RawMessage) (d : string) (n : fs.node) :
  json.Unmarshal input = ({| tools.ListFilesInput_Path := d |}, None) ->
  let dir := if negb (d == "") then d else "." in
  dir = "." \/ fs.valid_path dir = true ->
  fs.stat dir (disk w) = fs.Done n ->
  well_formed n = true ->
  tools.ListFiles input w =
    Returns (match below [] n with
             | [] => "null"
             | l => "[" +++ Join (map json.appendString l) "," +++ "]"
             end, None)
            (os.logged (CallWalk dir) w) /\
  (forall e,
      In e (below [] n) <->
      exists r child, r <> [] /\ fs.lookup r n = fs.Done child /\ e = listed r child) /\
  (forall r child,
      r <> [] -> fs.lookup r n = fs.Done child ->
      listed r child <> "." /\ listed r child <> "" /\
      ends_with_slash (listed r child) = fs.is_dir child).
Proof.
  intros Hdec dir Hdir Hstat Hwf. repeat split.
  - rewrite (ListFiles_run w input d Hdec). cbv zeta. fold dir. rewrite Hstat.
    rewrite <- (walk_path_nil dir Hdir) at 2.
    rewrite (walk_lists dir Hdir n [] None Hwf eq_refl). cbn [app].
    rewrite extend_None. destruct (below [] n); reflexivity.
  - now apply (In_below n []).
  - now apply (In_below n []).
  - apply listed_shape; [assumption | now apply (lookup_names r n child)].
  - apply listed_shape; [assumption | now apply (lookup_names r n child)].
  - apply listed_shape; [assumption | now apply (lookup_names r n child)].
Qed.

Lemma list_files_lists_what_lies_below_witness :
  tools.ListFiles (demo.object []) demo.world =
    Returns ("[" +++ Join (map json.appendString ["a.txt"; "d/"; "d/e/"; "d/f.txt"; "z/"]) ","
             +++ "]", None)
            (os.logged (CallWalk ".") demo.world).
Proof.
  apply (list_files_lists_what_lies_below demo.world (demo.object []) ""
           (fs.Dir demo.root));
    [reflexivity | left; reflexivity | reflexivity | reflexivity].
Defined.



(* ================================================================== *)
(** * Part VI. Further properties of the tools *)
(* ================================================================== *)



Section RemoveFacts.

Import fs.

Lemma find_del (name : string) (entries : list (string * node)) :
  distinct (map fst entries) = true -> find name (del name entries) = None.
Proof.
  induction entries as [|[k c] rest IH]; [reflexivity|].
  cbn [map fst distinct del find]. intros H. apply andb_prop in H as [Hk Hd].
  destruct (String.eqb_spec k name) as [->|Hne].
  - destruct (find name rest) as [c'|] eqn:Hf; [|reflexivity].
    exfalso. apply negb_true_iff in Hk.
    assert (Hex : existsb (String.eqb name) (map fst rest) = true); [|congruence].
    apply existsb_exists. exists name. split; [|apply String.eqb_refl].
    apply in_map_iff. exists (name, c'). split; [reflexivity | now apply find_In].
  - cbn [find]. apply eqb_false_iff in Hne. rewrite Hne. now apply IH.
Qed.

(** [os.Remove] does not take a directory that holds something. *)
Lemma remove_not_empty (names : list string) (n : node)
  (e : string * node) (es : list (string * node)) :
  names <> [] -> lookup names n = Done (Dir (e :: es)) ->
  remove names n = Fail ENOTEMPTY.
Proof.
  revert n; induction names as [|x names IH]; intros n Hne H; [congruence|].
  destruct n as [data|entries]; [discriminate|]. simpl in H |- *.
  destruct (find x entries) as [child|]; [|discriminate].
  destruct names as [|y names].
  - simpl in H. now injection H as ->.
  - now rewrite (IH child) by (discriminate || assumption).
Qed.

(** [os.RemoveAll] takes whatever the path names, and nothing is at the
    path afterwards. *)
Lemma removeAll_existing (names : list string) (n c : node) :
  well_formed n = true -> names <> [] -> lookup names n = Done c ->
  exists n', removeAll names n = Done n' /\
             lookup names n' = Fail ENOENT /\ is_dir n' = true.
Proof.
  revert n; induction names as [|x names IH]; intros n Hwf Hne H; [congruence|].
  destruct n as [data|entries]; [discriminate|]. simpl in H. cbn [removeAll].
  destruct (find x entries) as [child|] eqn:Hf; [|discriminate].
  destruct names as [|y names].
  - exists (Dir (del x entries)). repeat split. simpl.
    cbn [well_formed] in Hwf. apply andb_prop in Hwf as [Hd _].
    now rewrite find_del.
  - destruct (well_formed_entry x child entries Hwf (find_In _ _ _ Hf)) as [_ Hc].
    destruct (IH child Hc) as (child' & Hr & Hl & _); [discriminate | assumption|].
    rewrite Hr. exists (Dir (put x child' entries)). repeat split.
    cbn [lookup]. now rewrite find_put.
Qed.

End RemoveFacts.

(** On a directory that holds something, [remove_directory] without
    [recursive] fails and leaves the tree as it is; with [recursive] on the
    same path it succeeds, and nothing is at the path afterwards. *)
Theorem remove_directory_of_non_empty_directory
  (w : World) (recursively plainly : json.RawMessage) (p : string)
  (e : string * fs.node) (es : list (string * fs.node)) :
  json.Unmarshal recursively =
    ({| tools.RemoveDirectoryInput_Path := p; tools.Recursive := true |}, None) ->
  json.Unmarshal plainly =
    ({| tools.RemoveDirectoryInput_Path := p; tools.Recursive := false |}, None) ->
  fs.valid_path p = true ->
  well_formed (fs.Dir (disk w)) = true ->
  fs.stat p (disk w) = fs.Done (fs.Dir (e :: es)) ->
  tools.RemoveDirectory plainly w =
    Returns ("", Some (wrapError "failed to remove directory: "
                         (PathError "remove" p ENOTEMPTY)))
            (os.logged (CallRemove p) w) /\
  exists w',
    tools.RemoveDirectory recursively w =
      Returns ("Successfully removed directory " +++ p, None) w' /\
    missing w' p.
Proof.
  intros Hr Hn Hv Hwf Hstat.
  pose proof (valid_path_not_empty _ Hv) as Hp.
  rewrite stat_lookup in Hstat by assumption.
  assert (Hnames : fs.resolve p <> []).
  { rewrite resolve_valid by assumption. apply elements_not_nil. }
  destruct (removeAll_existing _ _ _ Hwf Hnames Hstat) as (n' & Hall & Hgone & Hd).
  destruct n' as [|root']; [discriminate|].
  pose proof Hp as Hp'. apply eqb_false_iff in Hp'.
  unfold tools.RemoveDirectory. rewrite Hr, Hn.
  cbn [tools.RemoveDirectoryInput_Path tools.Recursive]. rewrite Hp'.
  unfold bind, ret, os.Remove, os.RemoveAll.
  rewrite Hp', endsWithDot_valid by assumption.
  rewrite (update_fail _ _ _ w ENOTEMPTY) by now apply (remove_not_empty _ _ e es).
  rewrite (update_done _ _ _ w root') by assumption.
  split; [reflexivity|].
  eexists. split; [reflexivity|].
  unfold missing. cbn [disk]. now rewrite stat_lookup.
Qed.

Lemma remove_directory_of_non_empty_directory_witness :
  tools.RemoveDirectory (demo.remove_args "d" false) demo.world =
    Returns ("", Some (wrapError "failed to remove directory: "
                         (PathError "remove" "d" ENOTEMPTY)))
            (os.logged (CallRemove "d") demo.world) /\
  exists w',
    tools.RemoveDirectory (demo.remove_args "d" true) demo.world =
      Returns ("Successfully removed directory d", None) w' /\
    missing w' "d".
Proof.
  apply (remove_directory_of_non_empty_directory demo.world
           (demo.remove_args "d" true) (demo.remove_args "d" false) "d"
           ("e", fs.Dir []) [("f.txt", fs.File "x")]);
    reflexivity.
Defined.

Section MkdirFacts.

Import fs.



End MkdirFacts.



(* ================================================================== *)
(** * Part VII. What the tools leave alone, and what they give back *)
(* ================================================================== *)

Section FrameFacts.

Import fs.

Lemma find_replace_entry_other (x y : string) (n : node) (entries : list (string * node)) :
  x <> y -> find y (replace_entry x n entries) = find y entries.
Proof.
  intros Hxy. induction entries as [|[k m] rest IH]; [reflexivity|]. simpl.
  destruct (String.eqb_spec k x) as [->|Hk]; simpl.
  - apply eqb_false_iff in Hxy. now rewrite Hxy.
  - now rewrite IH.
Qed.

Lemma find_insert_entry_other (x y : string) (n : node) (entries : list (string * node)) :
  x <> y -> find y (insert_entry x n entries) = find y entries.
Proof.
  intros Hxy. pose proof Hxy as Hb. apply eqb_false_iff in Hb.
  induction entries as [|[k m] rest IH]; simpl; [now rewrite Hb|].
  destruct (String.ltb x k); simpl; [now rewrite Hb | now rewrite IH].
Qed.

(** [put] leaves the other names as they are. *)
Lemma find_put_other (x y : string) (n : node) (entries : list (string * node)) :
  x <> y -> find y (put x n entries) = find y entries.
Proof.
  intros Hxy. unfold put. destruct (find x entries);
    [now apply find_replace_entry_other | now apply find_insert_entry_other].
Qed.

(** After a write the path written is a regular file with the data. *)
Lemma write_lookup (data : string) (names : list string) (n n' : node) :
  write names data n = Done n' -> lookup names n' = Done (File data).
Proof.
  revert n n'; induction names as [|x rest IH]; intros n n' H.
  - destruct n; [|discriminate]. now injection H as <-.
  - destruct n as [d|es]; [discriminate|]. cbn [write] in H.
    destruct (find x es) as [child|] eqn:Hf.
    + destruct (write rest data child) as [child'|e] eqn:Hw; [|discriminate].
      injection H as <-. cbn [lookup]. rewrite find_put. now apply (IH child).
    + destruct rest; [|discriminate]. injection H as <-.
      cbn [lookup]. now rewrite find_put.
Qed.

(** A write changes no regular file but the one written. *)
Lemma write_frame (data c : string) (names q : list string) (n n' : node) :
  write names data n = Done n' -> q <> names ->
  lookup q n = Done (File c) -> lookup q n' = Done (File c).
Proof.
  revert n n' q; induction names as [|x rest IH]; intros n n' q H Hq Hl.
  - destruct n as [d|es]; [|discriminate].
    destruct q; [congruence | discriminate].
  - destruct n as [d|es]; [discriminate|]. cbn [write] in H.
    destruct q as [|y q']; [discriminate|]. cbn [lookup] in Hl.
    destruct (find y es) as [cy|] eqn:Hy; [|discriminate].
    destruct (String.eqb_spec x y) as [->|Hxy].
    + rewrite Hy in H.
      destruct (write rest data cy) as [child'|e] eqn:Hw; [|discriminate].
      injection H as <-. cbn [lookup]. rewrite find_put.
      apply (IH cy); [assumption | congruence | assumption].
    + assert (Hn' : exists child', n' = Dir (put x child' es)).
      { destruct (find x es) as [child|].
        - destruct (write rest data child); [|discriminate].
          injection H as <-. eauto.
        - destruct rest; [|discriminate]. injection H as <-. eauto. }
      destruct Hn' as [child' ->]. cbn [lookup].
      now rewrite find_put_other, Hy.
Qed.

(** Making directories changes no regular file. *)
Lemma mkdirAll_frame (c : string) (names q : list string) (n n' : node) :
  mkdirAll names n = Done n' ->
  lookup q n = Done (File c) -> lookup q n' = Done (File c).
Proof.
  revert n n' q; induction names as [|x rest IH]; intros n n' q H Hl.
  - destruct n; [discriminate|]. now injection H as <-.
  - destruct n as [d|es]; [discriminate|]. cbn [mkdirAll] in H.
    destruct (mkdirAll rest match find x es with Some c0 => c0 | None => Dir [] end)
      as [child'|e] eqn:Hm; [|discriminate].
    injection H as <-.
    destruct q as [|y q']; [discriminate|]. cbn [lookup] in Hl |- *.
    destruct (find y es) as [cy|] eqn:Hy; [|discriminate].
    destruct (String.eqb_spec x y) as [->|Hxy].
    + rewrite Hy in Hm. rewrite find_put. now apply (IH cy).
    + now rewrite find_put_other, Hy.
Qed.

End FrameFacts.

Section CallFrames.

Import fs.

Variables (q c : string).

Lemma keeps_ret (A : Type) (v : A) : keeps q c (ret v).
Proof. intros w v' w' [= _ <-]. auto. Qed.

Lemma keeps_bind (A B : Type) (m : Go A) (k : A -> Go B) :
  keeps q c m -> (forall v, keeps q c (k v)) -> keeps q c (bind m k).
Proof.
  intros Hm Hk w v w' H Hfile. unfold bind in H.
  destruct (m w) as [a w1|e] eqn:E; [|discriminate].
  apply (Hk a w1 v w' H). now apply (Hm w a w1).
Qed.

Lemma keeps_logged (A : Type) (v : A) (call : Call) :
  keeps q c (fun w => Returns v (os.logged call w)).
Proof. intros w v' w' [= _ <-]. auto. Qed.

Lemma keeps_update (call : Call) (f : node -> sys node) (failure : Errno -> error) :
  (forall n n', f n = Done n' ->
                lookup (resolve q) n = Done (File c) ->
                lookup (resolve q) n' = Done (File c)) ->
  keeps q c (os.update call f failure).
Proof.
  intros Hf w v w' H Hfile. unfold os.update in H.
  destruct (f (Dir (disk w))) as [[d|root]|e] eqn:E; injection H as _ <-;
    try exact Hfile.
  unfold file_at in *. cbn [disk].
  pose proof (stat_not_empty _ _ _ Hfile) as Hq.
  rewrite stat_lookup in * by assumption. now apply (Hf _ _ E).
Qed.

Lemma keeps_ReadFile (name : string) : keeps q c (os.ReadFile name).
Proof. intros w v w' [= _ <-]. auto. Qed.

Lemma keeps_MkdirAll (path : string) : keeps q c (os.MkdirAll path).
Proof.
  unfold os.MkdirAll. destruct (path == ""); [apply keeps_logged|].
  apply keeps_update. intros n n' H. now apply (mkdirAll_frame c (resolve path)).
Qed.

Lemma keeps_WriteFile (name data : string) :
  resolve q <> resolve name -> keeps q c (os.WriteFile name data).
Proof.
  intros Hq. unfold os.WriteFile. destruct (name == ""); [apply keeps_logged|].
  apply keeps_update. intros n n' H. now apply (write_frame data c (resolve name)).
Qed.

Lemma keeps_Walk (S : Type) (root : string) (fn : Walk.WalkFunc S) (st : S) :
  keeps q c (Walk.Walk root fn st).
Proof. intros w v w' [= _ <-]. auto. Qed.

End CallFrames.

Section EditFileFrame.

Import json fs tools.

Lemma resolve_injective (p q : string) :
  valid_path p = true -> valid_path q = true -> resolve p = resolve q -> p = q.
Proof.
  intros Hp Hq H. rewrite !resolve_valid in H by assumption.
  rewrite <- (Join_elements p), <- (Join_elements q). now rewrite H.
Qed.

Lemma keeps_createNewFile (q c p content : string) :
  resolve q <> resolve p -> keeps q c (createNewFile p content).
Proof.
  intros Hq. unfold createNewFile. apply keeps_bind.
  - destruct (negb (filepath.Dir p == ".")); [apply keeps_MkdirAll | apply keeps_ret].
  - intros [err|]; [apply keeps_ret|].
    apply keeps_bind; [now apply keeps_WriteFile|].
    intros [err|]; apply keeps_ret.
Qed.

Lemma keeps_EditFile (q c : string) (input : RawMessage) :
  resolve q <> resolve (Path (fst (Unmarshal input))) ->
  keeps q c (EditFile input).
Proof.
  intros Hq. unfold EditFile.
  destruct (Unmarshal input) as [in_ [e|]]; [apply keeps_ret|]. cbn [fst] in Hq.
  destruct ((Path in_ == "") || (OldStr in_ == NewStr in_)); [apply keeps_ret|].
  apply keeps_bind; [apply keeps_ReadFile|].
  intros [content|err].
  - cbv zeta. destruct (_ && _); [apply keeps_ret|].
    apply keeps_bind; [now apply keeps_WriteFile|].
    intros [err|]; apply keeps_ret.
  - destruct (_ && _); [now apply keeps_createNewFile | apply keeps_ret].
Qed.

Lemma keeps_MakeDirectory (q c : string) (input : RawMessage) :
  keeps q c (MakeDirectory input).
Proof.
  unfold MakeDirectory.
  destruct (Unmarshal input) as [in_ [e|]]; [apply keeps_ret|].
  destruct (MakeDirectoryInput_Path in_ == ""); [apply keeps_ret|].
  apply keeps_bind; [apply keeps_MkdirAll|].
  intros [err|]; apply keeps_ret.
Qed.

(** A write that reports no error has put the data at the path. *)
Lemma WriteFile_written (w w' : World) (p data : string) :
  os.WriteFile p data w = Returns None w' -> file_at w' p data.
Proof.
  unfold os.WriteFile. destruct (String.eqb_spec p "") as [->|Hp]; [discriminate|].
  unfold os.update.
  destruct (write (resolve p) data (Dir (disk w))) as [[d|root]|e] eqn:E;
    [discriminate | | discriminate].
  intros [= <-]. unfold file_at. cbn [disk].
  rewrite stat_lookup by assumption. now apply (write_lookup data _ (Dir (disk w))).
Qed.

Lemma createNewFile_created (w w' : World) (p data out : string) :
  createNewFile p data w = Returns (out, None) w' ->
  out = "Successfully created file " +++ p /\ file_at w' p data.
Proof.
  unfold createNewFile, bind, ret.
  destruct ((if negb (filepath.Dir p == ".") then os.MkdirAll (filepath.Dir p)
             else fun w0 => Returns None w0) w) as [[err|] w1|v];
    [discriminate | | discriminate].
  destruct (os.WriteFile p data w1) as [[err|] w2|v] eqn:Hw;
    [discriminate | | discriminate].
  intros [= <- <-]. split; [reflexivity|]. now apply (WriteFile_written w1).
Qed.

End EditFileFrame.

(** [edit_file] changes one file and no other: whatever the call does —
    replace, create, or fail —, every other regular file is afterwards
    what it was. The same holds of [make_directory], whatever its
    arguments. *)
Theorem edit_file_keeps_the_other_files
  (w : World) (input : json.RawMessage) (p old new q c : string) :
  json.Unmarshal input =
    ({| tools.Path := p; tools.OldStr := old; tools.NewStr := new |}, None) ->
  fs.valid_path p = true -> fs.valid_path q = true -> q <> p ->
  file_at w q c ->
  (forall out w', tools.EditFile input w = Returns out w' -> file_at w' q c) /\
  (forall arguments out w',
     tools.MakeDirectory arguments w = Returns out w' -> file_at w' q c).
Proof.
  intros Hdec Hp Hq Hne Hfile. split.
  - intros out w' Hrun.
    apply (keeps_EditFile q c input) with (w := w) (v := out); try assumption.
    rewrite Hdec. cbn [fst tools.Path].
    intros E. apply Hne. now apply resolve_injective.
  - intros arguments out w' Hrun.
    now apply (keeps_MakeDirectory q c arguments) with (w := w) (v := out).
Qed.

Lemma edit_file_keeps_the_other_files_witness :
  (exists out w',
     tools.EditFile (demo.edit_args "a.txt" "hello" "bye") demo.world = Returns out w' /\
     file_at w' "d/f.txt" "x") /\
  (exists out w',
     tools.MakeDirectory (demo.object [("path", "d/g")]) demo.world = Returns out w' /\
     file_at w' "d/f.txt" "x").
Proof.
  destruct (edit_file_keeps_the_other_files demo.world
              (demo.edit_args "a.txt" "hello" "bye") "a.txt" "hello" "bye" "d/f.txt" "x"
              eq_refl eq_refl eq_refl) as [Hedit Hmake];
    [discriminate | reflexivity |].
  split.
  - exists ("OK", None),
      {| disk := [ ("a.txt", fs.File "bye world bye");
                   ("d", fs.Dir [("e", fs.Dir []); ("f.txt", fs.File "x")]);
                   ("z", fs.Dir []) ];
         calls := [CallReadFile "a.txt"; CallWriteFile "a.txt"] |}.
    split; [reflexivity|]. now apply (Hedit ("OK", None)).
  - exists ("Successfully created directory d/g", None),
      {| disk := [ ("a.txt", fs.File "hello world hello");
                   ("d", fs.Dir [("e", fs.Dir []); ("f.txt", fs.File "x");
                                 ("g", fs.Dir [])]);
                   ("z", fs.Dir []) ];
         calls := [CallMkdirAll "d/g"] |}.
    split; [reflexivity|].
    now apply (Hmake (demo.object [("path", "d/g")])
                 ("Successfully created directory d/g", None)).
Defined.

(** What [edit_file] cannot read it does not touch. Where reading the
    path fails, the tool returns the error of reading — unless nothing is
    at the path and [old_str] is empty, the one case in which it creates
    the file —, and where the path is a directory it returns the error of
    reading a directory, also with an empty [old_str]. In both cases the
    one call made is the reading, and the tree is as before. *)
Theorem edit_file_returns_the_error_of_reading
  (w : World) (input : json.RawMessage) (p old new : string) :
  json.Unmarshal input =
    ({| tools.Path := p; tools.OldStr := old; tools.NewStr := new |}, None) ->
  fs.valid_path p = true -> old <> new ->
  (forall e, fs.stat p (disk w) = fs.Fail e ->
             e = ENOENT -> old <> "" ->
             tools.EditFile input w =
               Returns ("", Some (PathError "open" p ENOENT))
                       (os.logged (CallReadFile p) w) /\
             NotFound (PathError "open" p ENOENT)) /\
  (forall e, fs.stat p (disk w) = fs.Fail e ->
             os.IsNotExist (PathError "open" p e) = false ->
             tools.EditFile input w =
               Returns ("", Some (PathError "open" p e))
                       (os.logged (CallReadFile p) w)) /\
  (directory_at w p ->
   tools.EditFile input w =
     Returns ("", Some (PathError "read" p EISDIR)) (os.logged (CallReadFile p) w)).
Proof.
  intros Hdec Hv Hne. pose proof (valid_path_not_empty _ Hv) as Hp.
  assert (Hrun : tools.EditFile input w =
                 match fs.stat p (disk w) with
                 | fs.Done (fs.File C) => tools.EditFile input w
                 | fs.Done (fs.Dir _) =>
                     Returns ("", Some (PathError "read" p EISDIR))
                             (os.logged (CallReadFile p) w)
                 | fs.Fail e =>
                     if os.IsNotExist (PathError "open" p e) && (old == "")
                     then tools.createNewFile p new (os.logged (CallReadFile p) w)
                     else Returns ("", Some (PathError "open" p e))
                                  (os.logged (CallReadFile p) w)
                 end).
  { destruct (fs.stat p (disk w)) as [[C|es]|e] eqn:Hs; [reflexivity| |];
      unfold tools.EditFile; rewrite Hdec; cbn [tools.Path tools.OldStr tools.NewStr];
      apply eqb_false_iff in Hp, Hne; rewrite Hp, Hne; cbn [orb];
      unfold bind, os.ReadFile; rewrite Hs; [reflexivity|];
      now destruct (os.IsNotExist (PathError "open" p e) && (old == "")). }
  split; [|split].
  - intros e Hs -> Hold. split; [|reflexivity].
    rewrite Hrun, Hs. apply eqb_false_iff in Hold. rewrite Hold.
    now rewrite andb_false_r.
  - intros e Hs Hno. rewrite Hrun, Hs, Hno. reflexivity.
  - intros [es Hs]. now rewrite Hrun, Hs.
Qed.

Lemma edit_file_returns_the_error_of_reading_witness :
  tools.EditFile (demo.edit_args "nope.txt" "a" "b") demo.world =
    Returns ("", Some (PathError "open" "nope.txt" ENOENT))
            (os.logged (CallReadFile "nope.txt") demo.world) /\
  tools.EditFile (demo.edit_args "a.txt/b" "" "b") demo.world =
    Returns ("", Some (PathError "open" "a.txt/b" ENOTDIR))
            (os.logged (CallReadFile "a.txt/b") demo.world) /\
  tools.EditFile (demo.edit_args "d" "" "b") demo.world =
    Returns ("", Some (PathError "read" "d" EISDIR))
            (os.logged (CallReadFile "d") demo.world).
Proof.
  split; [|split].
  - destruct (edit_file_returns_the_error_of_reading demo.world
                (demo.edit_args "nope.txt" "a" "b") "nope.txt" "a" "b" eq_refl)
      as (Hmissing & _); [reflexivity | discriminate |].
    apply (Hmissing ENOENT); [reflexivity | reflexivity | discriminate].
  - destruct (edit_file_returns_the_error_of_reading demo.world
                (demo.edit_args "a.txt/b" "" "b") "a.txt/b" "" "b" eq_refl)
      as (_ & Hbarred & _); [reflexivity | discriminate |].
    apply (Hbarred ENOTDIR); reflexivity.
  - destruct (edit_file_returns_the_error_of_reading demo.world
                (demo.edit_args "d" "" "b") "d" "" "b" eq_refl)
      as (_ & _ & Hdir); [reflexivity | discriminate |].
    apply Hdir. now exists [("e", fs.Dir []); ("f.txt", fs.File "x")].
Defined.

(** What [edit_file] has written, [read_file] reads: whenever [edit_file]
    succeeds, [read_file] on the same path succeeds in the world it leaves,
    and returns the replacement made in the old content where a file was
    there, and [new_str] where nothing was. *)
Theorem edit_file_then_read_file
  (w w' : World) (edit read : json.RawMessage) (p old new out : string) :
  json.Unmarshal edit =
    ({| tools.Path := p; tools.OldStr := old; tools.NewStr := new |}, None) ->
  json.Unmarshal read = ({| tools.ReadFileInput_Path := p |}, None) ->
  fs.valid_path p = true ->
  tools.EditFile edit w = Returns (out, None) w' ->
  exists content,
    tools.ReadFile read w' = Returns (content, None) (os.logged (CallReadFile p) w') /\
    (forall C, file_at w p C ->
               out = "OK" /\ content = strings.Replace C old new None) /\
    (missing w p -> out = "Successfully created file " +++ p /\ content = new).
Proof.
  intros Hedit Hread _ Hrun.
  assert (Hafter : forall content, file_at w' p content ->
            tools.ReadFile read w' =
              Returns (content, None) (os.logged (CallReadFile p) w')).
  { intros content Hf. unfold tools.ReadFile. rewrite Hread.
    cbn [tools.ReadFileInput_Path]. unfold bind, os.ReadFile.
    unfold file_at in Hf. now rewrite Hf. }
  unfold tools.EditFile in Hrun. rewrite Hedit in Hrun.
  cbn [tools.Path tools.OldStr tools.NewStr] in Hrun.
  destruct ((p == "") || (old == new)); [discriminate|].
  unfold bind, os.ReadFile, ret in Hrun.
  unfold file_at, missing. change (disk (os.logged (CallReadFile p) w)) with (disk w) in *.
  destruct (fs.stat p (disk w)) as [[C|es]|e] eqn:Hs.
  - cbv zeta in Hrun.
    destruct ((C == strings.Replace C old new None) && negb (old == ""));
      [discriminate|].
    destruct (os.WriteFile p _ _) as [[err|] w1|v] eqn:Hw;
      [discriminate | | discriminate].
    injection Hrun as <- <-.
    exists (strings.Replace C old new None).
    split; [apply Hafter; now apply WriteFile_written in Hw|].
    split; [intros C' [= <-]; now split | discriminate].
  - discriminate.
  - destruct (os.IsNotExist (PathError "open" p e) && (old == "")); [|discriminate].
    apply createNewFile_created in Hrun as [-> Hf].
    exists new. split; [now apply Hafter|].
    split; [discriminate | now split].
Qed.

Lemma edit_file_then_read_file_witness :
  exists w',
    tools.EditFile (demo.edit_args "a.txt" "hello" "bye") demo.world =
      Returns ("OK", None) w' /\
    tools.ReadFile (demo.object [("path", "a.txt")]) w' =
      Returns ("bye world bye", None) (os.logged (CallReadFile "a.txt") w').
Proof.
  exists {| disk := [ ("a.txt", fs.File "bye world bye");
                      ("d", fs.Dir [("e", fs.Dir []); ("f.txt", fs.File "x")]);
                      ("z", fs.Dir []) ];
            calls := [CallReadFile "a.txt"; CallWriteFile "a.txt"] |}.
  split; [reflexivity|].
  destruct (edit_file_then_read_file demo.world
              {| disk := [ ("a.txt", fs.File "bye world bye");
                           ("d", fs.Dir [("e", fs.Dir []); ("f.txt", fs.File "x")]);
                           ("z", fs.Dir []) ];
                 calls := [CallReadFile "a.txt"; CallWriteFile "a.txt"] |}
              (demo.edit_args "a.txt" "hello" "bye")
              (demo.object [("path", "a.txt")]) "a.txt" "hello" "bye" "OK"
              eq_refl eq_refl eq_refl eq_refl)
    as (content & Hread & Hold & _).
  destruct (Hold "hello world hello" eq_refl) as [_ Hcontent].
  rewrite Hread. now rewrite Hcontent.
Defined.

Section ReadOnly.

Import json tools.

Lemma read_only_ret {A : Type} (v : A) : read_only (ret v).
Proof. intros w. exists v, w. now split. Qed.

Lemma read_only_logged {A : Type} (f : World -> A) (c : Call) :
  read_only (fun w => Returns (f w) (os.logged c w)).
Proof. intros w. exists (f w), (os.logged c w). now split. Qed.

Lemma read_only_bind {A B : Type} (m : Go A) (k : A -> Go B) :
  read_only m -> (forall v, read_only (k v)) -> read_only (bind m k).
Proof.
  intros Hm Hk w. unfold bind.
  destruct (Hm w) as (v & w1 & -> & H1).
  destruct (Hk v w1) as (v' & w2 & -> & H2).
  exists v', w2. split; [reflexivity | congruence].
Qed.

Lemma read_only_ReadFile (input : RawMessage) : read_only (ReadFile input).
Proof.
  unfold ReadFile. destruct (Unmarshal input) as [in_ [e|]]; [apply read_only_ret|].
  apply read_only_bind.
  - unfold os.ReadFile. apply read_only_logged with
      (f := fun w => match fs.stat (ReadFileInput_Path in_) (disk w) with
                     | fs.Done (fs.File data) => Ok data
                     | fs.Done (fs.Dir _) =>
                         Err (PathError "read" (ReadFileInput_Path in_) EISDIR)
                     | fs.Fail e => Err (PathError "open" (ReadFileInput_Path in_) e)
                     end).
  - intros [content|e]; apply read_only_ret.
Qed.

Lemma read_only_ListFiles (input : RawMessage) : read_only (ListFiles input).
Proof.
  unfold ListFiles. destruct (Unmarshal input) as [in_ [e|]]; [apply read_only_ret|].
  cbv zeta. apply read_only_bind.
  - intros w. unfold Walk.Walk. eexists _, _. split; reflexivity.
  - intros [files [e|]]; [apply read_only_ret|].
    destruct (Marshal files); apply read_only_ret.
Qed.

End ReadOnly.

(** [read_file] and [list_files] only look: whatever their arguments
    and whatever the tree, they return — they do not panic — and the tree
    is afterwards as it was. *)
Theorem read_file_and_list_files_change_nothing (input : json.RawMessage) :
  read_only (tools.ReadFile input) /\ read_only (tools.ListFiles input).
Proof. split; [apply read_only_ReadFile | apply read_only_ListFiles]. Qed.

(** [list_files] on a path that is a regular file is no error: the walk
    visits the file alone, which is the root and is left out, and the nil
    slice is encoded as [null]. *)
Theorem list_files_of_regular_file_is_null
  (w : World) (input : json.RawMessage) (p C : string) :
  json.Unmarshal input = ({| tools.ListFilesInput_Path := p |}, None) ->
  file_at w p C ->
  tools.ListFiles input w = Returns ("null", None) (os.logged (CallWalk p) w).
Proof.
  intros Hdec Hfile. pose proof (stat_not_empty _ _ _ Hfile) as Hp.
  rewrite (ListFiles_run w input p Hdec). cbv zeta.
  rewrite (ListFiles_dir p Hp). unfold file_at in Hfile. rewrite Hfile.
  cbn [Walk.walk]. unfold tools.ListFiles_func. rewrite Rel_same.
  reflexivity.
Qed.

Lemma list_files_of_regular_file_is_null_witness :
  tools.ListFiles (demo.object [("path", "d/f.txt")]) demo.world =
    Returns ("null", None) (os.logged (CallWalk "d/f.txt") demo.world).
Proof.
  apply (list_files_of_regular_file_is_null demo.world
           (demo.object [("path", "d/f.txt")]) "d/f.txt" "x");
    reflexivity.
Defined.

Section RemoveFrame.

Import json fs tools.

Lemma find_del_other (x y : string) (entries : list (string * node)) :
  x <> y -> find y (del x entries) = find y entries.
Proof.
  intros Hxy. induction entries as [|[k m] rest IH]; [reflexivity|]. simpl.
  destruct (String.eqb_spec k x) as [->|Hk]; simpl.
  - apply eqb_false_iff in Hxy. now rewrite Hxy.
  - now rewrite IH.
Qed.

(** Removing what a path names changes no regular file that is not at
    the path or below it. *)
Lemma removeAll_frame (c : string) (names q : list string) (n n' : node) :
  removeAll names n = Done n' -> is_prefix names q = false ->
  lookup q n = Done (File c) -> lookup q n' = Done (File c).
Proof.
  revert n n' q; induction names as [|x rest IH]; intros n n' q H Hq Hl;
    [discriminate|].
  destruct n as [d|es]; [discriminate|]. cbn [removeAll] in H.
  destruct (find x es) as [child|] eqn:Hx; [|now injection H as <-].
  destruct q as [|y q']; [discriminate|]. cbn [lookup] in Hl. cbn [is_prefix] in Hq.
  destruct (find y es) as [cy|] eqn:Hy; [|discriminate].
  destruct (String.eqb_spec x y) as [->|Hxy].
  - cbn [andb] in Hq. destruct rest as [|z rest]; [discriminate|].
    destruct (removeAll (z :: rest) child) as [child'|e] eqn:Hr; [|discriminate].
    injection H as <-. cbn [lookup]. rewrite find_put.
    rewrite Hx in Hy. injection Hy as <-. now apply (IH child).
  - assert (Hn' : exists es', n' = Dir es' /\ find y es' = find y es).
    { destruct rest as [|z rest].
      - injection H as <-. eexists. split; [reflexivity|]. now apply find_del_other.
      - destruct (removeAll (z :: rest) child); [|discriminate].
        injection H as <-. eexists. split; [reflexivity|]. now apply find_put_other. }
    destruct Hn' as (es' & -> & Hes'). cbn [lookup]. now rewrite Hes', Hy.
Qed.

Lemma remove_frame (c : string) (names q : list string) (n n' : node) :
  remove names n = Done n' -> is_prefix names q = false ->
  lookup q n = Done (File c) -> lookup q n' = Done (File c).
Proof.
  revert n n' q; induction names as [|x rest IH]; intros n n' q H Hq Hl;
    [destruct n; discriminate|].
  destruct n as [d|es]; [discriminate|]. cbn [remove] in H.
  destruct (find x es) as [child|] eqn:Hx; [|discriminate].
  destruct q as [|y q']; [discriminate|]. cbn [lookup] in Hl. cbn [is_prefix] in Hq.
  destruct (find y es) as [cy|] eqn:Hy; [|discriminate].
  destruct (String.eqb_spec x y) as [->|Hxy].
  - cbn [andb] in Hq. destruct rest as [|z rest]; [discriminate|].
    destruct (remove (z :: rest) child) as [child'|e] eqn:Hr; [|discriminate].
    injection H as <-. cbn [lookup]. rewrite find_put.
    rewrite Hx in Hy. injection Hy as <-. now apply (IH child).
  - assert (Hn' : exists es', n' = Dir es' /\ find y es' = find y es).
    { destruct rest as [|z rest].
      - exists (del x es). split; [|now apply find_del_other].
        destruct child as [d|[|e es0]]; [| |discriminate]; now injection H as <-.
      - destruct (remove (z :: rest) child); [|discriminate].
        injection H as <-. eexists. split; [reflexivity|]. now apply find_put_other. }
    destruct Hn' as (es' & -> & Hes'). cbn [lookup]. now rewrite Hes', Hy.
Qed.

Lemma keeps_Remove (q c name : string) :
  is_prefix (resolve name) (resolve q) = false -> keeps q c (os.Remove name).
Proof.
  intros Hq. unfold os.Remove. destruct (name == ""); [apply keeps_logged|].
  apply keeps_update. intros n n' H. now apply (remove_frame c (resolve name)).
Qed.

Lemma keeps_RemoveAll (q c path : string) :
  is_prefix (resolve path) (resolve q) = false -> keeps q c (os.RemoveAll path).
Proof.
  intros Hq. unfold os.RemoveAll. destruct (path == ""); [apply keeps_logged|].
  destruct (endsWithDot path); [apply keeps_logged|].
  apply keeps_update. intros n n' H. now apply (removeAll_frame c (resolve path)).
Qed.

Lemma keeps_RemoveDirectory (q c : string) (input : RawMessage) :
  is_prefix (resolve (RemoveDirectoryInput_Path (fst (Unmarshal input)))) (resolve q)
    = false ->
  keeps q c (RemoveDirectory input).
Proof.
  intros Hq. unfold RemoveDirectory.
  destruct (Unmarshal input) as [in_ [e|]]; [apply keeps_ret|]. cbn [fst] in Hq.
  destruct (RemoveDirectoryInput_Path in_ == ""); [apply keeps_ret|].
  apply keeps_bind.
  - destruct (Recursive in_); (apply keeps_bind; [|intros ?; apply keeps_ret]).
    + now apply keeps_RemoveAll.
    + now apply keeps_Remove.
  - intros [err|]; apply keeps_ret.
Qed.

(** [os.Remove] takes a regular file, and a directory that holds
    nothing; nothing is at the path afterwards. *)
Lemma remove_existing (names : list string) (n c : node) :
  well_formed n = true -> names <> [] -> lookup names n = Done c ->
  match c with Dir (_ :: _) => False | _ => True end ->
  exists n', remove names n = Done n' /\
             lookup names n' = Fail ENOENT /\ is_dir n' = true.
Proof.
  revert n; induction names as [|x names IH]; intros n Hwf Hne H Hc; [congruence|].
  destruct n as [data|entries]; [discriminate|]. simpl in H. cbn [remove].
  destruct (find x entries) as [child|] eqn:Hf; [|discriminate].
  destruct names as [|y names].
  - simpl in H. injection H as ->. exists (Dir (del x entries)).
    cbn [well_formed] in Hwf. apply andb_prop in Hwf as [Hd _].
    repeat split; [|simpl; now rewrite find_del].
    destruct c as [d|[|e es]]; [reflexivity | reflexivity | contradiction].
  - destruct (well_formed_entry x child entries Hwf (find_In _ _ _ Hf)) as [_ Hch].
    destruct (IH child Hch) as (child' & Hr & Hl & _);
      [discriminate | assumption | assumption |].
    rewrite Hr. exists (Dir (put x child' entries)). repeat split.
    cbn [lookup]. now rewrite find_put.
Qed.

End RemoveFrame.

(** [remove_directory] changes nothing outside the path it is given:
    whatever the mode and whatever the outcome, a regular file that is
    neither at the path nor below it is afterwards what it was. *)
Theorem remove_directory_keeps_what_is_not_below
  (w w' : World) (input : json.RawMessage) (p q c : string) (recursive : bool)
  (out : string * option error) :
  json.Unmarshal input =
    ({| tools.RemoveDirectoryInput_Path := p; tools.Recursive := recursive |}, None) ->
  fs.valid_path p = true -> fs.valid_path q = true ->
  fs.is_prefix (fs.resolve p) (fs.resolve q) = false ->
  file_at w q c ->
  tools.RemoveDirectory input w = Returns out w' ->
  file_at w' q c.
Proof.
  intros Hdec _ _ Hq Hfile Hrun.
  apply (keeps_RemoveDirectory q c input) with (w := w) (v := out); try assumption.
  rewrite Hdec. exact Hq.
Qed.

Lemma remove_directory_keeps_what_is_not_below_witness :
  exists w',
    tools.RemoveDirectory (demo.remove_args "d/e" false) demo.world =
      Returns ("Successfully removed directory d/e", None) w' /\
    file_at w' "d/f.txt" "x".
Proof.
  exists {| disk := [ ("a.txt", fs.File "hello world hello");
                      ("d", fs.Dir [("f.txt", fs.File "x")]);
                      ("z", fs.Dir []) ];
            calls := [CallRemove "d/e"] |}.
  split; [reflexivity|].
  apply (remove_directory_keeps_what_is_not_below demo.world _
           (demo.remove_args "d/e" false) "d/e" "d/f.txt" "x" false
           ("Successfully removed directory d/e", None));
    reflexivity.
Defined.

(** [remove_directory] does not ask whether the path is a directory: a
    regular file, like a directory that holds nothing, is removed in
    either mode, and the tool reports a directory removed. Nothing is at
    the path afterwards. *)
Theorem remove_directory_removes_a_regular_file
  (w : World) (input : json.RawMessage) (p : string) (recursive : bool) (n : fs.node) :
  json.Unmarshal input =
    ({| tools.RemoveDirectoryInput_Path := p; tools.Recursive := recursive |}, None) ->
  fs.valid_path p = true ->
  well_formed (fs.Dir (disk w)) = true ->
  fs.stat p (disk w) = fs.Done n ->
  (exists C, n = fs.File C) \/ n = fs.Dir [] ->
  exists w',
    tools.RemoveDirectory input w =
      Returns ("Successfully removed directory " +++ p, None) w' /\
    missing w' p /\
    calls w' = calls w ++ [if recursive then CallRemoveAll p else CallRemove p].
Proof.
  intros Hdec Hv Hwf Hstat Hn.
  pose proof (valid_path_not_empty _ Hv) as Hp.
  rewrite stat_lookup in Hstat by assumption.
  assert (Hnames : fs.resolve p <> []).
  { rewrite resolve_valid by assumption. apply elements_not_nil. }
  pose proof Hp as Hp'. apply eqb_false_iff in Hp'.
  unfold tools.RemoveDirectory. rewrite Hdec.
  cbn [tools.RemoveDirectoryInput_Path tools.Recursive]. rewrite Hp'.
  unfold bind, ret, os.Remove, os.RemoveAll.
  rewrite Hp', endsWithDot_valid by assumption.
  destruct recursive.
  - destruct (removeAll_existing _ _ _ Hwf Hnames Hstat) as (n' & Hall & Hgone & Hd).
    destruct n' as [|root']; [discriminate|].
    rewrite (update_done _ _ _ w root') by assumption.
    eexists. split; [reflexivity|]. split; [|reflexivity].
    unfold missing. cbn [disk]. now rewrite stat_lookup.
  - destruct (remove_existing _ _ _ Hwf Hnames Hstat) as (n' & Hrm & Hgone & Hd).
    { destruct Hn as [[C ->]| ->]; exact I. }
    destruct n' as [|root']; [discriminate|].
    rewrite (update_done _ _ _ w root') by assumption.
    eexists. split; [reflexivity|]. split; [|reflexivity].
    unfold missing. cbn [disk]. now rewrite stat_lookup.
Qed.

Lemma remove_directory_removes_a_regular_file_witness :
  exists w',
    tools.RemoveDirectory (demo.remove_args "d/f.txt" false) demo.world =
      Returns ("Successfully removed directory d/f.txt", None) w' /\
    missing w' "d/f.txt" /\
    calls w' = [CallRemove "d/f.txt"].
Proof.
  apply (remove_directory_removes_a_regular_file demo.world
           (demo.remove_args "d/f.txt" false) "d/f.txt" false (fs.File "x"));
    try reflexivity.
  left. now exists "x".
Defined.

Section MkdirOverFile.

Import fs.

(** [os.MkdirAll] does not make a directory where a regular file is. *)
Lemma mkdirAll_file (names : list string) (n : node) (c : string) :
  lookup names n = Done (File c) -> mkdirAll names n = Fail ENOTDIR.
Proof.
  revert n; induction names as [|x names IH]; intros n H.
  - simpl in H. now injection H as ->.
  - destruct n as [d|entries]; [discriminate|]. simpl in H. cbn [mkdirAll].
    destruct (find x entries) as [child|]; [|discriminate].
    now rewrite (IH child H).
Qed.

End MkdirOverFile.

(** Where a regular file is, [make_directory] makes nothing: it fails
    with the error of [os.MkdirAll], wrapped, and the file is as before. *)
Theorem make_directory_where_a_file_is
  (w : World) (input : json.RawMessage) (p C : string) :
  json.Unmarshal input = ({| tools.MakeDirectoryInput_Path := p |}, None) ->
  fs.valid_path p = true ->
  file_at w p C ->
  tools.MakeDirectory input w =
    Returns ("", Some (wrapError "failed to create directory: "
                         (PathError "mkdir" p ENOTDIR)))
            (os.logged (CallMkdirAll p) w).
Proof.
  intros Hdec Hv Hfile. pose proof (valid_path_not_empty _ Hv) as Hp.
  unfold file_at in Hfile. rewrite stat_lookup in Hfile by assumption.
  apply eqb_false_iff in Hp.
  unfold tools.MakeDirectory. rewrite Hdec. cbn [tools.MakeDirectoryInput_Path].
  rewrite Hp. unfold bind, ret, os.MkdirAll. rewrite Hp.
  now rewrite (update_fail _ _ _ w ENOTDIR) by now apply (mkdirAll_file _ _ C).
Qed.

Lemma make_directory_where_a_file_is_witness :
  tools.MakeDirectory (demo.object [("path", "d/f.txt")]) demo.world =
    Returns ("", Some (wrapError "failed to create directory: "
                         (PathError "mkdir" "d/f.txt" ENOTDIR)))
            (os.logged (CallMkdirAll "d/f.txt") demo.world).
Proof.
  apply (make_directory_where_a_file_is demo.world
           (demo.object [("path", "d/f.txt")]) "d/f.txt" "x");
    reflexivity.
Defined.

(* ================================================================== *)
(** * Part VIII. Further properties of the loop *)
(* ================================================================== *)

Section AgentFacts.

Import agent.

Variable a : Agent.

Lemma find_tool_first (pre post : list ToolDefinition) (tool : ToolDefinition) :
  (forall t, In t pre -> Name t <> Name tool) ->
  find_tool (pre ++ tool :: post) (Name tool) = Some tool.
Proof.
  induction pre as [|t pre IH]; intros H; cbn [app find_tool].
  - now rewrite String.eqb_refl.
  - assert (Ht : Name t <> Name tool) by (apply H; now left).
    apply eqb_false_iff in Ht. rewrite Ht. apply IH. intros t' Hin. apply H. now right.
Qed.

Lemma Run_iteration_no_crash (l : Loop) (w : World) :
  never_panics (tools a) -> crashed (Run_iteration a l w) = false.
Proof.
  intros Hnp. unfold Run_iteration.
  destruct (read_input a l) as [l1|]; [|reflexivity].
  destruct (runInference a (conversation l1)) as [message|err]; [|reflexivity].
  rewrite range_Content_dispatch.
  destruct (dispatch_in_order_returns a (tool_uses (Content message)) w Hnp)
    as (results & w' & ->).
  cbn [app]. now destruct (List.length results =? 0).
Qed.

Lemma Run_from_no_crash (n : nat) (l : Loop) (w : World) :
  never_panics (tools a) -> crashed (Run_from n a l w) = false.
Proof.
  intros Hnp. revert l w; induction n as [|n IH]; intros l w; [reflexivity|].
  cbn [Run_from]. pose proof (Run_iteration_no_crash l w Hnp) as Hstep.
  destruct (Run_iteration a l w) as [l' w'|l' w'|err l' w'|v];
    [apply IH | reflexivity | reflexivity | discriminate].
Qed.

Lemma user_lines_app (c c' : list MessageParam) :
  user_lines (c ++ c') = (user_lines c ++ user_lines c')%list.
Proof.
  induction c as [|[r blocks] rest IH]; [reflexivity|]. cbn [app user_lines].
  destruct r; [|exact IH].
  destruct blocks as [|[line| | |] [|b blocks]]; try exact IH.
  cbn [app]. now rewrite IH.
Qed.

Lemma user_lines_tool_results (results : list ContentBlock) (ids : list string) :
  tool_result_ids results = Some ids -> user_lines [NewUserMessage results] = [].
Proof. destruct results as [|[line| | |] rest]; try reflexivity. discriminate. Qed.

Lemma read_input_none (l : Loop) :
  read_input a l = None ->
  readUserInput l = true /\ snd (fst (getUserMessage a (stdin l))) = false.
Proof.
  unfold read_input. destruct (readUserInput l); [|discriminate].
  destruct (getUserMessage a (stdin l)) as [[userInput [|]] rest];
    [discriminate | now split].
Qed.

(** However an iteration ends the loop, the end has its cause. *)
Lemma Run_iteration_ends (l : Loop) (w : World) :
  match Run_iteration a l w with
  | Continue _ _ => True
  | Break l' _ =>
      readUserInput l' = true /\ snd (fst (getUserMessage a (stdin l'))) = false
  | Return err l' _ => runInference a (conversation l') = Err err
  | Crash v =>
      exists tool input w0, In tool (tools a) /\ Function tool input w0 = Panics v
  end.
Proof.
  unfold Run_iteration.
  destruct (read_input a l) as [l1|] eqn:Hread; [|now apply read_input_none].
  destruct (runInference a (conversation l1)) as [message|err] eqn:Hinf;
    [|exact Hinf].
  rewrite range_Content_dispatch.
  destruct (dispatch_in_order a (tool_uses (Content message)) w)
    as [results w'|v] eqn:Hd.
  - cbn [app]. now destruct (List.length results =? 0).
  - destruct (dispatch_in_order_panics a _ _ _ Hd) as (u & tool & w0 & _ & Hfind & Hp).
    exists tool, (use_input u), w0. split; [|exact Hp].
    now apply (find_tool_In _ (use_name u)).
Qed.

Lemma Run_from_ends (n : nat) (l : Loop) (w : World) :
  match Run_from n a l w with
  | Continue _ _ => True
  | Break l' _ =>
      readUserInput l' = true /\ snd (fst (getUserMessage a (stdin l'))) = false
  | Return err l' _ => runInference a (conversation l') = Err err
  | Crash v =>
      exists tool input w0, In tool (tools a) /\ Function tool input w0 = Panics v
  end.
Proof.
  revert l w; induction n as [|n IH]; intros l w; [exact I|].
  cbn [Run_from]. pose proof (Run_iteration_ends l w) as Hstep.
  destruct (Run_iteration a l w) as [l' w'|l' w'|err l' w'|v];
    [apply IH | exact Hstep | exact Hstep | exact Hstep].
Qed.

Hypothesis reads_lines : getUserMessage a = main.getUserMessage.

Lemma read_input_extends (l l1 : Loop) :
  read_input a l = Some l1 ->
  exists more, conversation l1 = (conversation l ++ more)%list /\
               (user_lines more ++ stdin l1)%list = stdin l.
Proof.
  unfold read_input. rewrite reads_lines.
  destruct (readUserInput l).
  - destruct (stdin l) as [|line rest] eqn:Hin; [discriminate|].
    intros [= <-]. cbn [conversation stdin]. eexists. split; reflexivity.
  - intros [= <-]. exists []. split; [now rewrite app_nil_r | reflexivity].
Qed.

(** An iteration appends to the conversation, and what it appends holds
    the lines it has read. *)
Lemma Run_iteration_extends (l l' : Loop) (w w' : World) :
  state_of (Run_iteration a l w) = Some (l', w') ->
  exists more, conversation l' = (conversation l ++ more)%list /\
               (user_lines more ++ stdin l')%list = stdin l.
Proof.
  unfold Run_iteration.
  destruct (read_input a l) as [l1|] eqn:Hread.
  2:{ intros [= <- _]. exists []. split; [now rewrite app_nil_r | reflexivity]. }
  destruct (read_input_extends _ _ Hread) as (typed & Hc & Hs).
  destruct (runInference a (conversation l1)) as [message|err].
  2:{ intros [= <- _]. now exists typed. }
  rewrite range_Content_dispatch.
  destruct (dispatch_in_order a (tool_uses (Content message)) w)
    as [results w1|v] eqn:Hd; [|discriminate].
  pose proof (dispatch_in_order_ids _ _ _ _ _ Hd) as Hids.
  cbn [app].
  destruct (List.length results =? 0); intros [= <- _]; cbn [conversation stdin];
    rewrite Hc, <- ?app_assoc; eexists; (split; [reflexivity|]);
    rewrite !user_lines_app, ?(user_lines_tool_results _ _ Hids);
    cbn [user_lines ToParam role]; now rewrite ?app_nil_r.
Qed.

Lemma Run_from_extends (n : nat) (l l' : Loop) (w w' : World) :
  state_of (Run_from n a l w) = Some (l', w') ->
  exists more, conversation l' = (conversation l ++ more)%list /\
               (user_lines more ++ stdin l')%list = stdin l.
Proof.
  revert l w; induction n as [|n IH]; intros l w.
  - intros [= <- _]. exists []. split; [now rewrite app_nil_r | reflexivity].
  - cbn [Run_from]. pose proof (fun l1 => Run_iteration_extends l l1 w) as Hstep.
    destruct (Run_iteration a l w) as [l1 w1|l1 w1|err l1 w1|v];
      [|apply Hstep | apply Hstep | discriminate].
    intros H. destruct (Hstep l1 w1 eq_refl) as (m1 & Hc1 & Hs1).
    destruct (IH _ _ H) as (m2 & Hc2 & Hs2).
    exists (m1 ++ m2)%list. split; [now rewrite Hc2, Hc1, app_assoc|].
    now rewrite user_lines_app, <- app_assoc, Hs2.
Qed.

End AgentFacts.

(** [executeTool] runs the first tool registered under the name, and
    turns what the handler returns into the tool result: the output with
    [is_error] unset when the handler returns no error, the message of the
    error — the output is dropped — with [is_error] set when it returns one.
    The result bears the id of the tool use, and the world is the one the
    handler leaves. A panic of the handler is not caught. *)
Theorem execute_tool_reports_what_the_handler_returns
  (a : agent.Agent) (id : string) (input : json.RawMessage) (w : World)
  (pre post : list ToolDefinition) (tool : ToolDefinition) :
  agent.tools a = (pre ++ tool :: post)%list ->
  (forall t, In t pre -> Name t <> Name tool) ->
  agent.executeTool a id (Name tool) input w =
    match Function tool input w with
    | Returns (out, None) w' => Returns (ToolResultBlock id out false) w'
    | Returns (_, Some e) w' => Returns (ToolResultBlock id (Error e) true) w'
    | Panics v => Panics v
    end.
Proof.
  intros Hreg Hfirst. unfold agent.executeTool. rewrite Hreg.
  rewrite find_tool_first by assumption. unfold bind, ret, NewToolResultBlock.
  now destruct (Function tool input w) as [[out [e|]] w'|v].
Qed.

Lemma execute_tool_reports_what_the_handler_returns_witness :
  agent.executeTool demo.assistant "toolu_1" "edit_file"
    (demo.edit_args "a.txt" "nowhere" "x") demo.world =
  Returns (ToolResultBlock "toolu_1" "old_str not found in file" true)
          (os.logged (CallReadFile "a.txt") demo.world).
Proof.
  apply (execute_tool_reports_what_the_handler_returns demo.assistant "toolu_1"
           (demo.edit_args "a.txt" "nowhere" "x") demo.world
           [tools.ReadFileDefinition; tools.ListFilesDefinition]
           [tools.MakeDirectoryDefinition; tools.RemoveDirectoryDefinition;
            tools.RenameDirectoryDefinition]
           tools.EditFileDefinition);
    [reflexivity|].
  intros t [<-|[<-|[]]]; discriminate.
Defined.

(** The loop crashes only through a tool: with a registry whose
    handlers do not panic, no number of iterations ends in a crash,
    whatever the model answers and whatever the user types. *)
Theorem agent_crashes_only_through_a_tool
  (n : nat) (a : agent.Agent) (input : list string) (w : World) :
  never_panics (agent.tools a) ->
  crashed (agent.Run n a input w) = false.
Proof. intros Hnp. unfold agent.Run. now apply Run_from_no_crash. Qed.

Lemma agent_crashes_only_through_a_tool_witness :
  crashed (agent.Run 5 demo.assistant ["set it up"] demo.world) = false.
Proof.
  apply (agent_crashes_only_through_a_tool 5 demo.assistant ["set it up"] demo.world).
  exact toolsList_never_panics.
Defined.

(** The conversation only grows, and it holds what the user typed: from
    any state of the loop, after any number of iterations that did not
    crash, the conversation is the one before with turns appended, and the
    user lines among the appended turns, followed by the input not yet
    read, are the input that was unread before — no line is lost, repeated
    or moved. *)
Theorem conversation_grows_by_the_lines_read
  (n : nat) (a : agent.Agent) (l l' : agent.Loop) (w w' : World) :
  agent.getUserMessage a = main.getUserMessage ->
  state_of (agent.Run_from n a l w) = Some (l', w') ->
  exists more,
    agent.conversation l' = (agent.conversation l ++ more)%list /\
    (user_lines more ++ agent.stdin l')%list = agent.stdin l.
Proof. intros Hreads. now apply Run_from_extends. Qed.

Lemma conversation_grows_by_the_lines_read_witness :
  exists l' w' more,
    state_of (agent.Run 2 demo.assistant ["set it up"; "thanks"] demo.world) =
      Some (l', w') /\
    agent.conversation l' = more /\
    (user_lines more ++ agent.stdin l')%list = ["set it up"; "thanks"].
Proof.
  destruct (state_of (agent.Run 2 demo.assistant ["set it up"; "thanks"] demo.world))
    as [[l' w']|] eqn:Hrun; [|vm_compute in Hrun; discriminate].
  destruct (conversation_grows_by_the_lines_read 2 demo.assistant
              {| agent.conversation := []; agent.readUserInput := true;
                 agent.stdin := ["set it up"; "thanks"] |} l' demo.world w'
              eq_refl Hrun)
    as (more & Hc & Hs).
  exists l', w', more. split; [reflexivity|]. split; assumption.
Defined.

(** The loop ends in three ways, and each end has its cause. It is left
    by [break] only when it was about to read a line and [getUserMessage]
    reported that there is none: every tool result has been sent back to the
    model before. It returns an error only when that is the error of the
    model API for the conversation held at that moment. And it crashes only
    with the panic of a handler of its registry. This holds of every agent,
    from any state of the loop, after any number of iterations; a run that
    has not ended after them is not spoken of. *)
Theorem run_ends_by_break_api_error_or_panic
  (n : nat) (a : agent.Agent) (l : agent.Loop) (w : World) :
  match agent.Run_from n a l w with
  | agent.Continue _ _ => True
  | agent.Break l' _ =>
      agent.readUserInput l' = true /\
      snd (fst (agent.getUserMessage a (agent.stdin l'))) = false
  | agent.Return err l' _ =>
      agent.runInference a (agent.conversation l') = Err err
  | agent.Crash v =>
      exists tool input w0,
        In tool (agent.tools a) /\ Function tool input w0 = Panics v
  end.
Proof. apply Run_from_ends. Qed.

Section StructsAlike.

Import json.

(** Two struct types that [Unmarshal] fills alike: related zero values,
    and members stored with related results and the same error. *)
Context {T T' : Type} {ST : Struct T} {ST' : Struct T'}.
Variable R : T -> T' -> Prop.
Hypothesis R_zero : R zero zero.
Hypothesis R_store :
  forall key v r r', R r r' ->
    R (fst (store key v r)) (fst (store key v r')) /\
    snd (store key v r) = snd (store key v r').

Lemma fold_members_alike (members : list (string * Value)) (r : T) (r' : T')
  (e : option error) :
  R r r' ->
  R (fst (fold_left
            (fun (acc : T * option error) (m : string * Value) =>
               let (v, e) := acc in
               let (v', e') := store (fst m) (snd m) v in (v', earliest e e'))
            members (r, e)))
    (fst (fold_left
            (fun (acc : T' * option error) (m : string * Value) =>
               let (v, e) := acc in
               let (v', e') := store (fst m) (snd m) v in (v', earliest e e'))
            members (r', e))) /\
  snd (fold_left
         (fun (acc : T * option error) (m : string * Value) =>
            let (v, e) := acc in
            let (v', e') := store (fst m) (snd m) v in (v', earliest e e'))
         members (r, e)) =
  snd (fold_left
         (fun (acc : T' * option error) (m : string * Value) =>
            let (v, e) := acc in
            let (v', e') := store (fst m) (snd m) v in (v', earliest e e'))
         members (r', e)).
Proof.
  revert r r' e; induction members as [|[key v] rest IH]; intros r r' e Hr;
    [now split|].
  cbn [fold_left fst snd].
  destruct (R_store key v r r' Hr) as [Hr1 He1].
  destruct (store key v r) as [r1 e1], (store key v r') as [r1' e1'].
  cbn [fst snd] in Hr1, He1. subst e1'. now apply IH.
Qed.

(** The two structs are filled alike by every payload; there is an error
    for the one exactly when there is one for the other, and it is the same
    error unless the payload is a JSON value that is no object, for which
    the message names the struct type. *)
Lemma Unmarshal_alike (input : RawMessage) :
  R (fst (Unmarshal (T := T) input)) (fst (Unmarshal (T := T') input)) /\
  (snd (Unmarshal (T := T) input) = None <-> snd (Unmarshal (T := T') input) = None) /\
  (struct_shaped input = true ->
   snd (Unmarshal (T := T) input) = snd (Unmarshal (T := T') input)).
Proof.
  destruct input as [msg|[|b|lit|s|items|members]];
    cbn [Unmarshal fst snd struct_shaped];
    try (split; [exact R_zero | split; [split; discriminate | discriminate]]);
    try (split; [exact R_zero | split; [split; reflexivity | reflexivity]]).
  - split; [exact R_zero | split; [split; discriminate | reflexivity]].
  - destruct (fold_members_alike members zero zero None R_zero) as [Hr He].
    split; [exact Hr | split; [now rewrite He | now intros _]].
Qed.

End StructsAlike.

Section TwoGenerations.

Import json agent.

(** Follows the [store] of two input structs of the same fields through
    its keys and the kinds of value. *)
Ltac alike :=
  intros key v r r' Hr; cbn [store]; unfold into_string, into_bool;
  cbn -[key_matches];
  repeat match goal with
         | |- context [if key_matches ?k ?n then _ else _] =>
             destruct (key_matches k n)
         end;
  destruct v; cbn; repeat split; try tauto; try apply Hr;
  try (f_equal; apply Hr).

Lemma ReadFileInput_alike (input : RawMessage) :
  main.ReadFileInput_Path (fst (Unmarshal input)) =
    tools.ReadFileInput_Path (fst (Unmarshal input)) /\
  (snd (Unmarshal (T := main.ReadFileInput) input) = None <->
   snd (Unmarshal (T := tools.ReadFileInput) input) = None) /\
  (struct_shaped input = true ->
   snd (Unmarshal (T := main.ReadFileInput) input) =
   snd (Unmarshal (T := tools.ReadFileInput) input)).
Proof.
  apply (Unmarshal_alike
           (fun r r' => main.ReadFileInput_Path r = tools.ReadFileInput_Path r'));
    [reflexivity | alike].
Qed.

Lemma ListFilesInput_alike (input : RawMessage) :
  main.ListFilesInput_Path (fst (Unmarshal input)) =
    tools.ListFilesInput_Path (fst (Unmarshal input)) /\
  (snd (Unmarshal (T := main.ListFilesInput) input) = None <->
   snd (Unmarshal (T := tools.ListFilesInput) input) = None) /\
  (struct_shaped input = true ->
   snd (Unmarshal (T := main.ListFilesInput) input) =
   snd (Unmarshal (T := tools.ListFilesInput) input)).
Proof.
  apply (Unmarshal_alike
           (fun r r' => main.ListFilesInput_Path r = tools.ListFilesInput_Path r'));
    [reflexivity | alike].
Qed.

Lemma EditFileInput_alike (input : RawMessage) :
  (main.Path (fst (Unmarshal input)) = tools.Path (fst (Unmarshal input)) /\
   main.OldStr (fst (Unmarshal input)) = tools.OldStr (fst (Unmarshal input)) /\
   main.NewStr (fst (Unmarshal input)) = tools.NewStr (fst (Unmarshal input))) /\
  (snd (Unmarshal (T := main.EditFileInput) input) = None <->
   snd (Unmarshal (T := tools.EditFileInput) input) = None) /\
  (struct_shaped input = true ->
   snd (Unmarshal (T := main.EditFileInput) input) =
   snd (Unmarshal (T := tools.EditFileInput) input)).
Proof.
  apply (Unmarshal_alike
           (fun r r' => main.Path r = tools.Path r' /\
                        main.OldStr r = tools.OldStr r' /\
                        main.NewStr r = tools.NewStr r'));
    [now repeat split | alike].
Qed.

Lemma MakeDirectoryInput_alike (input : RawMessage) :
  main.MakeDirectoryInput_Path (fst (Unmarshal input)) =
    tools.MakeDirectoryInput_Path (fst (Unmarshal input)) /\
  (snd (Unmarshal (T := main.MakeDirectoryInput) input) = None <->
   snd (Unmarshal (T := tools.MakeDirectoryInput) input) = None) /\
  (struct_shaped input = true ->
   snd (Unmarshal (T := main.MakeDirectoryInput) input) =
   snd (Unmarshal (T := tools.MakeDirectoryInput) input)).
Proof.
  apply (Unmarshal_alike
           (fun r r' => main.MakeDirectoryInput_Path r = tools.MakeDirectoryInput_Path r'));
    [reflexivity | alike].
Qed.

Lemma RemoveDirectoryInput_alike (input : RawMessage) :
  (main.RemoveDirectoryInput_Path (fst (Unmarshal input)) =
     tools.RemoveDirectoryInput_Path (fst (Unmarshal input)) /\
   main.Recursive (fst (Unmarshal input)) = tools.Recursive (fst (Unmarshal input))) /\
  (snd (Unmarshal (T := main.RemoveDirectoryInput) input) = None <->
   snd (Unmarshal (T := tools.RemoveDirectoryInput) input) = None) /\
  (struct_shaped input = true ->
   snd (Unmarshal (T := main.RemoveDirectoryInput) input) =
   snd (Unmarshal (T := tools.RemoveDirectoryInput) input)).
Proof.
  apply (Unmarshal_alike
           (fun r r' => main.RemoveDirectoryInput_Path r =
                          tools.RemoveDirectoryInput_Path r' /\
                        main.Recursive r = tools.Recursive r'));
    [now split | alike].
Qed.

Lemma RenameDirectoryInput_alike (input : RawMessage) :
  (main.OldPath (fst (Unmarshal input)) = tools.OldPath (fst (Unmarshal input)) /\
   main.NewPath (fst (Unmarshal input)) = tools.NewPath (fst (Unmarshal input))) /\
  (snd (Unmarshal (T := main.RenameDirectoryInput) input) = None <->
   snd (Unmarshal (T := tools.RenameDirectoryInput) input) = None) /\
  (struct_shaped input = true ->
   snd (Unmarshal (T := main.RenameDirectoryInput) input) =
   snd (Unmarshal (T := tools.RenameDirectoryInput) input)).
Proof.
  apply (Unmarshal_alike
           (fun r r' => main.OldPath r = tools.OldPath r' /\
                        main.NewPath r = tools.NewPath r'));
    [now split | alike].
Qed.

(** Where [ReadFile] of [main.go] returns, [ReadFile] of package [tools]
    returns the same. *)
Lemma ReadFile_refines (input : RawMessage) (w w' : World) (r : string * option error) :
  main.ReadFile input w = Returns r w' -> tools.ReadFile input w = Returns r w'.
Proof.
  unfold main.ReadFile, tools.ReadFile.
  destruct (ReadFileInput_alike input) as (Hpath & Herr & _).
  destruct (Unmarshal (T := main.ReadFileInput) input) as [in_ [e|]];
    [discriminate|].
  destruct (Unmarshal (T := tools.ReadFileInput) input) as [in' e'].
  cbn [fst snd] in Hpath, Herr. rewrite (proj1 Herr eq_refl), Hpath. exact (fun H => H).
Qed.

Lemma ListFiles_refines (input : RawMessage) (w w' : World) (r : string * option error) :
  main.ListFiles input w = Returns r w' -> tools.ListFiles input w = Returns r w'.
Proof.
  unfold main.ListFiles, tools.ListFiles.
  destruct (ListFilesInput_alike input) as (Hpath & Herr & _).
  destruct (Unmarshal (T := main.ListFilesInput) input) as [in_ [e|]];
    [discriminate|].
  destruct (Unmarshal (T := tools.ListFilesInput) input) as [in' e'].
  cbn [fst snd] in Hpath, Herr. rewrite (proj1 Herr eq_refl), Hpath. exact (fun H => H).
Qed.

(** The other four handlers of [main.go] do what those of package [tools]
    do, on every payload whose decoding error does not name the struct. *)
Lemma EditFile_same (input : RawMessage) (w : World) :
  struct_shaped input = true -> tools.EditFile input w = main.EditFile input w.
Proof.
  intros Hs. unfold main.EditFile, tools.EditFile.
  destruct (EditFileInput_alike input) as ((Hp & Ho & Hn) & _ & Herr).
  specialize (Herr Hs).
  destruct (Unmarshal (T := main.EditFileInput) input) as [in_ e].
  destruct (Unmarshal (T := tools.EditFileInput) input) as [in' e'].
  cbn [fst snd] in Hp, Ho, Hn, Herr. now rewrite Herr, Hp, Ho, Hn.
Qed.

Lemma MakeDirectory_same (input : RawMessage) (w : World) :
  struct_shaped input = true ->
  tools.MakeDirectory input w = main.MakeDirectory input w.
Proof.
  intros Hs. unfold main.MakeDirectory, tools.MakeDirectory.
  destruct (MakeDirectoryInput_alike input) as (Hp & _ & Herr).
  specialize (Herr Hs).
  destruct (Unmarshal (T := main.MakeDirectoryInput) input) as [in_ e].
  destruct (Unmarshal (T := tools.MakeDirectoryInput) input) as [in' e'].
  cbn [fst snd] in Hp, Herr. now rewrite Herr, Hp.
Qed.

Lemma RemoveDirectory_same (input : RawMessage) (w : World) :
  struct_shaped input = true ->
  tools.RemoveDirectory input w = main.RemoveDirectory input w.
Proof.
  intros Hs. unfold main.RemoveDirectory, tools.RemoveDirectory.
  destruct (RemoveDirectoryInput_alike input) as ((Hp & Hr) & _ & Herr).
  specialize (Herr Hs).
  destruct (Unmarshal (T := main.RemoveDirectoryInput) input) as [in_ e].
  destruct (Unmarshal (T := tools.RemoveDirectoryInput) input) as [in' e'].
  cbn [fst snd] in Hp, Hr, Herr. now rewrite Herr, Hp, Hr.
Qed.

Lemma RenameDirectory_same (input : RawMessage) (w : World) :
  struct_shaped input = true ->
  tools.RenameDirectory input w = main.RenameDirectory input w.
Proof.
  intros Hs. unfold main.RenameDirectory, tools.RenameDirectory.
  destruct (RenameDirectoryInput_alike input) as ((Ho & Hn) & _ & Herr).
  specialize (Herr Hs).
  destruct (Unmarshal (T := main.RenameDirectoryInput) input) as [in_ e].
  destruct (Unmarshal (T := tools.RenameDirectoryInput) input) as [in' e'].
  cbn [fst snd] in Ho, Hn, Herr. now rewrite Herr, Ho, Hn.
Qed.

Variables (a b : Agent).
Hypothesis registry_a : tools a = main.tools.
Hypothesis registry_b : tools b = tools.toolsList.
Hypothesis same_client : client b = client a.
Hypothesis same_input : getUserMessage b = getUserMessage a.

Lemma executeTool_refines (id name : string) (input : RawMessage) (w w' : World)
  (r : ContentBlock) :
  struct_shaped input = true ->
  executeTool a id name input w = Returns r w' ->
  executeTool b id name input w = Returns r w'.
Proof.
  intros Hs. unfold executeTool. rewrite registry_a, registry_b.
  unfold main.tools, tools.toolsList. cbn [find_tool].
  change (Name main.ReadFileDefinition) with "read_file".
  change (Name tools.ReadFileDefinition) with "read_file".
  change (Name main.ListFilesDefinition) with "list_files".
  change (Name tools.ListFilesDefinition) with "list_files".
  change (Name main.EditFileDefinition) with "edit_file".
  change (Name tools.EditFileDefinition) with "edit_file".
  change (Name main.MakeDirectoryDefinition) with "make_directory".
  change (Name tools.MakeDirectoryDefinition) with "make_directory".
  change (Name main.RemoveDirectoryDefinition) with "remove_directory".
  change (Name tools.RemoveDirectoryDefinition) with "remove_directory".
  change (Name main.RenameDirectoryDefinition) with "rename_directory".
  change (Name tools.RenameDirectoryDefinition) with "rename_directory".
  destruct ("read_file" == name).
  { unfold bind. change (Function main.ReadFileDefinition) with main.ReadFile.
    change (Function tools.ReadFileDefinition) with tools.ReadFile.
    destruct (main.ReadFile input w) as [v w1|v] eqn:Hm; [|discriminate].
    now rewrite (ReadFile_refines _ _ _ _ Hm). }
  destruct ("list_files" == name).
  { unfold bind. change (Function main.ListFilesDefinition) with main.ListFiles.
    change (Function tools.ListFilesDefinition) with tools.ListFiles.
    destruct (main.ListFiles input w) as [v w1|v] eqn:Hm; [|discriminate].
    now rewrite (ListFiles_refines _ _ _ _ Hm). }
  destruct ("edit_file" == name).
  { unfold bind. change (Function main.EditFileDefinition) with main.EditFile.
    change (Function tools.EditFileDefinition) with tools.EditFile.
    now rewrite EditFile_same. }
  destruct ("make_directory" == name).
  { unfold bind. change (Function main.MakeDirectoryDefinition) with main.MakeDirectory.
    change (Function tools.MakeDirectoryDefinition) with tools.MakeDirectory.
    now rewrite MakeDirectory_same. }
  destruct ("remove_directory" == name).
  { unfold bind.
    change (Function main.RemoveDirectoryDefinition) with main.RemoveDirectory.
    change (Function tools.RemoveDirectoryDefinition) with tools.RemoveDirectory.
    now rewrite RemoveDirectory_same. }
  destruct ("rename_directory" == name).
  { unfold bind.
    change (Function main.RenameDirectoryDefinition) with main.RenameDirectory.
    change (Function tools.RenameDirectoryDefinition) with tools.RenameDirectory.
    now rewrite RenameDirectory_same. }
  exact (fun H => H).
Qed.

Lemma dispatch_in_order_refines (uses : list ToolUse) (w w' : World)
  (results : list ContentBlock) :
  forallb (fun u => struct_shaped (use_input u)) uses = true ->
  dispatch_in_order a uses w = Returns results w' ->
  dispatch_in_order b uses w = Returns results w'.
Proof.
  revert w w' results; induction uses as [|u rest IH]; intros w w' results Hs;
    [exact (fun H => H)|].
  cbn [forallb] in Hs. apply andb_prop in Hs as [Hu Hrest].
  cbn [dispatch_in_order]. unfold bind, ret.
  destruct (executeTool a (use_id u) (use_name u) (use_input u) w)
    as [r w1|v] eqn:He; [|discriminate].
  rewrite (executeTool_refines _ _ _ _ _ _ Hu He).
  destruct (dispatch_in_order a rest w1) as [rs w2|v] eqn:Hd; [|discriminate].
  now rewrite (IH _ _ _ Hrest Hd).
Qed.

Lemma runInference_same (conversation : list MessageParam) :
  runInference b conversation = runInference a conversation.
Proof.
  unfold runInference. now rewrite same_client, registry_a, registry_b.
Qed.

Lemma read_input_same (l : Loop) : read_input b l = read_input a l.
Proof. unfold read_input. now rewrite same_input. Qed.

Hypothesis objects : sends_objects (client a).

Lemma Run_iteration_refines (l : Loop) (w : World) :
  crashed (Run_iteration a l w) = false ->
  Run_iteration b l w = Run_iteration a l w.
Proof.
  unfold Run_iteration. rewrite read_input_same.
  destruct (read_input a l) as [l1|]; [|reflexivity].
  rewrite runInference_same.
  destruct (runInference a (conversation l1)) as [message|err] eqn:Hinf;
    [|reflexivity].
  rewrite !range_Content_dispatch.
  destruct (dispatch_in_order a (tool_uses (Content message)) w)
    as [results w'|v] eqn:Hd; [|discriminate].
  now rewrite (dispatch_in_order_refines _ _ _ _ (objects _ _ _ Hinf) Hd).
Qed.

Lemma Run_from_refines (n : nat) (l : Loop) (w : World) :
  crashed (Run_from n a l w) = false ->
  Run_from n b l w = Run_from n a l w.
Proof.
  revert l w; induction n as [|n IH]; intros l w; [reflexivity|].
  cbn [Run_from].
  destruct (Run_iteration a l w) as [l' w'|l' w'|err l' w'|v] eqn:Hstep;
    intros H; rewrite Run_iteration_refines by (now rewrite Hstep);
    rewrite Hstep; [now apply IH | reflexivity | reflexivity | discriminate].
Qed.

End TwoGenerations.

(** The two generations of the tools. Each handler of [main.go] decodes
    into a struct of package [main], each handler of package [tools] into
    the struct of the same fields of its own package, and [ReadFile] and
    [ListFiles] of [main.go] panic where those of package [tools] return the
    error. So, with a model that sends the arguments of its tool uses as
    JSON objects — for any other JSON value the message of the decoder names
    the struct type, and the two differ by the name of the package —, the
    loop run over the registry of package [tools] does what it does over the
    registry of [main.go], with the same model and the same input: the same
    conversation, the same tree, the same file-system calls, the same end,
    wherever the run over the registry of [main.go] does not crash. *)
Theorem package_tools_refine_the_tools_of_main
  (n : nat) (client : list MessageParam -> list (string * string) -> result Message)
  (getUserMessage : list string -> (string * bool) * list string)
  (l : agent.Loop) (w : World) :
  sends_objects client ->
  crashed (agent.Run_from n (agent.NewAgent client getUserMessage main.tools) l w)
    = false ->
  agent.Run_from n (agent.NewAgent client getUserMessage tools.toolsList) l w =
  agent.Run_from n (agent.NewAgent client getUserMessage main.tools) l w.
Proof.
  intros Hobjects H.
  now apply (Run_from_refines (agent.NewAgent client getUserMessage main.tools)
               (agent.NewAgent client getUserMessage tools.toolsList)).
Qed.

Lemma package_tools_refine_the_tools_of_main_witness :
  agent.Run 3 (agent.NewAgent demo.scripted main.getUserMessage tools.toolsList)
    ["set it up"] demo.world =
  agent.Run 3 (agent.NewAgent demo.scripted main.getUserMessage main.tools)
    ["set it up"] demo.world.
Proof.
  apply (package_tools_refine_the_tools_of_main 3 demo.scripted main.getUserMessage
           {| agent.conversation := []; agent.readUserInput := true;
              agent.stdin := ["set it up"] |} demo.world);
    [|reflexivity].
  intros conversation declared message. unfold demo.scripted.
  destruct conversation as [|m1 [|m2 [|m3 [|m4 rest]]]]; simpl;
    try discriminate; intros [= <-]; reflexivity.
Defined.

(* ================================================================== *)
(** * Part IX. Renaming *)
(* ================================================================== *)

Section RenameFacts.

Import json fs tools.

Lemma is_prefix_refl (a : list string) : is_prefix a a = true.
Proof. induction a as [|x a IH]; [reflexivity|]. simpl. now rewrite String.eqb_refl. Qed.

Lemma same_path_eq (a b : list string) : same_path a b = true -> a = b.
Proof.
  unfold same_path. revert b; induction a as [|x a IH]; intros [|y b]; simpl;
    try reflexivity; try (now rewrite ?andb_false_r).
  destruct (String.eqb_spec x y) as [->|_]; [|discriminate]. cbn [andb].
  rewrite String.eqb_refl. cbn [andb]. intros H. f_equal. now apply IH.
Qed.

Lemma same_path_differs (a b : list string) : a <> b -> same_path a b = false.
Proof.
  intros H. destruct (same_path a b) eqn:E; [|reflexivity].
  now apply same_path_eq in E.
Qed.

Lemma attach_cons (x y : string) (rest : list string) (src : node)
  (entries : list (string * node)) :
  attach (x :: y :: rest) src (Dir entries) =
  match find x entries with
  | None => Fail ENOENT
  | Some child =>
      match attach (y :: rest) src child with
      | Done child' => Done (Dir (put x child' entries))
      | Fail e => Fail e
      end
  end.
Proof. reflexivity. Qed.

Lemma removeAll_cons (x y : string) (rest : list string) (entries : list (string * node)) :
  removeAll (x :: y :: rest) (Dir entries) =
  match find x entries with
  | None => Done (Dir entries)
  | Some child =>
      match removeAll (y :: rest) child with
      | Done child' => Done (Dir (put x child' entries))
      | Fail e => Fail e
      end
  end.
Proof. reflexivity. Qed.

(** Hanging a node into an existing directory puts it at the path. *)
Lemma attach_into (names : list string) (src n : node) (es : list (string * node)) :
  names <> [] -> lookup (removelast names) n = Done (Dir es) ->
  exists n', attach names src n = Done n' /\ lookup names n' = Done src /\
             is_dir n' = true.
Proof.
  revert n; induction names as [|x names IH]; intros n Hne H; [congruence|].
  destruct names as [|y names].
  - simpl in H. injection H as ->. exists (Dir (put x src es)).
    repeat split. cbn [lookup]. now rewrite find_put.
  - change (removelast (x :: y :: names)) with (x :: removelast (y :: names)) in H.
    destruct n as [d|entries]; [discriminate|]. cbn [lookup] in H.
    destruct (find x entries) as [child|] eqn:Hf; [|discriminate].
    destruct (IH child) as (child' & Ha & Hl & _); [discriminate | assumption|].
    exists (Dir (put x child' entries)). rewrite attach_cons, Hf, Ha.
    repeat split. cbn [lookup]. now rewrite find_put.
Qed.

(** Taking what is at [old] out of the tree and hanging it in at [new]:
    it is then at [new], and nothing is at [old]. *)
Lemma move (old new : list string) (src n : node) (es : list (string * node)) :
  well_formed n = true ->
  lookup old n = Done src -> old <> [] -> new <> [] ->
  is_prefix old new = false ->
  lookup new n = Fail ENOENT ->
  lookup (removelast new) n = Done (Dir es) ->
  exists n' n'',
    removeAll old n = Done n' /\ attach new src n' = Done n'' /\
    lookup new n'' = Done src /\ lookup old n'' = Fail ENOENT /\
    is_dir n'' = true.
Proof.
  revert new n es; induction old as [|x old IH]; intros new n es Hwf Hold Hne Hnew Hpre
    Hmiss Hparent; [congruence|].
  destruct new as [|y new]; [congruence|].
  destruct n as [d|entries]; [discriminate|].
  cbn [lookup] in Hold. destruct (find x entries) as [child|] eqn:Hx; [|discriminate].
  destruct (well_formed_entry x child entries Hwf (find_In _ _ _ Hx)) as [_ Hchild].
  cbn [is_prefix] in Hpre.
  destruct (String.eqb_spec x y) as [<-|Hxy].
  - (* the two paths go through the same entry *)
    cbn [andb] in Hpre.
    destruct old as [|x' old]; [discriminate|].
    cbn [lookup] in Hmiss. rewrite Hx in Hmiss.
    destruct new as [|y' new]; [discriminate|].
    change (removelast (x :: y' :: new)) with (x :: removelast (y' :: new)) in Hparent.
    cbn [lookup] in Hparent. rewrite Hx in Hparent.
    destruct (IH (y' :: new) child es) as (c' & c'' & Hr & Ha & Hl & Hg & _);
      try assumption; try discriminate.
    exists (Dir (put x c' entries)), (Dir (put x c'' (put x c' entries))).
    rewrite removeAll_cons, Hx, Hr, attach_cons, find_put, Ha.
    repeat split; cbn [lookup]; now rewrite find_put.
  - (* the paths part here *)
    assert (Hrm : exists es1, removeAll (x :: old) (Dir entries) = Done (Dir es1) /\
                              find y es1 = find y entries /\
                              lookup (x :: old) (Dir es1) = Fail ENOENT).
    { destruct old as [|x' old]; [cbn [removeAll] | rewrite removeAll_cons];
        rewrite Hx.
      - exists (del x entries). repeat split; [now apply find_del_other|].
        cbn [lookup]. cbn [well_formed] in Hwf. apply andb_prop in Hwf as [Hd _].
        now rewrite find_del.
      - destruct (removeAll_existing (x' :: old) child src Hchild) as (c' & Hr & Hg & _);
          [discriminate | assumption|].
        rewrite Hr. exists (put x c' entries).
        repeat split; [now apply find_put_other|].
        cbn [lookup]. now rewrite find_put. }
    destruct Hrm as (es1 & Hrm & Hy & Hgone).
    assert (Hat : exists es2, attach (y :: new) src (Dir es1) = Done (Dir es2) /\
                              find x es2 = find x es1 /\
                              lookup (y :: new) (Dir es2) = Done src).
    { destruct new as [|y' new]; [cbn [attach] | rewrite attach_cons].
      - exists (put y src es1). repeat split.
        + apply find_put_other. congruence.
        + cbn [lookup]. now rewrite find_put.
      - change (removelast (y :: y' :: new)) with (y :: removelast (y' :: new))
          in Hparent.
        cbn [lookup] in Hparent. rewrite Hy.
        destruct (find y entries) as [cy|]; [|discriminate].
        destruct (attach_into (y' :: new) src cy es) as (cy' & Ha & Hl & _);
          [discriminate | assumption|].
        rewrite Ha. exists (put y cy' es1). repeat split.
        + apply find_put_other. congruence.
        + cbn [lookup]. now rewrite find_put. }
    destruct Hat as (es2 & Hat & Hx2 & Hthere).
    exists (Dir es1), (Dir es2). repeat split; try assumption.
    cbn [lookup] in Hgone |- *. now rewrite Hx2.
Qed.

(** Hanging a node in at a path changes no regular file that is not at
    the path or below it. *)
Lemma attach_frame (c : string) (names q : list string) (src n n' : node) :
  attach names src n = Done n' -> is_prefix names q = false ->
  lookup q n = Done (File c) -> lookup q n' = Done (File c).
Proof.
  revert n n' q; induction names as [|x rest IH]; intros n n' q H Hq Hl;
    [destruct n; discriminate|].
  destruct n as [d|es]; [discriminate|]. cbn [attach] in H.
  destruct q as [|y q']; [discriminate|]. cbn [lookup] in Hl. cbn [is_prefix] in Hq.
  destruct (find y es) as [cy|] eqn:Hy; [|discriminate].
  destruct (String.eqb_spec x y) as [->|Hxy].
  - cbn [andb] in Hq. destruct rest as [|z rest]; [discriminate|].
    rewrite Hy in H.
    destruct (attach (z :: rest) src cy) as [child'|e] eqn:Hr; [|discriminate].
    injection H as <-. cbn [lookup]. rewrite find_put. now apply (IH cy).
  - assert (Hn' : exists es', n' = Dir es' /\ find y es' = find y es).
    { destruct rest as [|z rest].
      - injection H as <-. eexists. split; [reflexivity|]. now apply find_put_other.
      - destruct (find x es) as [child|]; [|discriminate].
        destruct (attach (z :: rest) src child); [|discriminate].
        injection H as <-. eexists. split; [reflexivity|]. now apply find_put_other. }
    destruct Hn' as (es' & -> & Hes'). cbn [lookup]. now rewrite Hes', Hy.
Qed.

Lemma rename_call_frame (c : string) (old new q : list string) (n n' : node) :
  rename_call old new n = Done n' ->
  is_prefix old q = false -> is_prefix new q = false ->
  lookup q n = Done (File c) -> lookup q n' = Done (File c).
Proof.
  unfold rename_call. intros H Ho Hn Hl.
  destruct (lookup old n) as [src|e]; [|discriminate].
  destruct (same_path old new); [now injection H as <-|].
  assert (Hmove : (if is_prefix old new then Fail EINVAL
                   else match removeAll old n with
                        | Done n1 => attach new src n1
                        | Fail e => Fail e
                        end) = Done n' -> lookup q n' = Done (File c)).
  { destruct (is_prefix old new); [discriminate|].
    destruct (removeAll old n) as [n1|e] eqn:Hr; [|discriminate].
    intros Ha. apply (attach_frame c new q src n1); [assumption | assumption|].
    now apply (removeAll_frame c old q n). }
  destruct (lookup new n) as [[d|[|e es]]|[]]; destruct src as [d'|es'];
    try discriminate; now apply Hmove.
Qed.

Lemma rename_frame (c : string) (same_name : bool) (old new q : list string)
  (n n' : node) :
  rename same_name old new n = Done n' ->
  is_prefix old q = false -> is_prefix new q = false ->
  lookup q n = Done (File c) -> lookup q n' = Done (File c).
Proof.
  unfold rename. intros H.
  assert (Hcall : rename_call old new n = Done n').
  { destruct (lookup new n) as [[d|es]|e]; try exact H.
    destruct (lookup old n); [|discriminate].
    destruct (same_name || negb (same_path old new)); [discriminate | exact H]. }
  now apply rename_call_frame.
Qed.

Lemma keeps_Rename (q c old new : string) :
  is_prefix (resolve old) (resolve q) = false ->
  is_prefix (resolve new) (resolve q) = false ->
  keeps q c (os.Rename old new).
Proof.
  intros Ho Hn. unfold os.Rename.
  destruct ((old == "") || (new == "")); [apply keeps_logged|].
  apply keeps_update. intros n n' H.
  now apply (rename_frame c (old == new) (resolve old) (resolve new)).
Qed.

Lemma keeps_RenameDirectory (q c : string) (input : RawMessage) :
  is_prefix (resolve (OldPath (fst (Unmarshal input)))) (resolve q) = false ->
  is_prefix (resolve (NewPath (fst (Unmarshal input)))) (resolve q) = false ->
  keeps q c (RenameDirectory input).
Proof.
  intros Ho Hn. unfold RenameDirectory.
  destruct (Unmarshal input) as [in_ [e|]]; [apply keeps_ret|]. cbn [fst] in Ho, Hn.
  destruct ((OldPath in_ == "") || (NewPath in_ == "")); [apply keeps_ret|].
  apply keeps_bind; [now apply keeps_Rename|].
  intros [err|]; apply keeps_ret.
Qed.

End RenameFacts.

(** [rename_directory] moves what is at [old_path] — a directory with all
    it holds, or a regular file — to [new_path], when nothing is at
    [new_path], the directory in which [new_path] is to hang is there, and
    [new_path] does not lie below [old_path]: the tool reports success, the
    node that was at [old_path] is at [new_path], unchanged, and nothing is
    at [old_path]. *)
Theorem rename_directory_moves_the_node
  (w : World) (input : json.RawMessage) (old new : string) (src : fs.node)
  (parent : list (string * fs.node)) :
  json.Unmarshal input = ({| tools.OldPath := old; tools.NewPath := new |}, None) ->
  fs.valid_path old = true -> fs.valid_path new = true ->
  well_formed (fs.Dir (disk w)) = true ->
  fs.stat old (disk w) = fs.Done src ->
  missing w new ->
  fs.lookup (removelast (fs.resolve new)) (fs.Dir (disk w)) = fs.Done (fs.Dir parent) ->
  fs.is_prefix (fs.resolve old) (fs.resolve new) = false ->
  exists w',
    tools.RenameDirectory input w =
      Returns ("Successfully renamed directory from " +++ old +++ " to " +++ new, None)
              w' /\
    fs.stat new (disk w') = fs.Done src /\
    missing w' old /\
    calls w' = calls w ++ [CallRename old new].
Proof.
  intros Hdec Hvo Hvn Hwf Hsrc Hmiss Hparent Hpre.
  pose proof (valid_path_not_empty _ Hvo) as Ho.
  pose proof (valid_path_not_empty _ Hvn) as Hn.
  unfold missing in Hmiss. rewrite stat_lookup in Hsrc, Hmiss by assumption.
  assert (Hno : fs.resolve old <> []).
  { rewrite resolve_valid by assumption. apply elements_not_nil. }
  assert (Hnn : fs.resolve new <> []).
  { rewrite resolve_valid by assumption. apply elements_not_nil. }
  destruct (move _ _ _ _ _ Hwf Hsrc Hno Hnn Hpre Hmiss Hparent)
    as (n' & n'' & Hr & Ha & Hthere & Hgone & Hd).
  destruct n'' as [|root']; [discriminate|].
  assert (Hcall : fs.rename (old == new) (fs.resolve old) (fs.resolve new)
                    (fs.Dir (disk w)) = fs.Done (fs.Dir root')).
  { unfold fs.rename, fs.rename_call. rewrite Hmiss, Hsrc.
    rewrite same_path_differs by congruence.
    rewrite Hpre, Hr. now destruct src. }
  apply eqb_false_iff in Ho, Hn.
  unfold tools.RenameDirectory. rewrite Hdec. cbn [tools.OldPath tools.NewPath].
  rewrite Ho, Hn. cbn [orb]. unfold bind, ret, os.Rename. rewrite Ho, Hn. cbn [orb].
  rewrite (update_done _ _ _ w root') by assumption.
  apply eqb_false_iff in Ho, Hn.
  eexists. split; [reflexivity|]. unfold missing. cbn [disk calls].
  rewrite !stat_lookup by assumption. now repeat split.
Qed.

Lemma rename_directory_moves_the_node_witness :
  exists w',
    tools.RenameDirectory (demo.object [("old_path", "d"); ("new_path", "z/d")])
      demo.world =
      Returns ("Successfully renamed directory from d to z/d", None) w' /\
    fs.stat "z/d" (disk w') =
      fs.Done (fs.Dir [("e", fs.Dir []); ("f.txt", fs.File "x")]) /\
    missing w' "d" /\
    calls w' = [CallRename "d" "z/d"].
Proof.
  apply (rename_directory_moves_the_node demo.world
           (demo.object [("old_path", "d"); ("new_path", "z/d")]) "d" "z/d"
           (fs.Dir [("e", fs.Dir []); ("f.txt", fs.File "x")]) []);
    reflexivity.
Defined.



(** [rename_directory] changes nothing outside the two paths it is
    given: whatever the outcome, a regular file that is neither at or below
    [old_path] nor at or below [new_path] is afterwards what it was. *)
Theorem rename_directory_keeps_what_is_elsewhere
  (w w' : World) (input : json.RawMessage) (old new q c : string)
  (out : string * option error) :
  json.Unmarshal input = ({| tools.OldPath := old; tools.NewPath := new |}, None) ->
  fs.valid_path old = true -> fs.valid_path new = true -> fs.valid_path q = true ->
  fs.is_prefix (fs.resolve old) (fs.resolve q) = false ->
  fs.is_prefix (fs.resolve new) (fs.resolve q) = false ->
  file_at w q c ->
  tools.RenameDirectory input w = Returns out w' ->
  file_at w' q c.
Proof.
  intros Hdec _ _ _ Ho Hn Hfile Hrun.
  apply (keeps_RenameDirectory q c input) with (w := w) (v := out); try assumption;
    now rewrite Hdec.
Qed.

Lemma rename_directory_keeps_what_is_elsewhere_witness :
  exists w',
    tools.RenameDirectory (demo.object [("old_path", "d"); ("new_path", "z/d")])
      demo.world =
      Returns ("Successfully renamed directory from d to z/d", None) w' /\
    file_at w' "a.txt" "hello world hello".
Proof.
  exists {| disk := [ ("a.txt", fs.File "hello world hello");
                      ("z", fs.Dir [("d", fs.Dir [("e", fs.Dir []);
                                                  ("f.txt", fs.File "x")])]) ];
            calls := [CallRename "d" "z/d"] |}.
  split; [reflexivity|].
  apply (rename_directory_keeps_what_is_elsewhere demo.world _
           (demo.object [("old_path", "d"); ("new_path", "z/d")]) "d" "z/d"
           "a.txt" "hello world hello"
           ("Successfully renamed directory from d to z/d", None));
    reflexivity.
Defined.
